(** * ARA audio readers (juce_ARAAudioReaders.{h,cpp})

    A shallow embedding of the three live-invalidatable readers
    [ARAAudioSourceReader], [ARAPlaybackRegionReader] and
    [ARARegionSequenceReader], and the properties of their read and
    notification paths.

    Conventions.
    - C++ [int] / [int64] values are [Z]; signed overflow is undefined in
      C++ and is not given a meaning here.  Unsigned arithmetic wraps and the
      wrap-around is written out ([to_uint32], [to_int32]).
    - [double] sample rates are primitive binary64 floats.
    - Raw memory is a map from a block and a byte offset to a byte; pointers
      are a block and a byte offset, [None] is [nullptr].
    - A call either returns, or runs into undefined behaviour (a null or
      dangling dereference, an access past an array), or never returns
      (blocked on the lock, or a loop that does not exit): [outcome].
    - The rendering loop of [ARAPlaybackRegionReader::readSamples] runs for
      as long as the renderer makes it; it is followed for a number of turns
      given as an argument, and a read returns when some number of turns is
      enough.
    - [jassert] is compiled out of release builds and is not modelled. *)

From Stdlib Require Import ZArith Lia PrimFloat.
From stdpp Require Import base option list.
Local Open Scope Z_scope.

(** ** Outcomes of a call *)

Inductive outcome (A : Type) : Type :=
| Returns (a : A)
| Undefined
| Hangs.
Arguments Returns {A} a.
Arguments Undefined {A}.
Arguments Hangs {A}.

#[global] Instance outcome_ret : MRet outcome := fun A a => Returns a.
#[global] Instance outcome_bind : MBind outcome := fun A B k c =>
  match c with
  | Returns a => k a
  | Undefined => Undefined
  | Hangs => Hangs
  end.

(** [for (int i = 0; i < n; ++i) body], as a fold over the indices. *)
Fixpoint for_each {S : Type} (idx : list nat) (body : nat -> S -> outcome S) (s : S)
  : outcome S :=
  match idx with
  | [] => Returns s
  | i :: rest => s' ← body i s; for_each rest body s'
  end.

Definition indices (n : Z) : list nat := seq 0 (Z.to_nat n).

(** ** Machine integers *)

Definition to_uint32 (z : Z) : Z := z mod 2 ^ 32.
Definition to_int32 (z : Z) : Z := (z + 2 ^ 31) mod 2 ^ 32 - 2 ^ 31.

Definition jmax (a b : Z) : Z := if a <? b then b else a.
Definition jmin (a b : Z) : Z := if b <? a then b else a.

(** ** Raw memory *)

Inductive block : Type :=
| Caller (id : nat)     (* a buffer owned by the caller of readSamples *)
| Scratch.              (* the thread-local [dummyBuffer] *)

#[global] Instance block_eq_dec : EqDecision block.
Proof. solve_decision. Defined.

Definition ptr : Type := block * Z.
Definition ptr_add (p : ptr) (d : Z) : ptr := (p.1, p.2 + d).

Definition bytes_t : Type := block -> Z -> Byte.byte.

Record mem : Type := Mem {
  bytes : bytes_t;
  scratchSize : Z        (* dummyBuffer.get().size() *)
}.

Definition in_span (p : ptr) (len : Z) (b : block) (k : Z) : bool :=
  bool_decide (b = p.1) && (p.2 <=? k) && (k <? p.2 + len).

(** [zeromem (p, numBytes)] is [memset (p, 0, numBytes)] with
    [numBytes : size_t]; a negative [int] converts to a size beyond any
    buffer. *)
Definition zero_bytes (bs : bytes_t) (p : ptr) (len : Z) : bytes_t :=
  fun b k => if in_span p len b k then Byte.x00 else bs b k.

Definition zeromem (p : ptr) (numBytes : Z) (m : mem) : outcome mem :=
  if numBytes <? 0 then Undefined
  else Returns (Mem (zero_bytes (bytes m) p numBytes) (scratchSize m)).

(** [dummyBuffer.get().resize (n)] for [n] above the current size: the new
    tail is value-initialised. *)
Definition resizeScratch (n : Z) (m : mem) : mem :=
  Mem (zero_bytes (bytes m) (Scratch, scratchSize m) (n - scratchSize m)) n.

(** ** The reader/writer lock *)

Module ReadWriteLock.

(** Modelled from the spec: [juce::ReadWriteLock] is not part of the
    sources at hand.  Section 4.1: a non-blocking reader acquisition that
    reports success, paired with a release; a blocking writer acquisition
    and release; readers may be concurrent with each other, a writer
    excludes all readers and other writers. *)
Record t : Type := Make {
  numReaders : nat;
  writerActive : bool
}.

Definition unlocked : t := Make 0 false.

Definition tryEnterRead (l : t) : bool * t :=
  if writerActive l then (false, l)
  else (true, Make (S (numReaders l)) false).

Definition exitRead (l : t) : t :=
  Make (Nat.pred (numReaders l)) (writerActive l).

(** Blocking: the call returns only once nobody holds the lock. *)
Definition enterWrite (l : t) : outcome t :=
  if writerActive l then Hangs
  else match numReaders l with
       | O => Returns (Make 0 true)
       | S _ => Hangs
       end.

Definition exitWrite (l : t) : t := Make (numReaders l) false.

End ReadWriteLock.

(** ** ARAAudioSourceReader *)

Module SourceReader.

(** [ARA::PlugIn::HostAudioReader] belongs to the ARA library.  Its only
    method used is [readAudioSamples (position, count, buffers)], which
    reports success and may write through the buffers. *)
Record HostAudioReader : Type := {
  readAudioSamples : Z -> Z -> list (option ptr) -> bytes_t -> bool * bytes_t
}.

(** Modelled from the spec: [ARAAudioSource] is declared in
    juce_ARAAudioSource.h, which is not part of the sources at hand.
    Section 3: a host-owned entity with a sample rate, a channel count, a
    length and a boolean "sample access enabled" flag; section 6: it keeps
    a registry of listeners and can create an accessor. *)
Record ARAAudioSource : Type := {
  getSampleRate : float;
  getChannelCount : Z;
  getSampleCount : Z;
  isSampleAccessEnabled : bool;
  listeners : list nat;
  hostAccess : HostAudioReader
}.

Definition setListeners (s : ARAAudioSource) (ls : list nat) : ARAAudioSource :=
  {| getSampleRate := getSampleRate s; getChannelCount := getChannelCount s;
     getSampleCount := getSampleCount s;
     isSampleAccessEnabled := isSampleAccessEnabled s;
     listeners := ls; hostAccess := hostAccess s |}.

Definition setSampleAccessEnabled (s : ARAAudioSource) (e : bool) : ARAAudioSource :=
  {| getSampleRate := getSampleRate s; getChannelCount := getChannelCount s;
     getSampleCount := getSampleCount s;
     isSampleAccessEnabled := e;
     listeners := listeners s; hostAccess := hostAccess s |}.

Definition addListener (l : nat) (s : ARAAudioSource) : ARAAudioSource :=
  setListeners s (l :: listeners s).
Definition removeListener (l : nat) (s : ARAAudioSource) : ARAAudioSource :=
  setListeners s (filter (fun x => x <> l) (listeners s)).

(** The fields of [AudioFormatReader] the reader sets, and its own. *)
Record ARAAudioSourceReader : Type := {
  bitsPerSample : Z;                       (* unsigned int *)
  usesFloatingPointData : bool;
  sampleRate : float;
  numChannels : Z;                         (* unsigned int *)
  lengthInSamples : Z;                     (* int64 *)
  audioSourceBeingRead : option nat;       (* ARAAudioSource* *)
  araHostReader : option HostAudioReader;  (* std::unique_ptr *)
  lock : ReadWriteLock.t;
  tmpPtrs : list (option ptr)              (* std::vector<void*> *)
}.

Definition setHostReader (r : ARAAudioSourceReader) (h : option HostAudioReader) :=
  {| bitsPerSample := bitsPerSample r; usesFloatingPointData := usesFloatingPointData r;
     sampleRate := sampleRate r; numChannels := numChannels r;
     lengthInSamples := lengthInSamples r;
     audioSourceBeingRead := audioSourceBeingRead r;
     araHostReader := h; lock := lock r; tmpPtrs := tmpPtrs r |}.

Definition setLock (r : ARAAudioSourceReader) (l : ReadWriteLock.t) :=
  {| bitsPerSample := bitsPerSample r; usesFloatingPointData := usesFloatingPointData r;
     sampleRate := sampleRate r; numChannels := numChannels r;
     lengthInSamples := lengthInSamples r;
     audioSourceBeingRead := audioSourceBeingRead r;
     araHostReader := araHostReader r; lock := l; tmpPtrs := tmpPtrs r |}.

Definition setSource (r : ARAAudioSourceReader) (a : option nat) :=
  {| bitsPerSample := bitsPerSample r; usesFloatingPointData := usesFloatingPointData r;
     sampleRate := sampleRate r; numChannels := numChannels r;
     lengthInSamples := lengthInSamples r;
     audioSourceBeingRead := a;
     araHostReader := araHostReader r; lock := lock r; tmpPtrs := tmpPtrs r |}.

Definition setTmpPtrs (r : ARAAudioSourceReader) (t : list (option ptr)) :=
  {| bitsPerSample := bitsPerSample r; usesFloatingPointData := usesFloatingPointData r;
     sampleRate := sampleRate r; numChannels := numChannels r;
     lengthInSamples := lengthInSamples r;
     audioSourceBeingRead := audioSourceBeingRead r;
     araHostReader := araHostReader r; lock := lock r; tmpPtrs := t |}.

(** The host's objects, and one reader ([this] is its identity in the
    listener registries). *)
Record World : Type := {
  heap : nat -> option ARAAudioSource;
  this : nat;
  rdr : ARAAudioSourceReader
}.

Definition setRdr (w : World) (r : ARAAudioSourceReader) : World :=
  {| heap := heap w; this := this w; rdr := r |}.

Definition store (h : nat -> option ARAAudioSource) (a : nat) (s : option ARAAudioSource)
  : nat -> option ARAAudioSource :=
  fun a' => if decide (a' = a) then s else h a'.

Definition setHeap (w : World) (h : nat -> option ARAAudioSource) : World :=
  {| heap := h; this := this w; rdr := rdr w |}.

(** [p->...]: a null pointer or a pointer to a destroyed source cannot be
    dereferenced. *)
Definition deref (h : nat -> option ARAAudioSource) (p : option nat)
  : outcome (nat * ARAAudioSource) :=
  match p with
  | None => Undefined
  | Some a => match h a with
              | Some s => Returns (a, s)
              | None => Undefined
              end
  end.

Definition invalidate (w : World) : World :=
  setRdr w (setHostReader (rdr w) None).

Definition recreate (w : World) : outcome World :=
  match audioSourceBeingRead (rdr w) with
  | None => Returns w
  | Some a =>
      '(_, s) ← deref (heap w) (Some a);
      Returns (setRdr w (setHostReader (rdr w) (Some (hostAccess s))))
  end.

Definition enterWrite (w : World) : outcome World :=
  l ← ReadWriteLock.enterWrite (lock (rdr w));
  Returns (setRdr w (setLock (rdr w) l)).

Definition exitWrite (w : World) : World :=
  setRdr w (setLock (rdr w) (ReadWriteLock.exitWrite (lock (rdr w)))).

(** The constructor. *)
Definition construct (h : nat -> option ARAAudioSource) (self : nat)
           (audioSource : option nat) (use64BitSamples : bool) : outcome World :=
  '(a, s) ← deref h audioSource;
  let nch := to_uint32 (getChannelCount s) in
  let r := {| bitsPerSample := if use64BitSamples then 64 else 32;
              usesFloatingPointData := true;
              sampleRate := getSampleRate s;
              numChannels := nch;
              lengthInSamples := getSampleCount s;
              audioSourceBeingRead := audioSource;
              araHostReader := None;
              lock := ReadWriteLock.unlocked;
              tmpPtrs := replicate (Z.to_nat nch) None |} in
  let w := {| heap := store h a (Some (addListener self s)); this := self; rdr := r |} in
  if isSampleAccessEnabled s then recreate w else Returns w.

Definition willEnableAudioSourceSamplesAccess (enable : bool) (w : World)
  : outcome World :=
  w1 ← enterWrite w;
  Returns (if negb enable then invalidate w1 else w1).

Definition didEnableAudioSourceSamplesAccess (enable : bool) (w : World)
  : outcome World :=
  w1 ← (if enable then recreate w else Returns w);
  Returns (exitWrite w1).

Definition willDestroyAudioSource (w : World) : outcome World :=
  '(a, s) ← deref (heap w) (audioSourceBeingRead (rdr w));
  let w1 := setHeap w (store (heap w) a (Some (removeListener (this w) s))) in
  w2 ← enterWrite w1;
  let w3 := exitWrite (invalidate w2) in
  Returns (setRdr w3 (setSource (rdr w3) None)).

(** [kSignalUnchanged] stands for the ARA constant
    [ARA::kARAContentUpdateSignalScopeRemainsUnchanged], from the ARA
    headers. *)
Definition doUpdateAudioSourceContent (kSignalUnchanged : Z) (flags : Z) (w : World)
  : outcome World :=
  if negb (Z.land flags kSignalUnchanged =? 0)
  then Returns w
  else w1 ← enterWrite w; Returns (exitWrite (invalidate w1)).

(** The destructor. *)
Definition destruct_reader (w : World) : outcome World :=
  w1 ← match audioSourceBeingRead (rdr w) with
       | Some a =>
           '(_, s) ← deref (heap w) (Some a);
           Returns (setHeap w (store (heap w) a (Some (removeListener (this w) s))))
       | None => Returns w
       end;
  w2 ← enterWrite w1;
  Returns (exitWrite (invalidate w2)).

(** [readSamples]. *)
Definition byteCount (r : ARAAudioSourceReader) (frames : Z) : Z :=
  to_int32 (to_uint32 (bitsPerSample r / 8 * to_uint32 frames)).

Definition zeroChannel (destSamples : list (option ptr)) (bufferOffset destSize : Z)
           (chan_i : nat) (m : mem) : outcome mem :=
  match destSamples !! chan_i with
  | None => Undefined
  | Some None => Returns m
  | Some (Some p) => zeromem (ptr_add p bufferOffset) destSize m
  end.

(** [dummyBuffer.get().data()]: the storage of the vector.  The vector is
    only ever grown, by [resize]; as long as it has never held an element
    it has no storage and [data()] is null. *)
Definition scratchData (m : mem) : option ptr :=
  if 0 <? scratchSize m then Some (Scratch, 0) else None.

Definition useDummy (destSize : Z) (chan_i : nat) (st : list (option ptr) * mem)
  : list (option ptr) * mem :=
  let m := if scratchSize st.2 <? destSize then resizeScratch destSize st.2 else st.2 in
  (<[chan_i := scratchData m]> st.1, m).

Definition pointChannel (destSamples : list (option ptr)) (numDestChannels : Z)
           (bufferOffset destSize : Z) (chan_i : nat) (st : list (option ptr) * mem)
  : outcome (list (option ptr) * mem) :=
  if Z.of_nat chan_i <? numDestChannels then
    match destSamples !! chan_i with
    | None => Undefined
    | Some (Some p) => Returns (<[chan_i := Some (ptr_add p bufferOffset)]> st.1, st.2)
    | Some None => Returns (useDummy destSize chan_i st)
    end
  else Returns (useDummy destSize chan_i st).

Definition readSamples (r : ARAAudioSourceReader) (destSamples : list (option ptr))
           (numDestChannels startOffsetInDestBuffer startSampleInFile numSamples : Z)
           (m : mem) : outcome (bool * ARAAudioSourceReader * mem) :=
  let destSize := byteCount r numSamples in
  let bufferOffset := byteCount r startOffsetInDestBuffer in
  let entered := ReadWriteLock.tryEnterRead (lock r) in
  let r1 := setLock r entered.2 in
  match entered.1, araHostReader r with
  | true, Some host =>
      st ← for_each (seq 0 (length (tmpPtrs r)))
             (pointChannel destSamples numDestChannels bufferOffset destSize)
             (tmpPtrs r, m);
      let res := readAudioSamples host startSampleInFile numSamples st.1 (bytes st.2) in
      Returns (res.1,
               setLock (setTmpPtrs r1 st.1) (ReadWriteLock.exitRead (lock r1)),
               Mem res.2 (scratchSize st.2))
  | _, _ =>
      m' ← for_each (indices numDestChannels)
             (zeroChannel destSamples bufferOffset destSize) m;
      Returns (false, r1, m')
  end.

(** *** The host side *)

(** Modelled from the spec: the code that delivers the notifications is not
    part of the sources at hand.  Sections 4.2 and 6: the audio source
    notifies its registered listeners before and after its "sample access
    enabled" flag changes, on a content update, and before it is destroyed;
    a destroyed source is gone from the host's objects. *)
Inductive hostOp : Type :=
| EnableSampleAccess (enable : bool)
| UpdateContent (flags : Z)
| DestroySource.

Definition isListening (a : nat) (w : World) : bool :=
  match heap w a with
  | Some s => bool_decide (this w ∈ listeners s)
  | None => false
  end.

Definition notify (a : nat) (handler : World -> outcome World) (w : World)
  : outcome World :=
  if isListening a w then handler w else Returns w.

Definition setFlag (a : nat) (enable : bool) (w : World) : World :=
  match heap w a with
  | Some s => setHeap w (store (heap w) a (Some (setSampleAccessEnabled s enable)))
  | None => w
  end.

Definition hostStep (kSignalUnchanged : Z) (a : nat) (op : hostOp) (w : World)
  : outcome World :=
  match heap w a with
  | None => Returns w
  | Some _ =>
      match op with
      | EnableSampleAccess enable =>
          w1 ← notify a (willEnableAudioSourceSamplesAccess enable) w;
          notify a (didEnableAudioSourceSamplesAccess enable) (setFlag a enable w1)
      | UpdateContent flags =>
          notify a (doUpdateAudioSourceContent kSignalUnchanged flags) w
      | DestroySource =>
          w1 ← notify a willDestroyAudioSource w;
          Returns (setHeap w1 (store (heap w1) a None))
      end
  end.

(** The states a reader over the source at [a] can be in between two host
    operations, the host being held to the operations in [allowed]. *)
Inductive reachable (kSignalUnchanged : Z) (allowed : hostOp -> Prop) (a : nat)
  : World -> Prop :=
| reach_construct (h : nat -> option ARAAudioSource) (self : nat)
                  (use64BitSamples : bool) (w : World) :
    construct h self (Some a) use64BitSamples = Returns w ->
    reachable kSignalUnchanged allowed a w
| reach_step (w w' : World) (op : hostOp) :
    reachable kSignalUnchanged allowed a w ->
    allowed op ->
    hostStep kSignalUnchanged a op w = Returns w' ->
    reachable kSignalUnchanged allowed a w'.

(** *** Calls on a reader, one after the other *)

Inductive readerCall : Type :=
| CallReadSamples (destSamples : list (option ptr))
                  (numDestChannels startOffsetInDestBuffer startSampleInFile numSamples : Z)
| CallWillEnable (enable : bool)
| CallDidEnable (enable : bool)
| CallDoUpdate (flags : Z).

Definition runCall (kSignalUnchanged : Z) (c : readerCall) (st : World * mem)
  : outcome (World * mem) :=
  match c with
  | CallReadSamples destSamples numDestChannels off pos n =>
      res ← readSamples (rdr st.1) destSamples numDestChannels off pos n st.2;
      Returns (setRdr st.1 res.1.2, res.2)
  | CallWillEnable enable =>
      w ← willEnableAudioSourceSamplesAccess enable st.1; Returns (w, st.2)
  | CallDidEnable enable =>
      w ← didEnableAudioSourceSamplesAccess enable st.1; Returns (w, st.2)
  | CallDoUpdate flags =>
      w ← doUpdateAudioSourceContent kSignalUnchanged flags st.1; Returns (w, st.2)
  end.

Fixpoint runCalls (kSignalUnchanged : Z) (cs : list readerCall) (st : World * mem)
  : outcome (World * mem) :=
  match cs with
  | [] => Returns st
  | c :: rest => st' ← runCall kSignalUnchanged c st; runCalls kSignalUnchanged rest st'
  end.

End SourceReader.

(** ** ARAPlaybackRegionReader *)

Module RegionReader.

(** Modelled from the spec: [ARAPlaybackRegion] and the ARA model objects
    behind it are not part of the sources at hand.  Section 3: a region
    references one audio source (through its audio modification) and has a
    placement on the timeline; section 6: its end position in samples at a
    given rate can be queried, and it keeps a registry of listeners. *)
Record ARAPlaybackRegion : Type := {
  regionId : nat;
  sourceSampleRate : float;     (* getAudioModification()->getAudioSource()->getSampleRate() *)
  sourceChannelCount : Z;       (* ...->getChannelCount(), an ARAChannelCount *)
  getEndInPlaybackSamples : float -> Z
}.

(** [AudioBuffer<float> (channels, numChannels, startSample, numSamples)]
    refers to the caller's channel arrays. *)
Record AudioBuffer : Type := {
  channels : list (option ptr);
  bufNumChannels : Z;
  bufStartSample : Z;
  bufNumSamples : Z
}.

(** The interface of [ARAPlaybackRenderer] (section 6).  What
    [processBlock] reports is carried along as a flag. *)
Class ARAPlaybackRenderer (R : Type) : Type := {
  addPlaybackRegion : nat -> R -> R;
  removePlaybackRegion : nat -> R -> R;
  getPlaybackRegions : R -> list nat;
  prepareToPlay : float -> Z -> R -> R;
  releaseResources : R -> R;
  getMaxSamplesPerBlock : R -> Z;
  processBlock : AudioBuffer -> Z -> bool -> R -> bytes_t -> bool * R * bytes_t
}.

(** The calls a reader makes on its lock, on regions, on the sequence and
    on the renderer from the control path, in program order. *)
Inductive call : Type :=
| LockEnterWrite
| LockExitWrite
| RegionAddListener (p : nat)
| RegionRemoveListener (p : nat)
| RendererReleaseResources
| RendererAddPlaybackRegion (p : nat)
| RendererRemovePlaybackRegion (p : nat)
| RendererPrepareToPlay
| SequenceAddListener
| SequenceRemoveListener.

#[global] Instance call_eq_dec : EqDecision call.
Proof. solve_decision. Defined.

Section Reader.
Context {R : Type} `{ARAPlaybackRenderer R}.

Record ARAPlaybackRegionReader : Type := {
  bitsPerSample : Z;
  usesFloatingPointData : bool;
  sampleRate : float;
  numChannels : Z;                 (* unsigned int *)
  lengthInSamples : Z;             (* int64 *)
  playbackRenderer : R;
  lock : ReadWriteLock.t;
  listening : list nat;            (* regions that have this reader as a listener *)
  calls : list call
}.

Definition setFormat (r : ARAPlaybackRegionReader) (sr : float) (nc len : Z) :=
  {| bitsPerSample := bitsPerSample r; usesFloatingPointData := usesFloatingPointData r;
     sampleRate := sr; numChannels := nc; lengthInSamples := len;
     playbackRenderer := playbackRenderer r; lock := lock r;
     listening := listening r; calls := calls r |}.

Definition setRenderer (r : ARAPlaybackRegionReader) (rs : R) :=
  {| bitsPerSample := bitsPerSample r; usesFloatingPointData := usesFloatingPointData r;
     sampleRate := sampleRate r; numChannels := numChannels r;
     lengthInSamples := lengthInSamples r;
     playbackRenderer := rs; lock := lock r;
     listening := listening r; calls := calls r |}.

Definition setLock (r : ARAPlaybackRegionReader) (l : ReadWriteLock.t) :=
  {| bitsPerSample := bitsPerSample r; usesFloatingPointData := usesFloatingPointData r;
     sampleRate := sampleRate r; numChannels := numChannels r;
     lengthInSamples := lengthInSamples r;
     playbackRenderer := playbackRenderer r; lock := l;
     listening := listening r; calls := calls r |}.

Definition setListening (r : ARAPlaybackRegionReader) (ls : list nat) :=
  {| bitsPerSample := bitsPerSample r; usesFloatingPointData := usesFloatingPointData r;
     sampleRate := sampleRate r; numChannels := numChannels r;
     lengthInSamples := lengthInSamples r;
     playbackRenderer := playbackRenderer r; lock := lock r;
     listening := ls; calls := calls r |}.

Definition record (c : call) (r : ARAPlaybackRegionReader) :=
  {| bitsPerSample := bitsPerSample r; usesFloatingPointData := usesFloatingPointData r;
     sampleRate := sampleRate r; numChannels := numChannels r;
     lengthInSamples := lengthInSamples r;
     playbackRenderer := playbackRenderer r; lock := lock r;
     listening := listening r; calls := calls r ++ [c] |}.

(** The calls the handlers are made of. *)
Definition enterWrite (r : ARAPlaybackRegionReader) : outcome ARAPlaybackRegionReader :=
  l ← ReadWriteLock.enterWrite (lock r);
  Returns (record LockEnterWrite (setLock r l)).

Definition exitWrite (r : ARAPlaybackRegionReader) : ARAPlaybackRegionReader :=
  record LockExitWrite (setLock r (ReadWriteLock.exitWrite (lock r))).

Definition regionAddListener (p : nat) (r : ARAPlaybackRegionReader) :=
  record (RegionAddListener p) (setListening r (p :: listening r)).

Definition regionRemoveListener (p : nat) (r : ARAPlaybackRegionReader) :=
  record (RegionRemoveListener p)
         (setListening r (filter (fun x => x <> p) (listening r))).

Definition rendererAdd (p : nat) (r : ARAPlaybackRegionReader) :=
  record (RendererAddPlaybackRegion p)
         (setRenderer r (addPlaybackRegion p (playbackRenderer r))).

Definition rendererRemove (p : nat) (r : ARAPlaybackRegionReader) :=
  record (RendererRemovePlaybackRegion p)
         (setRenderer r (removePlaybackRegion p (playbackRenderer r))).

Definition rendererRelease (r : ARAPlaybackRegionReader) :=
  record RendererReleaseResources
         (setRenderer r (releaseResources (playbackRenderer r))).

Definition rendererPrepare (rate : float) (maxBlock : Z) (r : ARAPlaybackRegionReader) :=
  record RendererPrepareToPlay
         (setRenderer r (prepareToPlay rate maxBlock (playbackRenderer r))).

(** The constructor: the body of the loop over the regions, then the
    whole. *)
Definition visitRegion (r : ARAPlaybackRegionReader) (playbackRegion : ARAPlaybackRegion)
  : ARAPlaybackRegionReader :=
  let sr := if PrimFloat.eqb (sampleRate r) 0%float
            then sourceSampleRate playbackRegion else sampleRate r in
  let nc := jmax (numChannels r) (to_uint32 (sourceChannelCount playbackRegion)) in
  let len := jmax (lengthInSamples r) (getEndInPlaybackSamples playbackRegion sr) in
  regionAddListener (regionId playbackRegion)
    (rendererAdd (regionId playbackRegion) (setFormat r sr nc len)).

Definition construct (renderer : R) (playbackRegions : list ARAPlaybackRegion)
  : ARAPlaybackRegionReader :=
  let r0 := {| bitsPerSample := 32; usesFloatingPointData := true;
               sampleRate := 0%float; numChannels := 1; lengthInSamples := 0;
               playbackRenderer := renderer; lock := ReadWriteLock.unlocked;
               listening := []; calls := [] |} in
  let r1 := foldl visitRegion r0 playbackRegions in
  let r2 := if PrimFloat.eqb (sampleRate r1) 0%float
            then setFormat r1 44100%float (numChannels r1) (lengthInSamples r1)
            else r1 in
  rendererPrepare (sampleRate r2) (16 * 1024) r2.

(** [readSamples]. *)

(** [FloatVectorOperations::clear (p, n)] on a pointer to float: [n]
    floats from [p] on become 0.0f, that is, [4 * n] zero bytes. *)
Definition clearChannel (destSamples : list (option ptr)) (numSamples : Z)
           (chan_i : nat) (m : mem) : outcome mem :=
  match destSamples !! chan_i with
  | None => Undefined
  | Some None => if 0 <? numSamples then Undefined else Returns m
  | Some (Some p) => zeromem p (4 * numSamples) m
  end.

(** The [while (numSamples > 0)] loop, followed for at most [turns] turns.
    Every turn asks the renderer for its maximum block size again and hands
    the slice to [processBlock] as it comes out, positive or not; the loop
    ends when [numSamples] is no longer positive.  How many turns that
    takes depends on the renderer: [Hangs] says here that the loop is still
    running after [turns] turns, and the loop never ends when that is so for
    every [turns]. *)
Fixpoint renderLoop (turns : nat) (destSamples : list (option ptr))
         (numDestChannels startOffsetInDestBuffer startSampleInFile numSamples : Z)
         (rs : R) (bs : bytes_t) : outcome (R * bytes_t) :=
  if numSamples <=? 0 then Returns (rs, bs)
  else match turns with
       | O => Hangs
       | S turns' =>
           let numSliceSamples := jmin numSamples (getMaxSamplesPerBlock rs) in
           let buffer := {| channels := destSamples;
                            bufNumChannels := numDestChannels;
                            bufStartSample := startOffsetInDestBuffer;
                            bufNumSamples := numSliceSamples |} in
           let res := processBlock buffer startSampleInFile true rs bs in
           renderLoop turns' destSamples numDestChannels
                      (startOffsetInDestBuffer + numSliceSamples)
                      (startSampleInFile + numSliceSamples)
                      (numSamples - numSliceSamples)
                      res.1.2 res.2
       end.

(** [readSamples], its loop followed for at most [turns] turns. *)
Definition readSamples (turns : nat) (r : ARAPlaybackRegionReader)
           (destSamples : list (option ptr))
           (numDestChannels startOffsetInDestBuffer startSampleInFile numSamples : Z)
           (m : mem) : outcome (bool * ARAPlaybackRegionReader * mem) :=
  let entered := ReadWriteLock.tryEnterRead (lock r) in
  if negb entered.1 then
    m' ← for_each (indices numDestChannels) (clearChannel destSamples numSamples) m;
    Returns (false, r, m')
  else
    let r1 := setLock r entered.2 in
    out ← renderLoop turns destSamples numDestChannels
            startOffsetInDestBuffer startSampleInFile numSamples
            (playbackRenderer r1) (bytes m);
    Returns (true,
             setLock (setRenderer r1 out.1) (ReadWriteLock.exitRead (lock r1)),
             Mem out.2 (scratchSize m)).

Definition willDestroyPlaybackRegion (playbackRegion : nat)
           (r : ARAPlaybackRegionReader) : outcome ARAPlaybackRegionReader :=
  if bool_decide (playbackRegion ∈ getPlaybackRegions (playbackRenderer r)) then
    r1 ← enterWrite r;
    Returns (exitWrite
               (rendererRemove playbackRegion
                  (rendererRelease (regionRemoveListener playbackRegion r1))))
  else Returns r.

End Reader.
Arguments ARAPlaybackRegionReader R : clear implicits.

End RegionReader.

(** ** ARARegionSequenceReader *)

Module SequenceReader.

(** Modelled from the spec: [ARARegionSequence] is not part of the sources
    at hand.  Section 3: an ordered collection of playback regions whose
    membership changes over time and which the host can destroy; section
    6: it keeps a registry of listeners. *)
Record ARARegionSequence : Type := {
  getPlaybackRegions : list RegionReader.ARAPlaybackRegion
}.

(** [ARA::contains (regions, region)] compares pointers. *)
Definition contains (regions : list RegionReader.ARAPlaybackRegion)
           (region : RegionReader.ARAPlaybackRegion) : bool :=
  bool_decide (RegionReader.regionId region ∈ map RegionReader.regionId regions).

Section Reader.
Context {R : Type} `{RegionReader.ARAPlaybackRenderer R}.

Record ARARegionSequenceReader : Type := {
  base : RegionReader.ARAPlaybackRegionReader R;
  sequence : option nat                    (* ARARegionSequence* *)
}.

Definition deref (seqs : nat -> option ARARegionSequence) (p : option nat)
  : outcome ARARegionSequence :=
  match p with
  | None => Undefined
  | Some a => match seqs a with
              | Some s => Returns s
              | None => Undefined
              end
  end.

Definition construct (seqs : nat -> option ARARegionSequence) (renderer : R)
           (regionSequence : option nat) : outcome ARARegionSequenceReader :=
  s ← deref seqs regionSequence;
  let b := RegionReader.construct renderer (getPlaybackRegions s) in
  Returns {| base := RegionReader.record RegionReader.SequenceAddListener b;
             sequence := regionSequence |}.

Definition willRemovePlaybackRegionFromRegionSequence
           (seqs : nat -> option ARARegionSequence)
           (playbackRegion : RegionReader.ARAPlaybackRegion)
           (r : ARARegionSequenceReader) : outcome ARARegionSequenceReader :=
  s ← deref seqs (sequence r);
  if contains (getPlaybackRegions s) playbackRegion then
    b ← RegionReader.enterWrite (base r);
    let p := RegionReader.regionId playbackRegion in
    Returns {| base := RegionReader.exitWrite
                         (RegionReader.rendererRemove p
                            (RegionReader.rendererRelease
                               (RegionReader.regionRemoveListener p b)));
               sequence := sequence r |}
  else Returns r.

Definition didAddPlaybackRegionToRegionSequence
           (seqs : nat -> option ARARegionSequence)
           (playbackRegion : RegionReader.ARAPlaybackRegion)
           (r : ARARegionSequenceReader) : outcome ARARegionSequenceReader :=
  s ← deref seqs (sequence r);
  if contains (getPlaybackRegions s) playbackRegion then
    b ← RegionReader.enterWrite (base r);
    let p := RegionReader.regionId playbackRegion in
    Returns {| base := RegionReader.exitWrite
                         (RegionReader.rendererAdd p
                            (RegionReader.rendererRelease
                               (RegionReader.regionAddListener p b)));
               sequence := sequence r |}
  else Returns r.

Definition willDestroyRegionSequence (seqs : nat -> option ARARegionSequence)
           (r : ARARegionSequenceReader) : outcome ARARegionSequenceReader :=
  _ ← deref seqs (sequence r);
  Returns {| base := RegionReader.record RegionReader.SequenceRemoveListener (base r);
             sequence := None |}.

End Reader.
Arguments ARARegionSequenceReader R : clear implicits.

End SequenceReader.

(** ** The destructors of the region readers *)

Module ReaderEnd.

Section Reader.
Context {R : Type} `{RegionReader.ARAPlaybackRenderer R}.

(** [~ARAPlaybackRegionReader]: under the writer lock, the reader removes
    itself from the listeners of every region the renderer reports, then
    deletes the renderer (nothing of it is used afterwards); the lock is
    given back when the scope ends. *)
Definition destroyRegionReader (r : RegionReader.ARAPlaybackRegionReader R)
  : outcome (RegionReader.ARAPlaybackRegionReader R) :=
  r1 ← RegionReader.enterWrite r;
  Returns (RegionReader.exitWrite
             (foldl (fun acc p => RegionReader.regionRemoveListener p acc) r1
                    (RegionReader.getPlaybackRegions (RegionReader.playbackRenderer r1)))).

(** [~ARARegionSequenceReader]: its own body first, then the base class's
    destructor. *)
Definition destroySequenceReader (seqs : nat -> option SequenceReader.ARARegionSequence)
           (r : SequenceReader.ARARegionSequenceReader R)
  : outcome (SequenceReader.ARARegionSequenceReader R) :=
  b ← match SequenceReader.sequence r with
      | Some a =>
          _ ← SequenceReader.deref seqs (Some a);
          Returns (RegionReader.record RegionReader.SequenceRemoveListener
                                       (SequenceReader.base r))
      | None => Returns (SequenceReader.base r)
      end;
  b' ← destroyRegionReader b;
  Returns {| SequenceReader.base := b'; SequenceReader.sequence := SequenceReader.sequence r |}.

End Reader.

End ReaderEnd.

(** ** AudioPlayHead::CurrentPositionInfo (juce_AudioPlayHead.h) *)

Module AudioPlayHead.

Inductive FrameRateType : Type :=
| fps23976 | fps24 | fps25 | fps2997 | fps30 | fps2997drop | fps30drop
| fps60 | fps60drop | fps47952 | fps48 | fps50 | fps5994 | fps5994drop
| fps100 | fps11988 | fps11988drop | fps120 | fps120drop | fpsUnknown.

(** The enumerators' values. *)
Definition frameRateValue (f : FrameRateType) : Z :=
  match f with
  | fps23976 => 0 | fps24 => 1 | fps25 => 2 | fps2997 => 3 | fps30 => 4
  | fps2997drop => 5 | fps30drop => 6 | fps60 => 7 | fps60drop => 8
  | fps47952 => 9 | fps48 => 10 | fps50 => 11 | fps5994 => 12
  | fps5994drop => 13 | fps100 => 16 | fps11988 => 17 | fps11988drop => 18
  | fps120 => 19 | fps120drop => 20 | fpsUnknown => 99
  end.

Record CurrentPositionInfo : Type := {
  bpm : float;
  timeSigNumerator : Z;
  timeSigDenominator : Z;
  timeInSamples : Z;                 (* int64 *)
  timeInSeconds : float;
  editOriginTime : float;
  continuousTimeInSamples : Z;       (* int64 *)
  ppqPosition : float;
  ppqPositionOfLastBarStart : float;
  frameRate : FrameRateType;
  isPlaying : bool;
  isRecording : bool;
  ppqLoopStart : float;
  ppqLoopEnd : float;
  isLooping : bool;
  isContinuousValid : bool
}.

(** [operator==]. *)
Definition equals (a other : CurrentPositionInfo) : bool :=
  (timeInSamples a =? timeInSamples other)
  && PrimFloat.eqb (ppqPosition a) (ppqPosition other)
  && PrimFloat.eqb (editOriginTime a) (editOriginTime other)
  && PrimFloat.eqb (ppqPositionOfLastBarStart a) (ppqPositionOfLastBarStart other)
  && (frameRateValue (frameRate a) =? frameRateValue (frameRate other))
  && Bool.eqb (isPlaying a) (isPlaying other)
  && Bool.eqb (isRecording a) (isRecording other)
  && PrimFloat.eqb (bpm a) (bpm other)
  && (timeSigNumerator a =? timeSigNumerator other)
  && (timeSigDenominator a =? timeSigDenominator other)
  && PrimFloat.eqb (ppqLoopStart a) (ppqLoopStart other)
  && PrimFloat.eqb (ppqLoopEnd a) (ppqLoopEnd other)
  && Bool.eqb (isLooping a) (isLooping other).

(** [operator!=]. *)
Definition differs (a other : CurrentPositionInfo) : bool := negb (equals a other).

(** [resetToDefault]: [zerostruct] clears every byte of the structure (the
    frame rate becomes the enumerator of value 0), then three fields are
    set. *)
Definition resetToDefault (a : CurrentPositionInfo) : CurrentPositionInfo :=
  {| bpm := 120%float;
     timeSigNumerator := 4;
     timeSigDenominator := 4;
     timeInSamples := 0;
     timeInSeconds := 0%float;
     editOriginTime := 0%float;
     continuousTimeInSamples := 0;
     ppqPosition := 0%float;
     ppqPositionOfLastBarStart := 0%float;
     frameRate := fps23976;
     isPlaying := false;
     isRecording := false;
     ppqLoopStart := 0%float;
     ppqLoopEnd := 0%float;
     isLooping := false;
     isContinuousValid := false |}.

End AudioPlayHead.

(** ** DocumentView (ARASampleProject) *)

Module DocumentView.

(** [rebuildRegionSequenceViews], up to the final [resized()]: the list of
    views is cleared, then the document's region sequences are visited in
    order and a view is added for each sequence to show.  A view is
    identified with its sequence; [contains] is [ARA::contains]. *)
Definition contains (l : list nat) (x : nat) : bool := bool_decide (x ∈ l).

Definition visitSequence (showOnlySelectedRegionSequence : bool)
           (hidden selected : list nat) (views : list nat) (regionSequence : nat)
  : list nat :=
  if negb showOnlySelectedRegionSequence && negb (contains hidden regionSequence)
  then views ++ [regionSequence]
  else if contains selected regionSequence
       then views ++ [regionSequence]
       else views.

Definition rebuildRegionSequenceViews (showOnlySelectedRegionSequence : bool)
           (hidden selected regionSequences : list nat) : list nat :=
  foldl (visitSequence showOnlySelectedRegionSequence hidden selected) [] regionSequences.

End DocumentView.

(** * Specification vocabulary and sample data *)

Module SourceReaderSpec.
Import SourceReader.

(** The byte counts of the call fit an [int]. *)
Definition fits (r : ARAAudioSourceReader) (frames : Z) : Prop :=
  0 <= frames < 2 ^ 31 /\ 0 <= bitsPerSample r / 8 * frames < 2 ^ 31.

(** The bytes the zero-filling loop over the channels [idx] reaches. *)
Definition covered (destSamples : list (option ptr)) (bufferOffset destSize : Z)
           (idx : list nat) (b : block) (k : Z) : bool :=
  existsb (fun i => match destSamples !! i with
                    | Some (Some p) => in_span (ptr_add p bufferOffset) destSize b k
                    | _ => false
                    end) idx.

(** Every non-null buffer among the first [numDestChannels] holds zeros
    over the frames [[off, off + n)] (of [bpf] bytes each), and no other
    byte of memory has changed. *)
Definition zero_filled (bpf : Z) (destSamples : list (option ptr))
           (numDestChannels off n : Z) (m m' : mem) : Prop :=
  (forall (i : nat) (p : ptr) (j : Z),
      Z.of_nat i < numDestChannels -> destSamples !! i = Some (Some p) ->
      bpf * off <= j < bpf * (off + n) ->
      bytes m' p.1 (p.2 + j) = Byte.x00)
  /\ (forall (b : block) (k : Z),
         (forall (i : nat) (p : ptr),
             Z.of_nat i < numDestChannels -> destSamples !! i = Some (Some p) ->
             in_span (ptr_add p (bpf * off)) (bpf * n) b k = false) ->
         bytes m' b k = bytes m b k).

(** The pointers handed to the accessor: the first loop of the success
    path of [readSamples]. *)
Definition pointChannels (r : ARAAudioSourceReader) (destSamples : list (option ptr))
           (numDestChannels off n : Z) (m : mem) : outcome (list (option ptr) * mem) :=
  for_each (seq 0 (length (tmpPtrs r)))
           (pointChannel destSamples numDestChannels (byteCount r off) (byteCount r n))
           (tmpPtrs r, m).

(** Where a pointer handed to the accessor may point: into the scratch
    buffer, or into the caller's buffer for the same channel. *)
Definition target_of (destSamples : list (option ptr)) (j : nat) (q : ptr) : Prop :=
  q.1 = Scratch \/ exists p, destSamples !! j = Some (Some p) /\ q.1 = p.1.

(** The read gets as far as the accessor: the read lock is taken and the
    accessor exists. *)
Definition reaches_accessor (r : ARAAudioSourceReader) : bool :=
  (ReadWriteLock.tryEnterRead (lock r)).1
  && match araHostReader r with Some _ => true | None => false end.

(** An accessor writes only into the buffers it is handed. *)
Definition writes_only_through (h : HostAudioReader) : Prop :=
  forall (pos count : Z) (bufs : list (option ptr)) (bs : bytes_t) (b : block) (k : Z),
    (forall q, In (Some q) bufs -> q.1 <> b) ->
    (readAudioSamples h pos count bufs bs).2 b k = bs b k.

(** The governing source reports sample access enabled and has not been
    destroyed. *)
Definition accessEnabled (a : nat) (w : World) : Prop :=
  exists s, heap w a = Some s /\ isSampleAccessEnabled s = true.

Definition hasAccessor (w : World) : Prop := is_Some (araHostReader (rdr w)).

(** Invariant I2 of the data model. *)
Definition I2 (a : nat) (w : World) : Prop := hasAccessor w <-> accessEnabled a w.

Definition anyOp (op : hostOp) : Prop := True.

(** Host operations that leave the audible signal alone: a content update
    carries the signal-unchanged flag. *)
Definition keepsSignal (kSignalUnchanged : Z) (op : hostOp) : Prop :=
  match op with
  | UpdateContent flags => Z.land flags kSignalUnchanged <> 0
  | _ => True
  end.

(** What holds of a reader between two host operations. *)
Definition settled (quiet : bool) (a : nat) (w : World) : Prop :=
  lock (rdr w) = ReadWriteLock.unlocked
  /\ match heap w a with
     | Some s =>
         audioSourceBeingRead (rdr w) = Some a
         /\ this w ∈ listeners s
         /\ (hasAccessor w -> isSampleAccessEnabled s = true)
         /\ (quiet = true -> isSampleAccessEnabled s = true -> hasAccessor w)
     | None =>
         audioSourceBeingRead (rdr w) = None /\ araHostReader (rdr w) = None
     end.

(** The reader has let go of its source. *)
Definition detached (r : ARAAudioSourceReader) : Prop :=
  audioSourceBeingRead r = None /\ araHostReader r = None.

(** The host has destroyed the source at [a]. *)
Definition sourceGone (a : nat) (w : World) : World :=
  setHeap w (store (heap w) a None).

(** A call whose arguments are in range for the reader: the byte counts fit
    and the channel array is as long as announced. *)
Definition wellFormedCall (r : ARAAudioSourceReader) (c : readerCall) : Prop :=
  match c with
  | CallReadSamples destSamples numDestChannels off _ n =>
      fits r off /\ fits r n /\ numDestChannels <= Z.of_nat (length destSamples)
  | _ => True
  end.

(** The reader is not registered with the source at [a]. *)
Definition notListening (a : nat) (w : World) : Prop :=
  forall s, heap w a = Some s -> this w ∉ listeners s.

(** *** Sample data *)

(** An accessor that stamps 0x2a over [4 * count] bytes of every buffer. *)
Definition stampHost : HostAudioReader :=
  {| readAudioSamples := fun _ count bufs bs =>
       (true,
        fun b k => if existsb (fun q => match q with
                                        | Some p => in_span p (4 * count) b k
                                        | None => false
                                        end) bufs
                   then Byte.x2a else bs b k) |}.

(** An accessor that cannot produce samples and leaves the buffers alone. *)
Definition failingHost : HostAudioReader :=
  {| readAudioSamples := fun _ _ _ bs => (false, bs) |}.

Definition sampleSource (enabled : bool) (host : HostAudioReader) : ARAAudioSource :=
  {| getSampleRate := 48000%float; getChannelCount := 2; getSampleCount := 96000;
     isSampleAccessEnabled := enabled; listeners := []; hostAccess := host |}.

(** A host with one source, at address 7. *)
Definition sampleHeap (enabled : bool) (host : HostAudioReader)
  : nat -> option ARAAudioSource :=
  store (fun _ => None) 7%nat (Some (sampleSource enabled host)).

Definition emptyWorld : World :=
  {| heap := fun _ => None; this := 0%nat;
     rdr := {| bitsPerSample := 32; usesFloatingPointData := true;
               sampleRate := 0%float; numChannels := 0; lengthInSamples := 0;
               audioSourceBeingRead := None; araHostReader := None;
               lock := ReadWriteLock.unlocked; tmpPtrs := [] |} |}.

Definition returned {A : Type} (d : A) (o : outcome A) : A :=
  match o with Returns a => a | _ => d end.

(** Reader number 1 over that source. *)
Definition sampleWorld (enabled : bool) (host : HostAudioReader) : World :=
  returned emptyWorld (construct (sampleHeap enabled host) 1%nat (Some 7%nat) false).

(** Three destination channels, the middle one absent; every byte 0xff. *)
Definition sampleDest : list (option ptr) :=
  [Some (Caller 0, 0); None; Some (Caller 1, 8)].

Definition sampleMem : mem := Mem (fun _ _ => Byte.xff) 0.

(** The sample reader after a content update that changes the signal
    (flags 0), the ARA flag constant being taken as 1. *)
Definition updatedWorld : World :=
  returned emptyWorld (hostStep 1 7%nat (UpdateContent 0) (sampleWorld true stampHost)).

(** The sample reader once its source has announced its destruction. *)
Definition orphanedWorld : World :=
  returned emptyWorld (willDestroyAudioSource (sampleWorld true stampHost)).

Definition sampleCalls : list readerCall :=
  [CallDidEnable true; CallDoUpdate 1; CallReadSamples sampleDest 3 1 0 2;
   CallReadSamples sampleDest 2 0 5 1].

End SourceReaderSpec.

Module RegionReaderSpec.
Import RegionReader.

Section Vocabulary.
Context {R : Type} `{ARAPlaybackRenderer R}.

(** The read of section 8 to compare with: the span is read by issuing, back
    to back, reads of at most the renderer's maximum block size, the
    destination offset and the file position moving on by the size of each
    read; it stops at the first read that fails.  At most [turns] reads are
    issued, each followed for at most [turns] turns of its own loop. *)
Fixpoint readInBlocks (turns : nat) (r : ARAPlaybackRegionReader R)
         (destSamples : list (option ptr))
         (numDestChannels startOffsetInDestBuffer startSampleInFile numSamples : Z)
         (m : mem) : outcome (bool * ARAPlaybackRegionReader R * mem) :=
  if numSamples <=? 0 then Returns (true, r, m)
  else match turns with
       | O => Hangs
       | S turns' =>
           let block := jmin numSamples (getMaxSamplesPerBlock (playbackRenderer r)) in
           match readSamples turns r destSamples numDestChannels
                             startOffsetInDestBuffer startSampleInFile block m with
           | Returns (true, r', m') =>
               readInBlocks turns' r' destSamples numDestChannels
                            (startOffsetInDestBuffer + block)
                            (startSampleInFile + block)
                            (numSamples - block) m'
           | other => other
           end
       end.

(** The reader and the memory after the first turn of the loop of a read of
    [n] samples, [n] being positive. *)
Definition afterTurn (r : ARAPlaybackRegionReader R) (destSamples : list (option ptr))
           (numDestChannels off pos n : Z) (m : mem)
  : ARAPlaybackRegionReader R * mem :=
  let res := processBlock {| channels := destSamples;
                             bufNumChannels := numDestChannels;
                             bufStartSample := off;
                             bufNumSamples :=
                               jmin n (getMaxSamplesPerBlock (playbackRenderer r)) |}
                          pos true (playbackRenderer r) (bytes m) in
  (setRenderer r res.1.2, Mem res.2 (scratchSize m)).

(** Rendering a block leaves the maximum block size as it is. *)
Definition keepsBlockSize : Prop :=
  forall buffer t playing rs bs,
    getMaxSamplesPerBlock (processBlock buffer t playing rs bs).1.2
    = getMaxSamplesPerBlock rs.

(** The second half of C5 as it is stated: a renderer that reports it could
    not produce samples makes the read return false. *)
Definition propagatesRendererFailure : Prop :=
  forall turns (r : ARAPlaybackRegionReader R) destSamples numDestChannels off pos n m
         ok r' m',
    (forall buffer t playing rs bs, (processBlock buffer t playing rs bs).1.1 = false) ->
    0 < n ->
    readSamples turns r destSamples numDestChannels off pos n m = Returns (ok, r', m') ->
    ok = false.

End Vocabulary.

(** The aggregate format of section 8, for a non-empty list of regions: the
    largest channel count and the largest end position at a rate. *)
Definition maxChannelCount (first : ARAPlaybackRegion) (others : list ARAPlaybackRegion)
  : Z :=
  foldl Z.max (sourceChannelCount first) (map sourceChannelCount others).

Definition maxEnd (rate : float) (first : ARAPlaybackRegion)
           (others : list ARAPlaybackRegion) : Z :=
  foldl Z.max (getEndInPlaybackSamples first rate)
        (map (fun p => getEndInPlaybackSamples p rate) others).

(** A region's source yields a sample rate when the rate is not zero. *)
Definition yieldsRate (p : ARAPlaybackRegion) : bool :=
  negb (PrimFloat.eqb (sourceSampleRate p) 0%float).

(** [a] occurs in [l], and [b] after its first occurrence. *)
Fixpoint occursBefore (a b : call) (l : list call) : bool :=
  match l with
  | [] => false
  | c :: rest => if decide (c = a) then bool_decide (b ∈ rest)
                 else occursBefore a b rest
  end.

(** *** Sample data *)

(** A renderer that counts the blocks it renders and stamps 0x2a over the
    samples of each block, in every channel. *)
Record StampRenderer : Type := {
  stampRegions : list nat;
  stampMaxBlock : Z;
  stampPrepared : bool;
  stampBlocks : Z
}.

#[global] Instance stampRenderer : ARAPlaybackRenderer StampRenderer := {|
  addPlaybackRegion p rs :=
    {| stampRegions := stampRegions rs ++ [p]; stampMaxBlock := stampMaxBlock rs;
       stampPrepared := stampPrepared rs; stampBlocks := stampBlocks rs |};
  removePlaybackRegion p rs :=
    {| stampRegions := filter (fun x => x <> p) (stampRegions rs);
       stampMaxBlock := stampMaxBlock rs;
       stampPrepared := stampPrepared rs; stampBlocks := stampBlocks rs |};
  getPlaybackRegions rs := stampRegions rs;
  prepareToPlay _ maxBlock rs :=
    {| stampRegions := stampRegions rs; stampMaxBlock := maxBlock;
       stampPrepared := true; stampBlocks := stampBlocks rs |};
  releaseResources rs :=
    {| stampRegions := stampRegions rs; stampMaxBlock := stampMaxBlock rs;
       stampPrepared := false; stampBlocks := stampBlocks rs |};
  getMaxSamplesPerBlock rs := stampMaxBlock rs;
  processBlock buffer _ _ rs bs :=
    (true,
     {| stampRegions := stampRegions rs; stampMaxBlock := stampMaxBlock rs;
        stampPrepared := stampPrepared rs; stampBlocks := stampBlocks rs + 1 |},
     fun b k =>
       if existsb (fun q => match q with
                            | Some p => in_span (ptr_add p (4 * bufStartSample buffer))
                                                (4 * bufNumSamples buffer) b k
                            | None => false
                            end)
                  (take (Z.to_nat (bufNumChannels buffer)) (channels buffer))
       then Byte.x2a else bs b k)
|}.

(** A renderer that reports, for every block, that it could not produce
    samples. *)
Inductive MuteRenderer : Type := Mute.

#[global] Instance muteRenderer : ARAPlaybackRenderer MuteRenderer := {|
  addPlaybackRegion _ rs := rs;
  removePlaybackRegion _ rs := rs;
  getPlaybackRegions _ := [];
  prepareToPlay _ _ rs := rs;
  releaseResources rs := rs;
  getMaxSamplesPerBlock _ := 16 * 1024;
  processBlock _ _ _ rs bs := (false, rs, bs)
|}.

Definition freshStamp : StampRenderer :=
  {| stampRegions := []; stampMaxBlock := 0; stampPrepared := false; stampBlocks := 0 |}.

(** The region of the scenario of section 8: a source at 48000 Hz with two
    channels, the region ending two seconds into the timeline. *)
Definition regionA : ARAPlaybackRegion :=
  {| regionId := 5; sourceSampleRate := 48000%float; sourceChannelCount := 2;
     getEndInPlaybackSamples := fun rate =>
       if PrimFloat.eqb rate 48000%float then 96000
       else if PrimFloat.eqb rate 44100%float then 88200 else 0 |}.

(** A mono region over a 44100 Hz source, ending three seconds in. *)
Definition regionB : ARAPlaybackRegion :=
  {| regionId := 6; sourceSampleRate := 44100%float; sourceChannelCount := 1;
     getEndInPlaybackSamples := fun rate =>
       if PrimFloat.eqb rate 48000%float then 144000
       else if PrimFloat.eqb rate 44100%float then 132300 else 0 |}.

(** A region that ends before the start of the timeline. *)
Definition earlyRegion : ARAPlaybackRegion :=
  {| regionId := 8; sourceSampleRate := 48000%float; sourceChannelCount := 2;
     getEndInPlaybackSamples := fun _ => -100 |}.

Definition sampleReader : ARAPlaybackRegionReader StampRenderer :=
  construct freshStamp [regionA; regionB].

(** The same reader while a writer holds its lock. *)
Definition heldReader : ARAPlaybackRegionReader StampRenderer :=
  setLock sampleReader (ReadWriteLock.Make 0 true).

Definition muteReader : ARAPlaybackRegionReader MuteRenderer :=
  construct Mute [regionA].


(** A renderer that has no block size to report until it has been asked for
    a first block: rendering a block sets the size to 16. *)
Inductive WarmingRenderer : Type := Cold | Warm.

#[global] Instance warmingRenderer : ARAPlaybackRenderer WarmingRenderer := {|
  addPlaybackRegion _ rs := rs;
  removePlaybackRegion _ rs := rs;
  getPlaybackRegions _ := [];
  prepareToPlay _ _ rs := rs;
  releaseResources rs := rs;
  getMaxSamplesPerBlock rs := match rs with Cold => 0 | Warm => 16 end;
  processBlock _ _ _ _ bs := (true, Warm, bs)
|}.


Definition stereoDest : list (option ptr) := [Some (Caller 0, 0); Some (Caller 1, 0)].

Definition ffMem : mem := Mem (fun _ _ => Byte.xff) 0.

End RegionReaderSpec.

Module SequenceReaderSpec.
Import SequenceReader.

(** The calls a handler has added to the reader's record of calls. *)
Definition newCalls {R : Type} (before after : ARARegionSequenceReader R)
  : list RegionReader.call :=
  drop (length (RegionReader.calls (base before))) (RegionReader.calls (base after)).

(** *** Sample data *)

(** A host with one sequence, at address 3. *)
Definition sequenceOf (regions : list RegionReader.ARAPlaybackRegion)
  : nat -> option ARARegionSequence :=
  fun a => if decide (a = 3%nat) then Some {| getPlaybackRegions := regions |} else None.

Definition noReader : ARARegionSequenceReader RegionReaderSpec.StampRenderer :=
  {| base := RegionReader.construct RegionReaderSpec.freshStamp []; sequence := None |}.

(** A reader made while the sequence holds [regionA] only. *)
Definition sampleSequenceReader : ARARegionSequenceReader RegionReaderSpec.StampRenderer :=
  SourceReaderSpec.returned noReader
    (construct (sequenceOf [RegionReaderSpec.regionA]) RegionReaderSpec.freshStamp
               (Some 3%nat)).

End SequenceReaderSpec.

(** * Further vocabulary *)

Module SourceReaderMoreSpec.
Import SourceReader SourceReaderSpec.

(** Slot [j] of [tmpPtrs] is pointed at the caller's buffer: the caller
    supplies channel [j] and its buffer is not null. *)
Definition takesCaller (destSamples : list (option ptr)) (numDestChannels : Z) (j : nat)
  : bool :=
  (Z.of_nat j <? numDestChannels)
  && match destSamples !! j with Some (Some _) => true | _ => false end.

(** Where slot [j] points after the first loop of the success path, [dummy]
    being what [dummyBuffer.get().data()] gives. *)
Definition expectedSlot (destSamples : list (option ptr)) (numDestChannels bufferOffset : Z)
           (dummy : option ptr) (j : nat) : option ptr :=
  if Z.of_nat j <? numDestChannels then
    match destSamples !! j with
    | Some (Some p) => Some (ptr_add p bufferOffset)
    | _ => dummy
    end
  else dummy.

(** The scratch buffer once a slot has been pointed at it. *)
Definition growScratch (destSize : Z) (m : mem) : mem :=
  if scratchSize m <? destSize then resizeScratch destSize m else m.

(** Some slot among the first [slots] is pointed at the scratch buffer. *)
Definition anyDummy (destSamples : list (option ptr)) (numDestChannels : Z) (slots : nat)
  : bool :=
  existsb (fun j => negb (takesCaller destSamples numDestChannels j)) (seq 0 slots).

(** The slots after the loop has gone over the indices [idx]. *)
Definition pointAll (destSamples : list (option ptr)) (numDestChannels bo : Z)
           (dummy : option ptr) (idx : list nat) (tmp : list (option ptr))
  : list (option ptr) :=
  foldl (fun t i => <[i := expectedSlot destSamples numDestChannels bo dummy i]> t)
        tmp idx.

Definition isRead (c : readerCall) : Prop :=
  match c with CallReadSamples _ _ _ _ _ => True | _ => False end.

(** The channel array of a read is as long as announced. *)
Definition longEnough (c : readerCall) : Prop :=
  match c with
  | CallReadSamples destSamples numDestChannels _ _ _ =>
      numDestChannels <= Z.of_nat (length destSamples)
  | _ => True
  end.

(** Sample data: two reads, the second of a single channel. *)
Definition sampleReads : list readerCall :=
  [CallReadSamples sampleDest 3 1 0 2; CallReadSamples sampleDest 1 0 7 3].

End SourceReaderMoreSpec.

Module RegionReaderMoreSpec.
Import RegionReader RegionReaderSpec.

(** The rate of the first region whose source yields one, 44100 when none
    does. *)
Definition firstRate (regions : list ARAPlaybackRegion) : float :=
  match List.find yieldsRate regions with
  | Some p => sourceSampleRate p
  | None => 44100%float
  end.

(** The sizes of the blocks a span of [n] samples is cut into when no block
    may exceed [maxBlock]: full blocks, then the rest. *)
Definition blockSizes (maxBlock n : Z) : list Z :=
  if n <=? 0 then []
  else replicate (Z.to_nat (n / maxBlock)) maxBlock
       ++ (if n mod maxBlock =? 0 then [] else [n mod maxBlock]).

(** The blocks laid end to end from a destination offset and a file
    position: offset, position and size of each. *)
Fixpoint layout (off pos : Z) (sizes : list Z) : list (Z * Z * Z) :=
  match sizes with
  | [] => []
  | k :: rest => (off, pos, k) :: layout (off + k) (pos + k) rest
  end.

Definition sumZ (l : list Z) : Z := foldr Z.add 0 l.

(** The bytes the clearing loop of the contended path reaches. *)
Definition clearedFromStart (destSamples : list (option ptr)) (numSamples : Z)
           (idx : list nat) (b : block) (k : Z) : bool :=
  existsb (fun i => match destSamples !! i with
                    | Some (Some p) => in_span p (4 * numSamples) b k
                    | _ => false
                    end) idx.


Section Vocabulary.
Context {R : Type} `{ARAPlaybackRenderer R}.

(** The regions added to a renderer one after the other. *)
Definition addAll (renderer : R) (regions : list ARAPlaybackRegion) : R :=
  foldl (fun rs p => addPlaybackRegion (regionId p) rs) renderer regions.

(** One call of [processBlock] for a block of the layout. *)
Definition renderBlock (destSamples : list (option ptr)) (numDestChannels : Z)
           (st : R * bytes_t) (blk : Z * Z * Z) : R * bytes_t :=
  let res := processBlock {| channels := destSamples;
                             bufNumChannels := numDestChannels;
                             bufStartSample := blk.1.1;
                             bufNumSamples := blk.2 |}
                          blk.1.2 true st.1 st.2 in
  (res.1.2, res.2).

(** What is asked of a renderer as to its set of regions: adding and
    removing do what they say, nothing else changes the set. *)
Class KeepsRegions : Prop := {
  regions_add : forall p rs x,
      x ∈ getPlaybackRegions (addPlaybackRegion p rs)
      <-> x = p \/ x ∈ getPlaybackRegions rs;
  regions_remove : forall p rs x,
      x ∈ getPlaybackRegions (removePlaybackRegion p rs)
      <-> x <> p /\ x ∈ getPlaybackRegions rs;
  regions_release : forall rs,
      getPlaybackRegions (releaseResources rs) = getPlaybackRegions rs;
  regions_prepare : forall rate maxBlock rs,
      getPlaybackRegions (prepareToPlay rate maxBlock rs) = getPlaybackRegions rs;
  regions_process : forall buffer t playing rs bs,
      getPlaybackRegions (processBlock buffer t playing rs bs).1.2
      = getPlaybackRegions rs
}.

(** The reader listens to exactly the regions its renderer holds. *)
Definition regionsAgree (r : ARAPlaybackRegionReader R) : Prop :=
  forall x, x ∈ listening r <-> x ∈ getPlaybackRegions (playbackRenderer r).

End Vocabulary.
Arguments KeepsRegions R {_}.

End RegionReaderMoreSpec.

Module SequenceReaderMoreSpec.
Import SequenceReader.

Section Vocabulary.
Context {R : Type} `{RegionReader.ARAPlaybackRenderer R}.

(** What can reach a region sequence reader once it is constructed: the
    notifications it listens for, with the host's sequences as they are
    then, and reads. *)
Inductive event : Type :=
| RegionDestroyed (p : nat)
| RegionAdded (seqs : nat -> option ARARegionSequence)
              (region : RegionReader.ARAPlaybackRegion)
| RegionRemoved (seqs : nat -> option ARARegionSequence)
                (region : RegionReader.ARAPlaybackRegion)
| SequenceDestroyed (seqs : nat -> option ARARegionSequence)
| Read (turns : nat) (destSamples : list (option ptr))
       (numDestChannels startOffsetInDestBuffer startSampleInFile numSamples : Z)
       (m : mem).

Definition withBase (r : ARARegionSequenceReader R)
           (b : RegionReader.ARAPlaybackRegionReader R) : ARARegionSequenceReader R :=
  {| base := b; sequence := sequence r |}.

Definition deliver (e : event) (r : ARARegionSequenceReader R)
  : outcome (ARARegionSequenceReader R) :=
  match e with
  | RegionDestroyed p =>
      match RegionReader.willDestroyPlaybackRegion p (base r) with
      | Returns b => Returns (withBase r b)
      | Undefined => Undefined
      | Hangs => Hangs
      end
  | RegionAdded seqs region => didAddPlaybackRegionToRegionSequence seqs region r
  | RegionRemoved seqs region => willRemovePlaybackRegionFromRegionSequence seqs region r
  | SequenceDestroyed seqs => willDestroyRegionSequence seqs r
  | Read turns destSamples numDestChannels off pos n m =>
      match RegionReader.readSamples turns (base r) destSamples numDestChannels
                                     off pos n m with
      | Returns res => Returns (withBase r res.1.2)
      | Undefined => Undefined
      | Hangs => Hangs
      end
  end.

(** The readers that come out of the constructor, given [renderer], and of
    any events after it. *)
Inductive reached (renderer : R) : ARARegionSequenceReader R -> Prop :=
| reached_construct (seqs : nat -> option ARARegionSequence) (regionSequence : option nat)
                    (r : ARARegionSequenceReader R) :
    construct seqs renderer regionSequence = Returns r -> reached renderer r
| reached_deliver (r r' : ARARegionSequenceReader R) (e : event) :
    reached renderer r -> deliver e r = Returns r' -> reached renderer r'.

End Vocabulary.

(** Sample data: the host's sequence once [regionB] has joined [regionA],
    and the sample reader after the notification of it. *)
Definition grownSequence : nat -> option ARARegionSequence :=
  SequenceReaderSpec.sequenceOf [RegionReaderSpec.regionA; RegionReaderSpec.regionB].

Definition grownSequenceReader : ARARegionSequenceReader RegionReaderSpec.StampRenderer :=
  SourceReaderSpec.returned SequenceReaderSpec.noReader
    (deliver (RegionAdded grownSequence RegionReaderSpec.regionB)
             SequenceReaderSpec.sampleSequenceReader).

End SequenceReaderMoreSpec.

Module ViewsSpec.

(** A region sequence is to be shown: all sequences are shown and it is not
    hidden, or it is selected. *)
Definition shown (showOnlySelectedRegionSequence : bool) (hidden selected : list nat)
           (regionSequence : nat) : bool :=
  (negb showOnlySelectedRegionSequence && negb (DocumentView.contains hidden regionSequence))
  || DocumentView.contains selected regionSequence.

(** A position info with the three fields [operator==] leaves out set. *)
Definition withUncompared (a : AudioPlayHead.CurrentPositionInfo)
           (seconds : float) (continuous : Z) (valid : bool)
  : AudioPlayHead.CurrentPositionInfo :=
  {| AudioPlayHead.bpm := AudioPlayHead.bpm a;
     AudioPlayHead.timeSigNumerator := AudioPlayHead.timeSigNumerator a;
     AudioPlayHead.timeSigDenominator := AudioPlayHead.timeSigDenominator a;
     AudioPlayHead.timeInSamples := AudioPlayHead.timeInSamples a;
     AudioPlayHead.timeInSeconds := seconds;
     AudioPlayHead.editOriginTime := AudioPlayHead.editOriginTime a;
     AudioPlayHead.continuousTimeInSamples := continuous;
     AudioPlayHead.ppqPosition := AudioPlayHead.ppqPosition a;
     AudioPlayHead.ppqPositionOfLastBarStart := AudioPlayHead.ppqPositionOfLastBarStart a;
     AudioPlayHead.frameRate := AudioPlayHead.frameRate a;
     AudioPlayHead.isPlaying := AudioPlayHead.isPlaying a;
     AudioPlayHead.isRecording := AudioPlayHead.isRecording a;
     AudioPlayHead.ppqLoopStart := AudioPlayHead.ppqLoopStart a;
     AudioPlayHead.ppqLoopEnd := AudioPlayHead.ppqLoopEnd a;
     AudioPlayHead.isLooping := AudioPlayHead.isLooping a;
     AudioPlayHead.isContinuousValid := valid |}.

(** Sample data: the transport stopped at the start of a 4/4 timeline at
    120 bpm, as a host reporting 25 frames per second gives it. *)
Definition stoppedAtStart : AudioPlayHead.CurrentPositionInfo :=
  {| AudioPlayHead.bpm := 120%float;
     AudioPlayHead.timeSigNumerator := 4;
     AudioPlayHead.timeSigDenominator := 4;
     AudioPlayHead.timeInSamples := 0;
     AudioPlayHead.timeInSeconds := 0%float;
     AudioPlayHead.editOriginTime := 0%float;
     AudioPlayHead.continuousTimeInSamples := 0;
     AudioPlayHead.ppqPosition := 0%float;
     AudioPlayHead.ppqPositionOfLastBarStart := 0%float;
     AudioPlayHead.frameRate := AudioPlayHead.fps25;
     AudioPlayHead.isPlaying := false;
     AudioPlayHead.isRecording := false;
     AudioPlayHead.ppqLoopStart := 0%float;
     AudioPlayHead.ppqLoopEnd := 4%float;
     AudioPlayHead.isLooping := false;
     AudioPlayHead.isContinuousValid := false |}.

End ViewsSpec.

(** * Properties *)

(** Closed bounds, by evaluation. *)
Ltac by_evaluation := vm_compute; intuition discriminate.

(** ** Machine integers and memory *)

Lemma to_int32_uint32_small (x : Z) : 0 <= x < 2 ^ 31 -> to_int32 (to_uint32 x) = x.
Proof.
  intros Hx. unfold to_int32, to_uint32.
  rewrite (Z.mod_small x) by lia.
  rewrite Z.mod_small by lia. lia.
Qed.

Lemma to_uint32_small (x : Z) : 0 <= x < 2 ^ 32 -> to_uint32 x = x.
Proof. intros Hx. unfold to_uint32. apply Z.mod_small. lia. Qed.

Lemma for_each_app {S : Type} (xs ys : list nat) (body : nat -> S -> outcome S) (s : S) :
  for_each (xs ++ ys) body s = (s' ← for_each xs body s; for_each ys body s').
Proof.
  revert s. induction xs as [|x xs IH]; intros s; simpl; [reflexivity|].
  destruct (body x s); simpl; auto.
Qed.

Lemma in_span_true (p : ptr) (len : Z) (b : block) (k : Z) :
  in_span p len b k = true <-> b = p.1 /\ p.2 <= k < p.2 + len.
Proof.
  unfold in_span. rewrite !andb_true_iff, bool_decide_eq_true.
  rewrite Z.leb_le, Z.ltb_lt. tauto.
Qed.

Module SourceReaderFacts.
Import SourceReader SourceReaderSpec.


Lemma byteCount_fits (r : ARAAudioSourceReader) (frames : Z) :
  fits r frames -> byteCount r frames = bitsPerSample r / 8 * frames.
Proof.
  intros [Hf Hb]. unfold byteCount.
  rewrite (to_uint32_small frames) by lia.
  apply to_int32_uint32_small. exact Hb.
Qed.


Lemma zeroChannels_spec (destSamples : list (option ptr)) (bufferOffset destSize : Z)
      (idx : list nat) (m : mem) :
  0 <= destSize ->
  (forall i, In i idx -> (i < length destSamples)%nat) ->
  exists m',
    for_each idx (zeroChannel destSamples bufferOffset destSize) m = Returns m'
    /\ scratchSize m' = scratchSize m
    /\ forall b k, bytes m' b k =
                   if covered destSamples bufferOffset destSize idx b k
                   then Byte.x00 else bytes m b k.
Proof.
  intros Hsz. revert m. induction idx as [|i idx IH]; intros m Hin.
  - exists m. simpl. auto.
  - assert (Hi : (i < length destSamples)%nat) by (apply Hin; left; reflexivity).
    destruct (lookup_lt_is_Some_2 destSamples i Hi) as [q Hq].
    assert (Hstep : exists m1,
               zeroChannel destSamples bufferOffset destSize i m = Returns m1
               /\ scratchSize m1 = scratchSize m
               /\ forall b k, bytes m1 b k =
                              if match q with
                                 | Some p => in_span (ptr_add p bufferOffset) destSize b k
                                 | None => false
                                 end then Byte.x00 else bytes m b k).
    { unfold zeroChannel. rewrite Hq. destruct q as [p|].
      - unfold zeromem. destruct (destSize <? 0) eqn:E; [apply Z.ltb_lt in E; lia|].
        eexists. split; [reflexivity|]. simpl. split; [reflexivity|].
        intros b k. reflexivity.
      - exists m. auto. }
    destruct Hstep as (m1 & Hm1 & Hs1 & Hb1).
    destruct (IH m1) as (m' & Hm' & Hs' & Hb').
    { intros j Hj. apply Hin. right. exact Hj. }
    exists m'. simpl. rewrite Hm1. simpl. split; [exact Hm'|].
    split; [congruence|].
    intros b k. rewrite Hb', Hb1. unfold covered. simpl. rewrite Hq.
    fold (covered destSamples bufferOffset destSize idx b k).
    destruct q as [p|]; simpl.
    + destruct (in_span (ptr_add p bufferOffset) destSize b k); simpl;
        destruct (covered destSamples bufferOffset destSize idx b k); reflexivity.
    + reflexivity.
Qed.

Lemma covered_true (destSamples : list (option ptr)) (bufferOffset destSize : Z)
      (idx : list nat) (b : block) (k : Z) :
  covered destSamples bufferOffset destSize idx b k = true <->
  exists i p, In i idx /\ destSamples !! i = Some (Some p)
              /\ in_span (ptr_add p bufferOffset) destSize b k = true.
Proof.
  unfold covered. rewrite existsb_exists. split.
  - intros (i & Hi & Hc). destruct (destSamples !! i) as [[p|]|] eqn:E; try discriminate.
    exists i, p. auto.
  - intros (i & p & Hi & Hl & Hc). exists i. split; [exact Hi|]. rewrite Hl. exact Hc.
Qed.

Lemma In_indices (n : Z) (i : nat) : In i (indices n) <-> Z.of_nat i < n.
Proof. unfold indices. rewrite in_seq. lia. Qed.


Lemma failure_path (r : ARAAudioSourceReader) (destSamples : list (option ptr))
      (numDestChannels off pos n : Z) (m : mem) :
  fits r off -> fits r n ->
  numDestChannels <= Z.of_nat (length destSamples) ->
  (ReadWriteLock.tryEnterRead (lock r)).1 = false \/ araHostReader r = None ->
  exists m',
    readSamples r destSamples numDestChannels off pos n m
    = Returns (false, setLock r (ReadWriteLock.tryEnterRead (lock r)).2, m')
    /\ scratchSize m' = scratchSize m
    /\ zero_filled (bitsPerSample r / 8) destSamples numDestChannels off n m m'.
Proof.
  intros Hoff Hn Hlen Hfail.
  pose proof (byteCount_fits r off Hoff) as Eo.
  pose proof (byteCount_fits r n Hn) as En.
  destruct (zeroChannels_spec destSamples (byteCount r off) (byteCount r n)
              (indices numDestChannels) m) as (m' & Hm' & Hs' & Hb').
  { rewrite En. destruct Hn. lia. }
  { intros i Hi. apply In_indices in Hi. lia. }
  exists m'. split; [|split; [exact Hs'|]].
  - unfold readSamples.
    destruct Hfail as [Hl|Hh].
    + rewrite Hl. rewrite Hm'. reflexivity.
    + rewrite Hh. destruct (ReadWriteLock.tryEnterRead (lock r)).1; rewrite Hm'; reflexivity.
  - rewrite Eo, En in Hb'. split.
    + intros i p j Hi Hp Hj. rewrite Hb'.
      replace (covered _ _ _ _ _ _) with true; [reflexivity|].
      symmetry. apply covered_true. exists i, p.
      split; [apply In_indices; exact Hi|]. split; [exact Hp|].
      apply in_span_true. simpl. split; [reflexivity|]. lia.
    + intros b k Hout. rewrite Hb'.
      destruct (covered _ _ _ _ _ _) eqn:E; [|reflexivity].
      apply covered_true in E. destruct E as (i & p & Hi & Hp & Hc).
      apply In_indices in Hi. rewrite (Hout i p Hi Hp) in Hc. discriminate.
Qed.

(** The success path. *)

Lemma resizeScratch_other (n : Z) (m : mem) (b : block) (k : Z) :
  b <> Scratch -> bytes (resizeScratch n m) b k = bytes m b k.
Proof.
  intros Hb. unfold resizeScratch, zero_bytes, in_span. simpl.
  rewrite bool_decide_eq_false_2 by exact Hb. reflexivity.
Qed.

Lemma pointChannel_step (destSamples : list (option ptr)) (numDestChannels bo ds : Z)
      (i : nat) (tmp : list (option ptr)) (m : mem) :
  numDestChannels <= Z.of_nat (length destSamples) ->
  exists q m',
    pointChannel destSamples numDestChannels bo ds i (tmp, m)
    = Returns (<[i := q]> tmp, m')
    /\ (forall b k, b <> Scratch -> bytes m' b k = bytes m b k)
    /\ (forall q0, q = Some q0 ->
                   q0.1 = Scratch
                   \/ exists p, destSamples !! i = Some (Some p) /\ q0.1 = p.1).
Proof.
  intros Hlen.
  assert (Hdummy : exists d m',
             useDummy ds i (tmp, m) = (<[i := d]> tmp, m')
             /\ (forall b k, b <> Scratch -> bytes m' b k = bytes m b k)
             /\ (forall q0, d = Some q0 -> q0.1 = Scratch)).
  { assert (Hd : forall m0 q0, scratchData m0 = Some q0 -> q0.1 = Scratch).
    { intros m0 q0. unfold scratchData. destruct (0 <? scratchSize m0); [|discriminate].
      intros [= <-]. reflexivity. }
    unfold useDummy. simpl. destruct (scratchSize m <? ds).
    - eexists _, _. split; [reflexivity|]. split; [|apply Hd].
      intros b k Hb. apply resizeScratch_other, Hb.
    - eexists _, _. split; [reflexivity|]. split; [auto|apply Hd]. }
  destruct Hdummy as (d & md & Hd & Hdb & Hds).
  unfold pointChannel. destruct (Z.of_nat i <? numDestChannels) eqn:E.
  - apply Z.ltb_lt in E.
    destruct (lookup_lt_is_Some_2 destSamples i ltac:(lia)) as [[p|] Hq]; rewrite Hq.
    + exists (Some (ptr_add p bo)), m. simpl. split; [reflexivity|]. split; [auto|].
      intros q0 [= <-]. right. exists p. auto.
    + exists d, md. rewrite Hd. split; [reflexivity|]. split; [exact Hdb|].
      intros q0 Hq0. left. apply (Hds q0 Hq0).
  - exists d, md. rewrite Hd. split; [reflexivity|]. split; [exact Hdb|].
    intros q0 Hq0. left. apply (Hds q0 Hq0).
Qed.

Lemma pointChannel_loop (destSamples : list (option ptr)) (numDestChannels bo ds : Z)
      (idx : list nat) (tmp : list (option ptr)) (m : mem) :
  numDestChannels <= Z.of_nat (length destSamples) ->
  exists tmp' m',
    for_each idx (pointChannel destSamples numDestChannels bo ds) (tmp, m)
    = Returns (tmp', m')
    /\ length tmp' = length tmp
    /\ (forall b k, b <> Scratch -> bytes m' b k = bytes m b k)
    /\ (forall j q, tmp' !! j = Some (Some q) ->
                    target_of destSamples j q
                    \/ (tmp !! j = Some (Some q) /\ ~ In j idx)).
Proof.
  intros Hlen. revert tmp m. induction idx as [|i idx IH]; intros tmp m.
  - exists tmp, m. simpl. repeat split; auto.
  - destruct (pointChannel_step destSamples numDestChannels bo ds i tmp m Hlen)
      as (q0 & m1 & Hs & Hb1 & Hq0).
    destruct (IH (<[i := q0]> tmp) m1) as (tmp' & m' & Hr & Hl & Hb & Ht).
    exists tmp', m'. simpl. rewrite Hs. simpl. split; [exact Hr|].
    split; [rewrite Hl; apply length_insert|].
    split; [intros b k Hn; rewrite Hb, Hb1; auto|].
    intros j q Hj. destruct (Ht j q Hj) as [Hok|[Hold Hni]]; [left; exact Hok|].
    apply list_lookup_insert_Some in Hold.
    destruct Hold as [(-> & Heq & _)|(Hne & Hold)].
    + left. apply Hq0. exact Heq.
    + right. split; [exact Hold|]. intros [Hi|Hi]; [congruence|contradiction].
Qed.

Lemma pointChannels_targets (r : ARAAudioSourceReader) (destSamples : list (option ptr))
      (numDestChannels off n : Z) (m : mem) :
  numDestChannels <= Z.of_nat (length destSamples) ->
  exists st,
    pointChannels r destSamples numDestChannels off n m = Returns st
    /\ length st.1 = length (tmpPtrs r)
    /\ (forall b k, b <> Scratch -> bytes st.2 b k = bytes m b k)
    /\ (forall j q, st.1 !! j = Some (Some q) ->
                    (j < length (tmpPtrs r))%nat /\ target_of destSamples j q).
Proof.
  intros Hlen. unfold pointChannels.
  destruct (pointChannel_loop destSamples numDestChannels (byteCount r off)
              (byteCount r n) (seq 0 (length (tmpPtrs r))) (tmpPtrs r) m Hlen)
    as (tmp' & m' & Hr & Hl & Hb & Ht).
  exists (tmp', m'). simpl. repeat split; auto.
  - apply lookup_lt_Some in H. lia.
  - destruct (Ht j q H) as [Hok|[Hold Hni]]; [exact Hok|].
    exfalso. apply Hni. apply in_seq. apply lookup_lt_Some in Hold. lia.
Qed.

Lemma success_path (r : ARAAudioSourceReader) (host : HostAudioReader)
      (destSamples : list (option ptr))
      (numDestChannels off pos n : Z) (m : mem) (st : list (option ptr) * mem) :
  ReadWriteLock.writerActive (lock r) = false ->
  araHostReader r = Some host ->
  pointChannels r destSamples numDestChannels off n m = Returns st ->
  readSamples r destSamples numDestChannels off pos n m
  = Returns ((readAudioSamples host pos n st.1 (bytes st.2)).1,
             setTmpPtrs r st.1,
             Mem (readAudioSamples host pos n st.1 (bytes st.2)).2 (scratchSize st.2)).
Proof.
  intros Hw Hh Hp. unfold readSamples, ReadWriteLock.tryEnterRead.
  rewrite Hw, Hh. simpl. unfold pointChannels in Hp. rewrite Hp. simpl.
  unfold ReadWriteLock.exitRead. simpl.
  destruct r as [? ? ? ? ? ? ? [nr wa] ?]. simpl in *. subst wa. reflexivity.
Qed.

(** C1: a read made while the read lock cannot be taken, or while there is
    no host accessor, returns false and leaves every non-null destination
    buffer among the [numDestChannels] supplied zeroed over exactly the
    [numSamples] frames from [startOffsetInDestBuffer] on. *)
Theorem readSamples_failure_is_silence
        (r : ARAAudioSourceReader) (destSamples : list (option ptr))
        (numDestChannels startOffsetInDestBuffer startSampleInFile numSamples : Z)
        (m : mem) :
  fits r startOffsetInDestBuffer -> fits r numSamples ->
  numDestChannels <= Z.of_nat (length destSamples) ->
  (ReadWriteLock.tryEnterRead (lock r)).1 = false \/ araHostReader r = None ->
  exists r' m',
    readSamples r destSamples numDestChannels startOffsetInDestBuffer
                startSampleInFile numSamples m = Returns (false, r', m')
    /\ zero_filled (bitsPerSample r / 8) destSamples numDestChannels
                   startOffsetInDestBuffer numSamples m m'.
Proof.
  intros Ho Hn Hl Hf.
  destruct (failure_path r destSamples numDestChannels startOffsetInDestBuffer
              startSampleInFile numSamples m Ho Hn Hl Hf) as (m' & Hr & _ & Hz).
  eauto.
Qed.

Lemma readSamples_failure_is_silence_witness :
  exists r' m',
    readSamples (rdr (sampleWorld false stampHost)) sampleDest 3 1 0 2 sampleMem
    = Returns (false, r', m')
    /\ zero_filled (bitsPerSample (rdr (sampleWorld false stampHost)) / 8)
                   sampleDest 3 1 2 sampleMem m'.
Proof.
  apply readSamples_failure_is_silence.
  - unfold fits; by_evaluation.
  - unfold fits; by_evaluation.
  - vm_compute. discriminate.
  - right. reflexivity.
Defined.

Lemma construct_channel_slots (h : nat -> option ARAAudioSource) (self : nat)
      (audioSource : option nat) (use64BitSamples : bool) (w : World) :
  construct h self audioSource use64BitSamples = Returns w ->
  Z.of_nat (length (tmpPtrs (rdr w))) = numChannels (rdr w).
Proof.
  unfold construct. destruct (deref h audioSource) as [[a s]| |] eqn:E; try discriminate.
  simpl.
  assert (Hnn : 0 <= to_uint32 (getChannelCount s))
    by (unfold to_uint32; apply Z.mod_pos_bound; lia).
  destruct (isSampleAccessEnabled s).
  - unfold recreate. simpl. destruct audioSource as [a'|]; simpl.
    + destruct (store h a (Some (addListener self s)) a'); simpl; try discriminate.
      intros [= <-]. simpl. rewrite length_replicate. lia.
    + intros [= <-]. simpl. rewrite length_replicate. lia.
  - intros [= <-]. simpl. rewrite length_replicate. lia.
Qed.

(** C9, at the inputs where it breaks: a read that takes the read lock and
    then finds no host accessor returns without releasing it.  The reader
    count has grown by one, and a writer that asks for the lock afterwards
    never gets it. *)
Theorem readSamples_without_accessor_keeps_read_lock
        (r : ARAAudioSourceReader) (destSamples : list (option ptr))
        (numDestChannels startOffsetInDestBuffer startSampleInFile numSamples : Z)
        (m : mem) :
  fits r startOffsetInDestBuffer -> fits r numSamples ->
  numDestChannels <= Z.of_nat (length destSamples) ->
  ReadWriteLock.writerActive (lock r) = false ->
  araHostReader r = None ->
  exists r' m',
    readSamples r destSamples numDestChannels startOffsetInDestBuffer
                startSampleInFile numSamples m = Returns (false, r', m')
    /\ ReadWriteLock.numReaders (lock r') = S (ReadWriteLock.numReaders (lock r))
    /\ ReadWriteLock.enterWrite (lock r') = Hangs.
Proof.
  intros Ho Hn Hl Hw Hh.
  destruct (failure_path r destSamples numDestChannels startOffsetInDestBuffer
              startSampleInFile numSamples m Ho Hn Hl (or_intror Hh))
    as (m' & Hr & _ & _).
  eexists _, m'. split; [exact Hr|].
  unfold ReadWriteLock.tryEnterRead. rewrite Hw. simpl. auto.
Qed.

Lemma readSamples_without_accessor_keeps_read_lock_witness :
  exists r' m',
    readSamples (rdr (sampleWorld false stampHost)) sampleDest 3 1 0 2 sampleMem
    = Returns (false, r', m')
    /\ ReadWriteLock.numReaders (lock r')
       = S (ReadWriteLock.numReaders (lock (rdr (sampleWorld false stampHost))))
    /\ ReadWriteLock.enterWrite (lock r') = Hangs.
Proof.
  apply readSamples_without_accessor_keeps_read_lock.
  - unfold fits; by_evaluation.
  - unfold fits; by_evaluation.
  - vm_compute. discriminate.
  - reflexivity.
  - reflexivity.
Defined.

(** When the accessor is reached the read lock is given back: the lock is
    as it was before the call. *)
Lemma readSamples_with_accessor_releases
      (r : ARAAudioSourceReader) (host : HostAudioReader)
      (destSamples : list (option ptr))
      (numDestChannels off pos n : Z) (m : mem) :
  ReadWriteLock.writerActive (lock r) = false ->
  araHostReader r = Some host ->
  numDestChannels <= Z.of_nat (length destSamples) ->
  exists ok r' m',
    readSamples r destSamples numDestChannels off pos n m = Returns (ok, r', m')
    /\ lock r' = lock r.
Proof.
  intros Hw Hh Hl.
  destruct (pointChannels_targets r destSamples numDestChannels off n m Hl)
    as (st & Hp & _).
  eexists _, _, _. split; [apply (success_path r host); eauto|]. reflexivity.
Qed.

Lemma stampHost_writes_only_through : writes_only_through stampHost.
Proof.
  intros pos count bufs bs b k Hq. simpl.
  destruct (existsb _ bufs) eqn:E; [|reflexivity].
  apply existsb_exists in E. destruct E as ([q|] & Hin & Hs); [|discriminate].
  apply in_span_true in Hs. destruct Hs as [Hb _].
  exfalso. apply (Hq q Hin). congruence.
Qed.

(** C10: with more destination channels than the reader has, a non-null
    buffer of an extra channel ends up zeroed over the requested frames when
    the read fails, and is left as it was, byte for byte, when the read gets
    as far as the accessor (the accessor writing only through the pointers
    it is handed, and the buffer not being shared with a lower channel or
    with the scratch buffer). *)
Theorem extra_channels_by_outcome
        (r : ARAAudioSourceReader) (destSamples : list (option ptr))
        (numDestChannels startOffsetInDestBuffer startSampleInFile numSamples : Z)
        (m : mem) (i : nat) (p : ptr) :
  fits r startOffsetInDestBuffer -> fits r numSamples ->
  numDestChannels <= Z.of_nat (length destSamples) ->
  Z.of_nat (length (tmpPtrs r)) = numChannels r ->
  numChannels r <= Z.of_nat i < numDestChannels ->
  destSamples !! i = Some (Some p) ->
  (forall host, araHostReader r = Some host -> writes_only_through host) ->
  p.1 <> Scratch ->
  (forall (i' : nat) (p' : ptr),
      Z.of_nat i' < numChannels r -> destSamples !! i' = Some (Some p') -> p'.1 <> p.1) ->
  exists ok r' m',
    readSamples r destSamples numDestChannels startOffsetInDestBuffer
                startSampleInFile numSamples m = Returns (ok, r', m')
    /\ if reaches_accessor r
       then forall k, bytes m' p.1 k = bytes m p.1 k
       else ok = false
            /\ forall j, bitsPerSample r / 8 * startOffsetInDestBuffer <= j
                         < bitsPerSample r / 8 * (startOffsetInDestBuffer + numSamples) ->
                         bytes m' p.1 (p.2 + j) = Byte.x00.
Proof.
  intros Ho Hn Hl Hslots Hi Hp Hhost Hscr Halias.
  unfold reaches_accessor.
  destruct (araHostReader r) as [host|] eqn:Hh;
    [destruct (ReadWriteLock.writerActive (lock r)) eqn:Hw|].
  - (* contended *)
    destruct (failure_path r destSamples numDestChannels startOffsetInDestBuffer
                startSampleInFile numSamples m Ho Hn Hl) as (m' & Hr & _ & Hz & _).
    { left. unfold ReadWriteLock.tryEnterRead. rewrite Hw. reflexivity. }
    eexists _, _, m'. split; [exact Hr|].
    unfold ReadWriteLock.tryEnterRead. rewrite Hw. simpl.
    split; [reflexivity|]. intros j Hj. apply (Hz i p j); [lia|exact Hp|exact Hj].
  - (* the accessor is reached *)
    destruct (pointChannels_targets r destSamples numDestChannels
                startOffsetInDestBuffer numSamples m Hl) as (st & Hpc & _ & Hb & Ht).
    eexists _, _, _. split; [apply (success_path r host); eauto|].
    unfold ReadWriteLock.tryEnterRead. rewrite Hw. simpl.
    intros k. rewrite (Hhost host eq_refl).
    + apply Hb, Hscr.
    + intros q Hq. apply list_elem_of_In, list_elem_of_lookup in Hq.
      destruct Hq as [j Hj]. destruct (Ht j q Hj) as [Hlt [Hs|(p' & Hp' & Hpq)]].
      * congruence.
      * rewrite Hpq. apply (Halias j p'); [lia|exact Hp'].
  - (* no accessor *)
    destruct (failure_path r destSamples numDestChannels startOffsetInDestBuffer
                startSampleInFile numSamples m Ho Hn Hl (or_intror Hh))
      as (m' & Hr & _ & Hz & _).
    eexists _, _, m'. split; [exact Hr|].
    rewrite andb_false_r.
    split; [reflexivity|]. intros j Hj. apply (Hz i p j); [lia|exact Hp|exact Hj].
Qed.

Lemma extra_channels_by_outcome_witness :
  exists ok r' m',
    readSamples (rdr (sampleWorld true stampHost)) sampleDest 3 1 0 2 sampleMem
    = Returns (ok, r', m')
    /\ if reaches_accessor (rdr (sampleWorld true stampHost))
       then forall k, bytes m' (Caller 1) k = bytes sampleMem (Caller 1) k
       else ok = false
            /\ forall j, bitsPerSample (rdr (sampleWorld true stampHost)) / 8 * 1 <= j
                         < bitsPerSample (rdr (sampleWorld true stampHost)) / 8 * (1 + 2) ->
                         bytes m' (Caller 1) (8 + j) = Byte.x00.
Proof.
  apply (extra_channels_by_outcome (rdr (sampleWorld true stampHost)) sampleDest
           3 1 0 2 sampleMem 2%nat (Caller 1, 8)).
  - unfold fits; by_evaluation.
  - unfold fits; by_evaluation.
  - vm_compute. discriminate.
  - reflexivity.
  - by_evaluation.
  - reflexivity.
  - intros host Hh. vm_compute in Hh. inversion Hh. apply stampHost_writes_only_through.
  - discriminate.
  - intros i' p' Hi' Hp'.
    change (numChannels (rdr (sampleWorld true stampHost))) with 2 in Hi'.
    destruct i' as [|[|i']]; simpl in Hp'; [| |lia].
    + inversion Hp'. discriminate.
    + discriminate.
Defined.

(** *** The life cycle *)

Lemma store_same (h : nat -> option ARAAudioSource) (a : nat) (s : option ARAAudioSource) :
  store h a s a = s.
Proof. unfold store. destruct (decide (a = a)); [reflexivity|contradiction]. Qed.

Lemma construct_settled (quiet : bool) (h : nat -> option ARAAudioSource) (self a : nat)
      (use64BitSamples : bool) (w : World) :
  construct h self (Some a) use64BitSamples = Returns w -> settled quiet a w.
Proof.
  unfold construct, deref. destruct (h a) as [s|] eqn:Hs; [|discriminate]. simpl.
  destruct (isSampleAccessEnabled s) eqn:He.
  - unfold recreate, deref. simpl. rewrite store_same. simpl.
    intros [= <-]. unfold settled, hasAccessor. simpl. rewrite store_same. simpl.
    split; [reflexivity|]. split; [reflexivity|]. split; [left|]. split; eauto.
  - intros [= <-]. unfold settled, hasAccessor. simpl. rewrite store_same. simpl.
    split; [reflexivity|]. split; [reflexivity|]. split; [left|].
    split; [intros [? [=]]|congruence].
Qed.

Lemma hostStep_settled (k : Z) (quiet : bool) (a : nat) (op : hostOp) (w w' : World) :
  (quiet = true -> keepsSignal k op) ->
  settled quiet a w ->
  hostStep k a op w = Returns w' ->
  settled quiet a w'.
Proof.
  intros Hq [Hlock Hw]. unfold hostStep.
  destruct (heap w a) as [s|] eqn:Hs.
  2:{ intros [= <-]. split; [exact Hlock|]. rewrite Hs. exact Hw. }
  destruct Hw as (Hsrc & Hlis & Hfwd & Hbwd).
  assert (Hn : isListening a w = true)
    by (unfold isListening; rewrite Hs; apply bool_decide_eq_true; exact Hlis).
  destruct op as [enable|flags|]; unfold notify; rewrite Hn.
  - (* enable or disable *)
    unfold willEnableAudioSourceSamplesAccess, enterWrite. rewrite Hlock. simpl.
    assert (Hn' : forall w1, heap w1 = heap w -> this w1 = this w ->
                             isListening a (setFlag a enable w1) = true).
    { intros w1 E1 E2. unfold isListening, setFlag. rewrite E1, Hs. simpl.
      rewrite store_same. simpl. rewrite E2. apply bool_decide_eq_true. exact Hlis. }
    destruct enable; simpl.
    + rewrite Hn' by reflexivity.
      unfold didEnableAudioSourceSamplesAccess, recreate, setFlag. simpl.
      rewrite Hs. simpl. rewrite Hsrc. simpl. rewrite store_same. simpl.
      intros [= <-]. unfold settled, hasAccessor. simpl. rewrite store_same. simpl.
      repeat split; eauto.
    + rewrite Hn' by reflexivity.
      unfold didEnableAudioSourceSamplesAccess, setFlag. simpl.
      rewrite Hs. simpl.
      intros [= <-]. unfold settled, hasAccessor. simpl. rewrite store_same. simpl.
      repeat split; eauto; try (intros [? [=]]); congruence.
  - (* content update *)
    unfold doUpdateAudioSourceContent.
    destruct (Z.land flags k =? 0) eqn:E; simpl.
    + unfold enterWrite. rewrite Hlock. simpl.
      intros [= <-]. unfold settled, hasAccessor. simpl. rewrite Hs.
      split; [reflexivity|]. split; [exact Hsrc|]. split; [exact Hlis|].
      split; [intros [? [=]]|].
      intros Hquiet. apply Z.eqb_eq in E. exfalso. exact (Hq Hquiet E).
    + intros [= <-]. split; [exact Hlock|]. rewrite Hs. auto.
  - (* destruction *)
    unfold willDestroyAudioSource, deref. rewrite Hsrc, Hs. simpl.
    unfold enterWrite. simpl. rewrite Hlock. simpl.
    intros [= <-]. unfold settled. simpl. rewrite store_same. auto.
Qed.

Lemma reachable_settled (k : Z) (quiet : bool) (allowed : hostOp -> Prop) (a : nat)
      (w : World) :
  (quiet = true -> forall op, allowed op -> keepsSignal k op) ->
  reachable k allowed a w -> settled quiet a w.
Proof.
  intros Hq Hr. induction Hr as [h self u w Hc|w w' op Hr IH Ha Hs].
  - eapply construct_settled, Hc.
  - eapply hostStep_settled; eauto.
Qed.

Lemma sampleWorld_reachable (allowed : hostOp -> Prop) (enabled : bool) :
  reachable 1 allowed 7%nat (sampleWorld enabled stampHost).
Proof.
  apply (reach_construct 1 allowed 7%nat (sampleHeap enabled stampHost) 1%nat false).
  destruct enabled; reflexivity.
Qed.

(** C3 as stated fails: after a content update that changes the signal the
    source still reports access enabled and is alive, and the reader has no
    accessor. *)
Lemma I2_broken_by_content_update :
  exists w, reachable 1 anyOp 7%nat w /\ accessEnabled 7%nat w /\ ~ hasAccessor w
            /\ ~ I2 7%nat w.
Proof.
  exists updatedWorld.
  assert (Hen : accessEnabled 7%nat updatedWorld).
  { eexists. split; reflexivity. }
  assert (Hno : ~ hasAccessor updatedWorld).
  { intros [h Hh]. vm_compute in Hh. discriminate. }
  split; [|split; [exact Hen|split; [exact Hno|]]].
  - apply (reach_step 1 anyOp 7%nat (sampleWorld true stampHost) updatedWorld
             (UpdateContent 0)).
    + apply sampleWorld_reachable.
    + exact I.
    + reflexivity.
  - intros Hi. apply Hno, Hi, Hen.
Qed.

(** C3, amended: between host operations a host accessor exists only if the
    governing source reports access enabled and has not been destroyed; the
    converse holds too as long as every content update carries the
    signal-unchanged flag. *)
Theorem I2_up_to_content_updates (kSignalUnchanged : Z) (a : nat) :
  (forall w, reachable kSignalUnchanged anyOp a w -> hasAccessor w -> accessEnabled a w)
  /\ (forall w, reachable kSignalUnchanged (keepsSignal kSignalUnchanged) a w -> I2 a w).
Proof.
  assert (Hfwd : forall quiet w, settled quiet a w -> hasAccessor w -> accessEnabled a w).
  { intros quiet w [_ Hw] Hacc. destruct (heap w a) as [s|] eqn:Hs.
    - exists s. split; [exact Hs|]. apply Hw, Hacc.
    - destruct Hw as [_ Hn]. destruct Hacc as [h Hh]. congruence. }
  split.
  - intros w Hr. apply (Hfwd false).
    eapply reachable_settled; [|exact Hr]. discriminate.
  - intros w Hr.
    assert (Hs : settled true a w) by (eapply reachable_settled; [|exact Hr]; auto).
    split; [apply (Hfwd true), Hs|].
    intros (s & Hh & He). destruct Hs as [_ Hw]. rewrite Hh in Hw. apply Hw; auto.
Qed.

Lemma I2_up_to_content_updates_witness :
  I2 7%nat (sampleWorld true stampHost)
  /\ (hasAccessor updatedWorld -> accessEnabled 7%nat updatedWorld).
Proof.
  split.
  - apply (proj2 (I2_up_to_content_updates 1 7%nat)). apply sampleWorld_reachable.
  - apply (proj1 (I2_up_to_content_updates 1 7%nat)).
    apply (reach_step 1 anyOp 7%nat (sampleWorld true stampHost) updatedWorld
             (UpdateContent 0)); [apply sampleWorld_reachable|exact I|reflexivity].
Defined.

(** *** After the source is gone *)

Lemma willDestroyAudioSource_detaches (w w1 : World) (a : nat) :
  audioSourceBeingRead (rdr w) = Some a ->
  willDestroyAudioSource w = Returns w1 ->
  detached (rdr w1) /\ notListening a w1
  /\ bitsPerSample (rdr w1) = bitsPerSample (rdr w).
Proof.
  intros Ha. unfold willDestroyAudioSource, deref. rewrite Ha.
  destruct (heap w a) as [s|] eqn:Hs; [|discriminate]. simpl.
  unfold enterWrite. simpl.
  destruct (ReadWriteLock.enterWrite (lock (rdr w))) as [l| |]; try discriminate.
  simpl. intros [= <-]. split; [split; reflexivity|]. split; [|reflexivity].
  intros s'. unfold notListening. simpl. rewrite store_same. intros [= <-].
  unfold removeListener. simpl. rewrite list_elem_of_filter. tauto.
Qed.

Lemma fits_same_bits (r r' : ARAAudioSourceReader) (x : Z) :
  bitsPerSample r' = bitsPerSample r -> fits r x -> fits r' x.
Proof. unfold fits. intros ->. auto. Qed.

Lemma wellFormedCall_same_bits (r r' : ARAAudioSourceReader) (c : readerCall) :
  bitsPerSample r' = bitsPerSample r -> wellFormedCall r c -> wellFormedCall r' c.
Proof.
  intros Hb. destruct c; simpl; auto.
  intros (H1 & H2 & H3). eauto using fits_same_bits.
Qed.

Lemma lock_enterWrite_defined (l : ReadWriteLock.t) :
  ReadWriteLock.enterWrite l <> Undefined.
Proof.
  unfold ReadWriteLock.enterWrite.
  destruct (ReadWriteLock.writerActive l); [discriminate|].
  destruct (ReadWriteLock.numReaders l); discriminate.
Qed.

Lemma runCall_detached (k : Z) (c : readerCall) (w : World) (m : mem) :
  detached (rdr w) -> wellFormedCall (rdr w) c ->
  runCall k c (w, m) <> Undefined
  /\ forall st', runCall k c (w, m) = Returns st' ->
                 heap st'.1 = heap w /\ detached (rdr st'.1)
                 /\ bitsPerSample (rdr st'.1) = bitsPerSample (rdr w).
Proof.
  intros [Hsrc Hacc] Hwf. destruct c as [dest nch off pos n|e|e|flags]; simpl.
  - destruct Hwf as (Ho & Hn & Hl).
    destruct (failure_path (rdr w) dest nch off pos n m Ho Hn Hl (or_intror Hacc))
      as (m' & Hr & _). rewrite Hr. simpl.
    split; [discriminate|]. intros st' [= <-]. simpl. repeat split; assumption.
  - unfold willEnableAudioSourceSamplesAccess, enterWrite.
    pose proof (lock_enterWrite_defined (lock (rdr w))) as Hdef.
    destruct (ReadWriteLock.enterWrite (lock (rdr w))) as [l| |]; simpl;
      [|contradiction|split; discriminate].
    split; [discriminate|].
    intros st' [= <-]. destruct e; simpl; repeat split; assumption.
  - unfold didEnableAudioSourceSamplesAccess, recreate. rewrite Hsrc.
    destruct e; simpl; (split; [discriminate|]);
      intros st' [= <-]; simpl; repeat split; assumption.
  - unfold doUpdateAudioSourceContent, enterWrite.
    destruct (negb (Z.land flags k =? 0)); simpl.
    + split; [discriminate|]. intros st' [= <-]. simpl. repeat split; assumption.
    + pose proof (lock_enterWrite_defined (lock (rdr w))) as Hdef.
      destruct (ReadWriteLock.enterWrite (lock (rdr w))) as [l| |]; simpl;
        [|contradiction|split; discriminate].
      split; [discriminate|].
      intros st' [= <-]. simpl. repeat split; assumption.
Qed.

Lemma runCalls_detached (k : Z) (cs : list readerCall) (w : World) (m : mem) :
  detached (rdr w) -> Forall (wellFormedCall (rdr w)) cs ->
  runCalls k cs (w, m) <> Undefined
  /\ forall st', runCalls k cs (w, m) = Returns st' ->
                 heap st'.1 = heap w /\ detached (rdr st'.1)
                 /\ bitsPerSample (rdr st'.1) = bitsPerSample (rdr w).
Proof.
  revert w m. induction cs as [|c cs IH]; intros w m Hd Hwf; simpl.
  - split; [discriminate|]. intros st' [= <-]. auto.
  - inversion Hwf as [|c' cs' Hc Hcs]; subst.
    destruct (runCall_detached k c w m Hd Hc) as [Hnu Hret].
    destruct (runCall k c (w, m)) as [[w1 m1]| |] eqn:E; simpl;
      [|contradiction|split; discriminate].
    destruct (Hret (w1, m1) eq_refl) as (Hh & Hd1 & Hb). simpl in *.
    destruct (IH w1 m1 Hd1) as [Hnu' Hret'].
    { eapply Forall_impl; [exact Hcs|]. intros c0. apply wellFormedCall_same_bits, Hb. }
    split; [exact Hnu'|]. intros st' Hst. destruct (Hret' st' Hst) as (Hh' & Hd' & Hb').
    split; [congruence|]. split; [exact Hd'|congruence].
Qed.

Lemma reads_return_among_calls (k : Z) (cs : list readerCall) (w : World) (m : mem) :
  detached (rdr w) -> Forall (wellFormedCall (rdr w)) cs ->
  Forall (fun c => match c with CallReadSamples _ _ _ _ _ => True | _ => False end) cs ->
  exists st', runCalls k cs (w, m) = Returns st'.
Proof.
  revert w m. induction cs as [|c cs IH]; intros w m Hd Hwf Hr; simpl; [eauto|].
  inversion Hwf as [|c' cs' Hc Hcs]; subst. inversion Hr as [|c' cs' Hrc Hrs]; subst.
  destruct (runCall_detached k c w m Hd Hc) as [_ Hret].
  destruct c as [dest nch off pos n| | |]; try contradiction.
  destruct Hc as (Ho & Hn & Hl). destruct Hd as [Hsrc Hacc].
  destruct (failure_path (rdr w) dest nch off pos n m Ho Hn Hl (or_intror Hacc))
    as (m' & Hrd & _).
  simpl in *. rewrite Hrd in *. simpl in *.
  destruct (Hret _ eq_refl) as (_ & Hd1 & Hb). simpl in *.
  apply IH; [exact Hd1| |exact Hrs].
  eapply Forall_impl; [exact Hcs|]. intros c0. apply wellFormedCall_same_bits, Hb.
Qed.

(** C2: once [willDestroyAudioSource] has run, the reader is no longer a
    listener of the source, has no accessor and no reference to the source.
    Whatever is called on it afterwards (reads, the enable, disable and
    content-update handlers), no call dereferences the destroyed source, the
    host's objects are left alone, and every read returns false with the
    destination channels zeroed over the requested frames. *)
Theorem reads_after_source_destruction
        (kSignalUnchanged : Z) (w w1 : World) (a : nat) (m : mem) (cs : list readerCall) :
  audioSourceBeingRead (rdr w) = Some a ->
  willDestroyAudioSource w = Returns w1 ->
  Forall (wellFormedCall (rdr w)) cs ->
  (notListening a w1 /\ detached (rdr w1))
  /\ runCalls kSignalUnchanged cs (sourceGone a w1, m) <> Undefined
  /\ forall w2 m2,
      runCalls kSignalUnchanged cs (sourceGone a w1, m) = Returns (w2, m2) ->
      heap w2 = heap (sourceGone a w1)
      /\ forall destSamples numDestChannels off pos n m3,
          wellFormedCall (rdr w) (CallReadSamples destSamples numDestChannels off pos n) ->
          exists r' m',
            readSamples (rdr w2) destSamples numDestChannels off pos n m3
            = Returns (false, r', m')
            /\ zero_filled (bitsPerSample (rdr w2) / 8) destSamples numDestChannels
                           off n m3 m'.
Proof.
  intros Ha Hd Hwf.
  destruct (willDestroyAudioSource_detaches w w1 a Ha Hd) as (Hdet & Hnl & Hb).
  split; [split; assumption|].
  assert (Hwf1 : Forall (wellFormedCall (rdr (sourceGone a w1))) cs).
  { eapply Forall_impl; [exact Hwf|]. intros c. apply wellFormedCall_same_bits, Hb. }
  destruct (runCalls_detached kSignalUnchanged cs (sourceGone a w1) m Hdet Hwf1)
    as [Hnu Hret].
  split; [exact Hnu|]. intros w2 m2 Hrun.
  destruct (Hret _ Hrun) as (Hh & [Hsrc Hacc] & Hb2). simpl in *.
  split; [exact Hh|].
  intros dest nch off pos n m3 Hc.
  assert (Hc2 : wellFormedCall (rdr w2) (CallReadSamples dest nch off pos n))
    by (apply (wellFormedCall_same_bits (rdr w)); [congruence|exact Hc]).
  destruct Hc2 as (Ho & Hn & Hl).
  destruct (failure_path (rdr w2) dest nch off pos n m3 Ho Hn Hl (or_intror Hacc))
    as (m' & Hr & _ & Hz).
  eauto.
Qed.

Lemma reads_after_source_destruction_witness :
  ((notListening 7%nat orphanedWorld /\ detached (rdr orphanedWorld))
   /\ runCalls 1 sampleCalls (sourceGone 7%nat orphanedWorld, sampleMem) <> Undefined
   /\ forall w2 m2,
       runCalls 1 sampleCalls (sourceGone 7%nat orphanedWorld, sampleMem)
       = Returns (w2, m2) ->
       heap w2 = heap (sourceGone 7%nat orphanedWorld)
       /\ forall destSamples numDestChannels off pos n m3,
           wellFormedCall (rdr (sampleWorld true stampHost))
                          (CallReadSamples destSamples numDestChannels off pos n) ->
           exists r' m',
             readSamples (rdr w2) destSamples numDestChannels off pos n m3
             = Returns (false, r', m')
             /\ zero_filled (bitsPerSample (rdr w2) / 8) destSamples numDestChannels
                            off n m3 m')
  /\ exists st, runCalls 1 sampleCalls (sourceGone 7%nat orphanedWorld, sampleMem)
                = Returns st.
Proof.
  split.
  - apply (reads_after_source_destruction 1 (sampleWorld true stampHost) orphanedWorld
             7%nat sampleMem sampleCalls).
    + reflexivity.
    + reflexivity.
    + unfold sampleCalls.
      constructor; [exact I|]. constructor; [exact I|].
      constructor; [unfold wellFormedCall, fits; by_evaluation|].
      constructor; [unfold wellFormedCall, fits; by_evaluation|].
      constructor.
  - eexists. vm_compute. reflexivity.
Defined.

End SourceReaderFacts.

(** ** ARAPlaybackRegionReader *)

Module RegionReaderFacts.
Import RegionReader RegionReaderSpec.

Lemma jmax_max (a b : Z) : jmax a b = Z.max a b.
Proof. unfold jmax. destruct (Z.ltb_spec a b); lia. Qed.

Lemma jmin_min (a b : Z) : jmin a b = Z.min a b.
Proof. unfold jmin. destruct (Z.ltb_spec b a); lia. Qed.

Section Reads.
Context {R : Type} `{ARAPlaybackRenderer R}.

(** Taking and giving back the read lock leaves the reader as it was, up to
    the renderer. *)
Lemma read_lock_round_trip (r : ARAPlaybackRegionReader R) (rs : R) :
  ReadWriteLock.writerActive (lock r) = false ->
  setLock (setRenderer (setLock r (ReadWriteLock.tryEnterRead (lock r)).2) rs)
          (ReadWriteLock.exitRead (ReadWriteLock.tryEnterRead (lock r)).2)
  = setRenderer r rs.
Proof.
  destruct r as [? ? ? ? ? ? [nr wa] ? ?]. simpl. intros ->. reflexivity.
Qed.

Lemma setRenderer_same (r : ARAPlaybackRegionReader R) :
  setRenderer r (playbackRenderer r) = r.
Proof. destruct r; reflexivity. Qed.

Lemma mem_eta (m : mem) : Mem (bytes m) (scratchSize m) = m.
Proof. destruct m; reflexivity. Qed.

Lemma readSamples_unlocked (turns : nat) (r : ARAPlaybackRegionReader R)
      (destSamples : list (option ptr)) (numDestChannels off pos n : Z) (m : mem) :
  ReadWriteLock.writerActive (lock r) = false ->
  readSamples turns r destSamples numDestChannels off pos n m
  = (out ← renderLoop turns destSamples numDestChannels off pos n
             (playbackRenderer r) (bytes m);
     Returns (true, setRenderer r out.1, Mem out.2 (scratchSize m))).
Proof.
  intros Hw. unfold readSamples.
  replace (negb (ReadWriteLock.tryEnterRead (lock r)).1) with false
    by (unfold ReadWriteLock.tryEnterRead; rewrite Hw; reflexivity).
  simpl.
  destruct (renderLoop _ _ _ _ _ _ _ _) as [out| |]; simpl; try reflexivity.
  rewrite read_lock_round_trip by exact Hw. reflexivity.
Qed.

Lemma renderLoop_done (turns : nat) (destSamples : list (option ptr))
      (numDestChannels off pos n : Z) (rs : R) (bs : bytes_t) :
  n <= 0 ->
  renderLoop turns destSamples numDestChannels off pos n rs bs = Returns (rs, bs).
Proof.
  intros Hn. destruct turns; simpl;
    (destruct (Z.leb_spec n 0); [reflexivity|lia]).
Qed.

(** One turn of the loop. *)
Lemma renderLoop_turn (turns : nat) (destSamples : list (option ptr))
      (numDestChannels off pos n : Z) (rs : R) (bs : bytes_t) :
  0 < n ->
  renderLoop (S turns) destSamples numDestChannels off pos n rs bs
  = renderLoop turns destSamples numDestChannels
      (off + jmin n (getMaxSamplesPerBlock rs))
      (pos + jmin n (getMaxSamplesPerBlock rs))
      (n - jmin n (getMaxSamplesPerBlock rs))
      (processBlock {| channels := destSamples;
                       bufNumChannels := numDestChannels;
                       bufStartSample := off;
                       bufNumSamples := jmin n (getMaxSamplesPerBlock rs) |}
                    pos true rs bs).1.2
      (processBlock {| channels := destSamples;
                       bufNumChannels := numDestChannels;
                       bufStartSample := off;
                       bufNumSamples := jmin n (getMaxSamplesPerBlock rs) |}
                    pos true rs bs).2.
Proof.
  intros Hn. simpl. destruct (Z.leb_spec n 0); [lia|reflexivity].
Qed.

Lemma readSamples_turn (turns : nat) (r : ARAPlaybackRegionReader R)
      (destSamples : list (option ptr)) (numDestChannels off pos n : Z) (m : mem) :
  ReadWriteLock.writerActive (lock r) = false ->
  0 < n ->
  readSamples (S turns) r destSamples numDestChannels off pos n m
  = readSamples turns (afterTurn r destSamples numDestChannels off pos n m).1
                destSamples numDestChannels
                (off + jmin n (getMaxSamplesPerBlock (playbackRenderer r)))
                (pos + jmin n (getMaxSamplesPerBlock (playbackRenderer r)))
                (n - jmin n (getMaxSamplesPerBlock (playbackRenderer r)))
                (afterTurn r destSamples numDestChannels off pos n m).2.
Proof.
  intros Hw Hn. rewrite !readSamples_unlocked by exact Hw.
  rewrite renderLoop_turn by exact Hn. reflexivity.
Qed.

(** A read of at most one block is one call of [processBlock]. *)
Lemma readSamples_one_block (turns : nat) (r : ARAPlaybackRegionReader R)
      (destSamples : list (option ptr)) (numDestChannels off pos n : Z) (m : mem) :
  ReadWriteLock.writerActive (lock r) = false ->
  0 < n <= getMaxSamplesPerBlock (playbackRenderer r) ->
  readSamples (S turns) r destSamples numDestChannels off pos n m
  = let res := processBlock {| channels := destSamples;
                               bufNumChannels := numDestChannels;
                               bufStartSample := off;
                               bufNumSamples := n |}
                            pos true (playbackRenderer r) (bytes m) in
    Returns (true, setRenderer r res.1.2, Mem res.2 (scratchSize m)).
Proof.
  intros Hw Hn. rewrite readSamples_unlocked by exact Hw.
  rewrite renderLoop_turn by lia.
  rewrite jmin_min, Z.min_l by lia.
  rewrite renderLoop_done by lia. reflexivity.
Qed.

Lemma readInBlocks_done (turns : nat) (r : ARAPlaybackRegionReader R)
      (destSamples : list (option ptr)) (numDestChannels off pos n : Z) (m : mem) :
  n <= 0 ->
  readInBlocks turns r destSamples numDestChannels off pos n m = Returns (true, r, m).
Proof.
  intros Hn. destruct turns; simpl;
    (destruct (Z.leb_spec n 0); [reflexivity|lia]).
Qed.

Lemma readInBlocks_turn (turns : nat) (r : ARAPlaybackRegionReader R)
      (destSamples : list (option ptr)) (numDestChannels off pos n : Z) (m : mem) :
  ReadWriteLock.writerActive (lock r) = false ->
  0 < n -> 0 < getMaxSamplesPerBlock (playbackRenderer r) ->
  readInBlocks (S turns) r destSamples numDestChannels off pos n m
  = readInBlocks turns (afterTurn r destSamples numDestChannels off pos n m).1
                 destSamples numDestChannels
                 (off + jmin n (getMaxSamplesPerBlock (playbackRenderer r)))
                 (pos + jmin n (getMaxSamplesPerBlock (playbackRenderer r)))
                 (n - jmin n (getMaxSamplesPerBlock (playbackRenderer r)))
                 (afterTurn r destSamples numDestChannels off pos n m).2.
Proof.
  intros Hw Hn HM. cbn [readInBlocks]. destruct (Z.leb_spec n 0); [lia|].
  cbv zeta.
  rewrite (readSamples_one_block turns r destSamples numDestChannels off pos
             (jmin n (getMaxSamplesPerBlock (playbackRenderer r))) m Hw)
    by (rewrite jmin_min; lia).
  reflexivity.
Qed.

(** Block reads whose size is not positive render nothing and get
    nowhere. *)
Lemma readInBlocks_stuck (turns : nat) (r : ARAPlaybackRegionReader R)
      (destSamples : list (option ptr)) (numDestChannels off pos n : Z) (m : mem) :
  ReadWriteLock.writerActive (lock r) = false ->
  getMaxSamplesPerBlock (playbackRenderer r) <= 0 -> 0 < n ->
  readInBlocks turns r destSamples numDestChannels off pos n m = Hangs.
Proof.
  intros Hw HM. revert off pos n m.
  induction turns as [|t IH]; intros off pos n m Hn; cbn [readInBlocks];
    (destruct (Z.leb_spec n 0); [lia|]); [reflexivity|].
  cbv zeta. rewrite readSamples_unlocked by exact Hw.
  rewrite renderLoop_done by (rewrite jmin_min; lia).
  cbn [mbind outcome_bind fst snd]. rewrite setRenderer_same, mem_eta.
  apply IH. rewrite jmin_min. lia.
Qed.

(** Whatever the block reads produce, the long read produces. *)
Lemma block_reads_give_long_read (turns : nat) (r : ARAPlaybackRegionReader R)
      (destSamples : list (option ptr)) (numDestChannels off pos n : Z) (m : mem)
      (res : bool * ARAPlaybackRegionReader R * mem) :
  ReadWriteLock.writerActive (lock r) = false ->
  readInBlocks turns r destSamples numDestChannels off pos n m = Returns res ->
  readSamples turns r destSamples numDestChannels off pos n m = Returns res.
Proof.
  revert r off pos n m. induction turns as [|t IH]; intros r off pos n m Hw.
  - destruct (Z.le_gt_cases n 0) as [Hn|Hn].
    + rewrite readInBlocks_done by exact Hn. intros <-.
      rewrite readSamples_unlocked, renderLoop_done by assumption.
      cbn [mbind outcome_bind fst snd]. rewrite setRenderer_same, mem_eta. reflexivity.
    + cbn [readInBlocks]. destruct (Z.leb_spec n 0); [lia|discriminate].
  - destruct (Z.le_gt_cases n 0) as [Hn|Hn].
    + rewrite readInBlocks_done by exact Hn. intros <-.
      rewrite readSamples_unlocked, renderLoop_done by assumption.
      cbn [mbind outcome_bind fst snd]. rewrite setRenderer_same, mem_eta. reflexivity.
    + destruct (Z.le_gt_cases (getMaxSamplesPerBlock (playbackRenderer r)) 0) as [HM|HM].
      * rewrite readInBlocks_stuck by (assumption || lia). discriminate.
      * rewrite readInBlocks_turn, readSamples_turn by (assumption || lia).
        apply IH. exact Hw.
Qed.

Lemma long_read_as_block_reads (turns : nat) (r : ARAPlaybackRegionReader R)
      (destSamples : list (option ptr)) (numDestChannels off pos n : Z) (m : mem) :
  keepsBlockSize ->
  ReadWriteLock.writerActive (lock r) = false ->
  0 < getMaxSamplesPerBlock (playbackRenderer r) ->
  readSamples turns r destSamples numDestChannels off pos n m
  = readInBlocks turns r destSamples numDestChannels off pos n m.
Proof.
  intros Hkeep. revert r off pos n m.
  induction turns as [|t IH]; intros r off pos n m Hw HM;
    (destruct (Z.le_gt_cases n 0) as [Hn|Hn];
     [rewrite readInBlocks_done by exact Hn;
      rewrite readSamples_unlocked, renderLoop_done by assumption;
      cbn [mbind outcome_bind fst snd]; rewrite setRenderer_same, mem_eta; reflexivity|]).
  - rewrite readSamples_unlocked by exact Hw. cbn [renderLoop readInBlocks].
    destruct (Z.leb_spec n 0); [lia|reflexivity].
  - rewrite readInBlocks_turn, readSamples_turn by (assumption || lia).
    apply IH; [exact Hw|]. unfold afterTurn. cbn [fst playbackRenderer setRenderer].
    rewrite Hkeep. exact HM.
Qed.

Lemma read_returns_true (turns : nat) (r : ARAPlaybackRegionReader R)
      (destSamples : list (option ptr)) (numDestChannels off pos n : Z) (m : mem) :
  keepsBlockSize ->
  ReadWriteLock.writerActive (lock r) = false ->
  0 < getMaxSamplesPerBlock (playbackRenderer r) ->
  (Z.to_nat n <= turns)%nat ->
  exists r' m',
    readSamples turns r destSamples numDestChannels off pos n m = Returns (true, r', m').
Proof.
  intros Hkeep. revert r off pos n m.
  induction turns as [|t IH]; intros r off pos n m Hw HM Ht;
    (destruct (Z.le_gt_cases n 0) as [Hn|Hn];
     [rewrite readSamples_unlocked, renderLoop_done by assumption; eexists _, _;
      reflexivity|]); [lia|].
  rewrite readSamples_turn by (assumption || lia).
  apply IH; [exact Hw| |rewrite jmin_min; lia].
  unfold afterTurn. cbn [fst playbackRenderer setRenderer].
  rewrite Hkeep. exact HM.
Qed.

(** C7: a read that takes the read lock gives what the back-to-back reads
    of at most the maximum block size over the same span give (destination
    offset and file position moving on block by block): whatever these
    block reads return, flag, reader with its renderer, and memory, the long
    read returns.  For a renderer with a positive maximum block size that
    rendering leaves alone the two are the same outcome however long they
    are followed, and the read returns true within as many turns as there
    are samples. *)
Theorem long_read_equals_block_reads
        (turns : nat) (r : ARAPlaybackRegionReader R) (destSamples : list (option ptr))
        (numDestChannels startOffsetInDestBuffer startSampleInFile numSamples : Z)
        (m : mem) :
  ReadWriteLock.writerActive (lock r) = false ->
  (forall res,
      readInBlocks turns r destSamples numDestChannels
                   startOffsetInDestBuffer startSampleInFile numSamples m = Returns res ->
      readSamples turns r destSamples numDestChannels startOffsetInDestBuffer
                  startSampleInFile numSamples m = Returns res)
  /\ (keepsBlockSize ->
      0 < getMaxSamplesPerBlock (playbackRenderer r) ->
      readSamples turns r destSamples numDestChannels startOffsetInDestBuffer
                  startSampleInFile numSamples m
      = readInBlocks turns r destSamples numDestChannels
                     startOffsetInDestBuffer startSampleInFile numSamples m
      /\ ((Z.to_nat numSamples <= turns)%nat ->
          exists r' m',
            readSamples turns r destSamples numDestChannels startOffsetInDestBuffer
                        startSampleInFile numSamples m = Returns (true, r', m'))).
Proof.
  intros Hw. split.
  - intros res. apply block_reads_give_long_read, Hw.
  - intros Hkeep HM. split.
    + apply long_read_as_block_reads; assumption.
    + intros Ht. apply read_returns_true; assumption.
Qed.

(** The format the constructor computes. *)

Lemma foldl_max_out (a b : Z) (l : list Z) :
  foldl Z.max (Z.max a b) l = Z.max a (foldl Z.max b l).
Proof.
  revert b. induction l as [|x l IH]; intros b; simpl; [reflexivity|].
  rewrite <- IH. f_equal. lia.
Qed.

Lemma visit_with_rate (ps : list ARAPlaybackRegion) (r : ARAPlaybackRegionReader R) :
  PrimFloat.eqb (sampleRate r) 0%float = false ->
  Forall (fun q => 0 <= sourceChannelCount q < 2 ^ 32) ps ->
  sampleRate (foldl visitRegion r ps) = sampleRate r
  /\ numChannels (foldl visitRegion r ps)
     = foldl Z.max (numChannels r) (map sourceChannelCount ps)
  /\ lengthInSamples (foldl visitRegion r ps)
     = foldl Z.max (lengthInSamples r)
             (map (fun q => getEndInPlaybackSamples q (sampleRate r)) ps).
Proof.
  revert r. induction ps as [|p ps IH]; intros r Hr Hc; simpl; [auto|].
  inversion Hc as [|p' ps' Hp Hps]; subst.
  destruct (IH (visitRegion r p)) as (Hs & Hn & Hl).
  - unfold visitRegion. simpl. rewrite Hr. exact Hr.
  - exact Hps.
  - rewrite Hs, Hn, Hl. unfold visitRegion. simpl. rewrite Hr.
    rewrite !jmax_max, to_uint32_small by exact Hp. auto.
Qed.

Lemma visit_without_rate (ps : list ARAPlaybackRegion) (r : ARAPlaybackRegionReader R) :
  PrimFloat.eqb (sampleRate r) 0%float = true ->
  Forall (fun q => yieldsRate q = false) ps ->
  PrimFloat.eqb (sampleRate (foldl visitRegion r ps)) 0%float = true.
Proof.
  revert r. induction ps as [|p ps IH]; intros r Hr Hc; simpl; [exact Hr|].
  inversion Hc as [|p' ps' Hp Hps]; subst. apply IH; [|exact Hps].
  unfold visitRegion. simpl. rewrite Hr.
  unfold yieldsRate in Hp. apply negb_false_iff in Hp. exact Hp.
Qed.

(** C6, amended: with a first region whose source has a sample rate, the
    reader takes that rate, the largest channel count but at least 1, and the
    largest end position at that rate but at least 0; when no region yields
    a rate the rate is 44100. *)
Theorem aggregate_format (renderer : R) (p : ARAPlaybackRegion)
        (ps : list ARAPlaybackRegion) :
  yieldsRate p = true ->
  Forall (fun q => 0 <= sourceChannelCount q < 2 ^ 32) (p :: ps) ->
  (sampleRate (construct renderer (p :: ps)) = sourceSampleRate p
   /\ numChannels (construct renderer (p :: ps)) = Z.max 1 (maxChannelCount p ps)
   /\ lengthInSamples (construct renderer (p :: ps))
      = Z.max 0 (maxEnd (sourceSampleRate p) p ps))
  /\ (forall regions,
         Forall (fun q => yieldsRate q = false) regions ->
         sampleRate (construct renderer regions) = 44100%float).
Proof.
  intros Hrate Hc. unfold yieldsRate in Hrate. apply negb_true_iff in Hrate.
  inversion Hc as [|p' ps' Hp Hps]; subst. split.
  - unfold construct. simpl.
    set (r1 := visitRegion _ p).
    assert (Hr1 : sampleRate r1 = sourceSampleRate p) by reflexivity.
    destruct (visit_with_rate ps r1) as (Hs & Hn & Hl);
      [rewrite Hr1; exact Hrate|exact Hps|].
    rewrite Hs, Hr1, Hrate. simpl. rewrite Hs, Hn, Hl, Hr1.
    split; [reflexivity|]. unfold maxChannelCount, maxEnd.
    rewrite <- !foldl_max_out. unfold r1, visitRegion. simpl.
    rewrite !jmax_max, to_uint32_small by exact Hp. auto.
  - intros regions Hnone. unfold construct. simpl.
    set (r0 := {| bitsPerSample := 32 |}).
    rewrite (visit_without_rate regions r0) by (auto; reflexivity).
    reflexivity.
Qed.

End Reads.

Lemma stamp_keepsBlockSize : keepsBlockSize (R := StampRenderer).
Proof. intros buffer t playing rs bs. reflexivity. Qed.

Lemma mute_keepsBlockSize : keepsBlockSize (R := MuteRenderer).
Proof. intros buffer t playing rs bs. reflexivity. Qed.

Lemma long_read_equals_block_reads_witness :
  readSamples (Z.to_nat 40000) sampleReader stereoDest 2 1 0 40000 ffMem
  = readInBlocks (Z.to_nat 40000) sampleReader stereoDest 2 1 0 40000 ffMem
  /\ exists r' m',
      readSamples (Z.to_nat 40000) sampleReader stereoDest 2 1 0 40000 ffMem
      = Returns (true, r', m').
Proof.
  destruct (long_read_equals_block_reads (Z.to_nat 40000) sampleReader stereoDest
              2 1 0 40000 ffMem) as [_ Hkept].
  - reflexivity.
  - destruct Hkept as [Heq Hret].
    + exact stamp_keepsBlockSize.
    + vm_compute. reflexivity.
    + split; [exact Heq|]. apply Hret. apply le_n.
Defined.

(** C4, at an input where it breaks: a read that cannot take the read lock
    returns false, but with a destination offset of one frame it clears the
    first frame of each channel and leaves the requested frame, the second,
    as it was. *)
Theorem contended_read_clears_from_buffer_start (turns : nat) :
  exists r' m',
    readSamples turns heldReader stereoDest 2 1 0 1 ffMem = Returns (false, r', m')
    /\ map (bytes m' (Caller 0)) [0; 1; 2; 3; 4; 5; 6; 7]
       = [Byte.x00; Byte.x00; Byte.x00; Byte.x00; Byte.xff; Byte.xff; Byte.xff; Byte.xff]
    /\ map (bytes m' (Caller 1)) [0; 1; 2; 3; 4; 5; 6; 7]
       = [Byte.x00; Byte.x00; Byte.x00; Byte.x00; Byte.xff; Byte.xff; Byte.xff; Byte.xff].
Proof.
  eexists _, _. split; [reflexivity|]. split; vm_compute; reflexivity.
Qed.

(** C6 as stated fails: for a single region that ends before the start of
    the timeline the reader's length is 0, not the region's end position. *)
Lemma aggregate_length_is_not_max_end :
  yieldsRate earlyRegion = true
  /\ sampleRate (construct freshStamp [earlyRegion]) = sourceSampleRate earlyRegion
  /\ lengthInSamples (construct freshStamp [earlyRegion]) = 0
  /\ maxEnd (sampleRate (construct freshStamp [earlyRegion])) earlyRegion [] = -100.
Proof. repeat split. Qed.

Lemma aggregate_format_witness :
  (sampleRate (construct freshStamp [regionA; regionB]) = sourceSampleRate regionA
   /\ numChannels (construct freshStamp [regionA; regionB])
      = Z.max 1 (maxChannelCount regionA [regionB])
   /\ lengthInSamples (construct freshStamp [regionA; regionB])
      = Z.max 0 (maxEnd (sourceSampleRate regionA) regionA [regionB]))
  /\ (forall regions,
         Forall (fun q => yieldsRate q = false) regions ->
         sampleRate (construct freshStamp regions) = 44100%float).
Proof.
  apply aggregate_format.
  - reflexivity.
  - constructor; [by_evaluation|].
    constructor; [by_evaluation|]. constructor.
Defined.

End RegionReaderFacts.

(** ** ARARegionSequenceReader *)

Module SequenceReaderFacts.
Import SequenceReader SequenceReaderSpec.

(** C8 as stated fails: when [regionB] has been added to the sequence, the
    handler registers with the region before it releases the renderer's
    resources. *)
Lemma release_after_listener_registration :
  exists r',
    didAddPlaybackRegionToRegionSequence
      (sequenceOf [RegionReaderSpec.regionA; RegionReaderSpec.regionB])
      RegionReaderSpec.regionB sampleSequenceReader = Returns r'
    /\ newCalls sampleSequenceReader r'
       = [RegionReader.LockEnterWrite; RegionReader.RegionAddListener 6;
          RegionReader.RendererReleaseResources;
          RegionReader.RendererAddPlaybackRegion 6; RegionReader.LockExitWrite]
    /\ RegionReaderSpec.occursBefore RegionReader.RendererReleaseResources
         (RegionReader.RegionAddListener 6) (newCalls sampleSequenceReader r') = false.
Proof.
  eexists. split; [vm_compute; reflexivity|]. split; vm_compute; reflexivity.
Qed.

(** C8, amended: for a region that is in the sequence, the handler takes the
    writer lock, registers with the region, then has the renderer release
    its resources, only then adds the region to the renderer, and gives the
    lock back. *)
Theorem region_added_handler {R : Type} `{RegionReader.ARAPlaybackRenderer R}
        (seqs : nat -> option ARARegionSequence)
        (playbackRegion : RegionReader.ARAPlaybackRegion)
        (r : ARARegionSequenceReader R) (s : ARARegionSequence) :
  deref seqs (sequence r) = Returns s ->
  contains (getPlaybackRegions s) playbackRegion = true ->
  RegionReader.lock (base r) = ReadWriteLock.unlocked ->
  exists r',
    didAddPlaybackRegionToRegionSequence seqs playbackRegion r = Returns r'
    /\ newCalls r r'
       = [RegionReader.LockEnterWrite;
          RegionReader.RegionAddListener (RegionReader.regionId playbackRegion);
          RegionReader.RendererReleaseResources;
          RegionReader.RendererAddPlaybackRegion (RegionReader.regionId playbackRegion);
          RegionReader.LockExitWrite]
    /\ RegionReader.playbackRenderer (base r')
       = RegionReader.addPlaybackRegion (RegionReader.regionId playbackRegion)
           (RegionReader.releaseResources (RegionReader.playbackRenderer (base r)))
    /\ RegionReader.listening (base r')
       = RegionReader.regionId playbackRegion :: RegionReader.listening (base r)
    /\ RegionReader.lock (base r') = ReadWriteLock.unlocked.
Proof.
  intros Hs Hc Hl. unfold didAddPlaybackRegionToRegionSequence.
  rewrite Hs. simpl. rewrite Hc.
  unfold RegionReader.enterWrite. rewrite Hl. simpl.
  eexists. split; [reflexivity|]. unfold newCalls. simpl.
  repeat split.
  rewrite <- !app_assoc. rewrite drop_app_length. reflexivity.
Qed.

Lemma region_added_handler_witness :
  exists r',
    didAddPlaybackRegionToRegionSequence
      (sequenceOf [RegionReaderSpec.regionA; RegionReaderSpec.regionB])
      RegionReaderSpec.regionB sampleSequenceReader = Returns r'
    /\ newCalls sampleSequenceReader r'
       = [RegionReader.LockEnterWrite;
          RegionReader.RegionAddListener
            (RegionReader.regionId RegionReaderSpec.regionB);
          RegionReader.RendererReleaseResources;
          RegionReader.RendererAddPlaybackRegion
            (RegionReader.regionId RegionReaderSpec.regionB);
          RegionReader.LockExitWrite]
    /\ RegionReader.playbackRenderer (base r')
       = RegionReader.addPlaybackRegion
           (RegionReader.regionId RegionReaderSpec.regionB)
           (RegionReader.releaseResources
              (RegionReader.playbackRenderer (base sampleSequenceReader)))
    /\ RegionReader.listening (base r')
       = RegionReader.regionId RegionReaderSpec.regionB
           :: RegionReader.listening (base sampleSequenceReader)
    /\ RegionReader.lock (base r') = ReadWriteLock.unlocked.
Proof.
  apply (region_added_handler
           (sequenceOf [RegionReaderSpec.regionA; RegionReaderSpec.regionB])
           RegionReaderSpec.regionB sampleSequenceReader
           {| getPlaybackRegions := [RegionReaderSpec.regionA; RegionReaderSpec.regionB] |}).
  - reflexivity.
  - reflexivity.
  - reflexivity.
Defined.

End SequenceReaderFacts.

(** ** What a read returns *)

Module ReadResultFacts.

(** The second half of C5 as stated fails: the renderer reports for every
    block that it could not produce samples, and the read returns true. *)
Lemma mute_renderer_read_returns_true :
  (forall buffer t playing rs bs,
      (RegionReader.processBlock (R := RegionReaderSpec.MuteRenderer)
         buffer t playing rs bs).1.1 = false)
  /\ (exists r' m',
         RegionReader.readSamples 1 RegionReaderSpec.muteReader
           RegionReaderSpec.stereoDest 2 0 0 1 RegionReaderSpec.ffMem
         = Returns (true, r', m'))
  /\ ~ RegionReaderSpec.propagatesRendererFailure (R := RegionReaderSpec.MuteRenderer).
Proof.
  split; [reflexivity|]. split; [eexists _, _; reflexivity|].
  intros Hp.
  specialize (Hp 1%nat RegionReaderSpec.muteReader RegionReaderSpec.stereoDest 2 0 0 1
                 RegionReaderSpec.ffMem true).
  discriminate (Hp _ _ ltac:(reflexivity) ltac:(reflexivity) ltac:(reflexivity)).
Qed.

(** C5, amended: a read of an audio source that gets as far as the accessor
    returns the flag the accessor reports for the position, the count and
    the pointers it is handed.  A read of playback regions returns false
    only when it does not take the read lock; once it has the lock it
    consults nothing the renderer reports: however long it is followed it
    has either returned true or is still rendering, and it returns true,
    within as many turns as there are samples, for a renderer with a
    positive maximum block size that rendering leaves alone. *)
Theorem read_result_flags :
  (forall (r : SourceReader.ARAAudioSourceReader) (host : SourceReader.HostAudioReader)
          (destSamples : list (option ptr)) (numDestChannels off pos n : Z) (m : mem),
      ReadWriteLock.writerActive (SourceReader.lock r) = false ->
      SourceReader.araHostReader r = Some host ->
      numDestChannels <= Z.of_nat (length destSamples) ->
      exists st r' m',
        SourceReaderSpec.pointChannels r destSamples numDestChannels off n m = Returns st
        /\ SourceReader.readSamples r destSamples numDestChannels off pos n m
           = Returns ((SourceReader.readAudioSamples host pos n st.1 (bytes st.2)).1,
                      r', m'))
  /\ (forall (R : Type) (renderer : RegionReader.ARAPlaybackRenderer R) (turns : nat)
             (r : RegionReader.ARAPlaybackRegionReader R)
             (destSamples : list (option ptr)) (numDestChannels off pos n : Z) (m : mem),
         (forall (ok : bool) (r' : RegionReader.ARAPlaybackRegionReader R) (m' : mem),
             RegionReader.readSamples turns r destSamples numDestChannels off pos n m
             = Returns (ok, r', m') ->
             ok = negb (ReadWriteLock.writerActive (RegionReader.lock r)))
         /\ (ReadWriteLock.writerActive (RegionReader.lock r) = false ->
             (RegionReader.readSamples turns r destSamples numDestChannels off pos n m
              = Hangs
              \/ exists r' m',
                  RegionReader.readSamples turns r destSamples numDestChannels off pos n m
                  = Returns (true, r', m'))
             /\ (RegionReaderSpec.keepsBlockSize ->
                 0 < RegionReader.getMaxSamplesPerBlock (RegionReader.playbackRenderer r) ->
                 (Z.to_nat n <= turns)%nat ->
                 exists r' m',
                   RegionReader.readSamples turns r destSamples numDestChannels
                                            off pos n m
                   = Returns (true, r', m')))).
Proof.
  split.
  - intros r host dest nch off pos n m Hw Hh Hl.
    destruct (SourceReaderFacts.pointChannels_targets r dest nch off n m Hl)
      as (st & Hp & _).
    exists st. eexists _, _. split; [exact Hp|].
    apply (SourceReaderFacts.success_path r host); assumption.
  - intros R renderer turns r dest nch off pos n m. split.
    + intros ok r' m'.
      unfold RegionReader.readSamples, ReadWriteLock.tryEnterRead.
      destruct (ReadWriteLock.writerActive (RegionReader.lock r)); simpl.
      * destruct (for_each _ _ _); simpl; [|discriminate|discriminate].
        intros [= <- _ _]. reflexivity.
      * destruct (RegionReader.renderLoop _ _ _ _ _ _ _ _); simpl;
          [|discriminate|discriminate].
        intros [= <- _ _]. reflexivity.
    + intros Hw. split.
      * rewrite RegionReaderFacts.readSamples_unlocked by exact Hw.
        assert (Hloop : forall t off' pos' n' rs bs,
                   RegionReader.renderLoop t dest nch off' pos' n' rs bs <> Undefined).
        { induction t as [|t IH]; intros off' pos' n' rs bs; simpl;
            destruct (n' <=? 0); try discriminate. apply IH. }
        specialize (Hloop turns off pos n (RegionReader.playbackRenderer r) (bytes m)).
        destruct (RegionReader.renderLoop _ _ _ _ _ _ _ _) as [out| |];
          [right; eexists _, _; reflexivity|contradiction|left; reflexivity].
      * intros Hkeep HM Ht. apply RegionReaderFacts.read_returns_true; assumption.
Qed.

Lemma read_result_flags_witness :
  (exists r' m',
      SourceReader.readSamples
        (SourceReader.rdr (SourceReaderSpec.sampleWorld true SourceReaderSpec.failingHost))
        SourceReaderSpec.sampleDest 3 1 0 2 SourceReaderSpec.sampleMem
      = Returns (false, r', m'))
  /\ (exists r' m',
         RegionReader.readSamples 1 RegionReaderSpec.muteReader
           RegionReaderSpec.stereoDest 2 0 0 1 RegionReaderSpec.ffMem
         = Returns (true, r', m')).
Proof.
  split.
  - destruct (proj1 read_result_flags
                (SourceReader.rdr
                   (SourceReaderSpec.sampleWorld true SourceReaderSpec.failingHost))
                SourceReaderSpec.failingHost SourceReaderSpec.sampleDest 3 1 0 2
                SourceReaderSpec.sampleMem) as (st & r' & m' & _ & Hr).
    + reflexivity.
    + reflexivity.
    + vm_compute. discriminate.
    + exists r', m'. exact Hr.
  - destruct (proj2 read_result_flags RegionReaderSpec.MuteRenderer
                RegionReaderSpec.muteRenderer 1%nat RegionReaderSpec.muteReader
                RegionReaderSpec.stereoDest 2 0 0 1 RegionReaderSpec.ffMem)
      as [_ Hlock].
    destruct (Hlock eq_refl) as [_ Htrue].
    apply Htrue.
    + exact RegionReaderFacts.mute_keepsBlockSize.
    + vm_compute. reflexivity.
    + apply le_n.
Defined.

End ReadResultFacts.

(** * Further properties *)

(** ** ARAAudioSourceReader *)

Module SourceReaderMore.
Import SourceReader SourceReaderSpec SourceReaderMoreSpec.

Lemma setLock_same (r : ARAAudioSourceReader) : setLock r (lock r) = r.
Proof. destruct r; reflexivity. Qed.

Lemma contended_path (r : ARAAudioSourceReader) (destSamples : list (option ptr))
      (numDestChannels off pos n : Z) (m : mem) :
  fits r off -> fits r n ->
  numDestChannels <= Z.of_nat (length destSamples) ->
  ReadWriteLock.writerActive (lock r) = true ->
  exists m',
    readSamples r destSamples numDestChannels off pos n m = Returns (false, r, m')
    /\ zero_filled (bitsPerSample r / 8) destSamples numDestChannels off n m m'.
Proof.
  intros Ho Hn Hl Hw.
  assert (Ht : ReadWriteLock.tryEnterRead (lock r) = (false, lock r))
    by (unfold ReadWriteLock.tryEnterRead; rewrite Hw; reflexivity).
  destruct (SourceReaderFacts.failure_path r destSamples numDestChannels
              off pos n m Ho Hn Hl) as (m' & Hr & _ & Hz).
  { left. rewrite Ht. reflexivity. }
  exists m'. split; [|exact Hz].
  rewrite Hr, Ht. simpl. rewrite setLock_same. reflexivity.
Qed.

(** X1: a read that finds the lock held by a writer returns false, zeroes
    the requested frames, and leaves the reader exactly as it was: no reader
    count is taken, nothing is left to release. *)
Theorem contended_read_leaves_reader
        (r : ARAAudioSourceReader) (destSamples : list (option ptr))
        (numDestChannels startOffsetInDestBuffer startSampleInFile numSamples : Z)
        (m : mem) :
  fits r startOffsetInDestBuffer -> fits r numSamples ->
  numDestChannels <= Z.of_nat (length destSamples) ->
  ReadWriteLock.writerActive (lock r) = true ->
  exists m',
    readSamples r destSamples numDestChannels startOffsetInDestBuffer
                startSampleInFile numSamples m = Returns (false, r, m')
    /\ zero_filled (bitsPerSample r / 8) destSamples numDestChannels
                   startOffsetInDestBuffer numSamples m m'.
Proof.
  intros Ho Hn Hl Hw.
  assert (Ht : ReadWriteLock.tryEnterRead (lock r) = (false, lock r))
    by (unfold ReadWriteLock.tryEnterRead; rewrite Hw; reflexivity).
  destruct (SourceReaderFacts.failure_path r destSamples numDestChannels
              startOffsetInDestBuffer startSampleInFile numSamples m Ho Hn Hl)
    as (m' & Hr & _ & Hz).
  { left. rewrite Ht. reflexivity. }
  exists m'. split; [|exact Hz].
  rewrite Hr, Ht. simpl. rewrite setLock_same. reflexivity.
Qed.

Lemma contended_read_leaves_reader_witness :
  exists m',
    readSamples (setLock (rdr (sampleWorld true stampHost)) (ReadWriteLock.Make 0 true))
                sampleDest 3 1 0 2 sampleMem
    = Returns (false,
               setLock (rdr (sampleWorld true stampHost)) (ReadWriteLock.Make 0 true),
               m')
    /\ zero_filled
         (bitsPerSample
            (setLock (rdr (sampleWorld true stampHost)) (ReadWriteLock.Make 0 true)) / 8)
         sampleDest 3 1 2 sampleMem m'.
Proof.
  apply contended_read_leaves_reader.
  - unfold fits; by_evaluation.
  - unfold fits; by_evaluation.
  - by_evaluation.
  - reflexivity.
Defined.

(** The first loop of the success path, slot by slot. *)

Lemma growScratch_size (ds : Z) (m : mem) :
  scratchSize (growScratch ds m) = Z.max (scratchSize m) ds.
Proof.
  unfold growScratch. destruct (Z.ltb_spec (scratchSize m) ds); simpl; lia.
Qed.

Lemma growScratch_twice (ds : Z) (m : mem) :
  growScratch ds (growScratch ds m) = growScratch ds m.
Proof.
  unfold growScratch at 1. rewrite growScratch_size.
  destruct (Z.ltb_spec (Z.max (scratchSize m) ds) ds); [lia|reflexivity].
Qed.

Lemma growScratch_bytes (ds : Z) (m : mem) (b : block) (k : Z) :
  b <> Scratch \/ k < scratchSize m ->
  bytes (growScratch ds m) b k = bytes m b k.
Proof.
  intros Hk. unfold growScratch. destruct (scratchSize m <? ds); [|reflexivity].
  unfold resizeScratch, zero_bytes. simpl.
  destruct (in_span (Scratch, scratchSize m) (ds - scratchSize m) b k) eqn:E;
    [|reflexivity].
  apply in_span_true in E. simpl in E. destruct E as [-> E].
  destruct Hk as [Hk|Hk]; [contradiction|lia].
Qed.

Lemma pointChannel_exact (destSamples : list (option ptr)) (numDestChannels bo ds : Z)
      (i : nat) (tmp : list (option ptr)) (m : mem) :
  numDestChannels <= Z.of_nat (length destSamples) ->
  pointChannel destSamples numDestChannels bo ds i (tmp, m)
  = Returns (<[i := expectedSlot destSamples numDestChannels bo
                                 (scratchData (growScratch ds m)) i]> tmp,
             if takesCaller destSamples numDestChannels i then m else growScratch ds m).
Proof.
  intros Hlen. unfold pointChannel, expectedSlot, takesCaller, useDummy, growScratch.
  destruct (Z.ltb_spec (Z.of_nat i) numDestChannels); simpl; [|reflexivity].
  destruct (lookup_lt_is_Some_2 destSamples i ltac:(lia)) as [[p|] Hq]; rewrite Hq;
    reflexivity.
Qed.

Lemma pointChannel_loop_exact (destSamples : list (option ptr))
      (numDestChannels bo ds : Z) (idx : list nat) (tmp : list (option ptr)) (m : mem) :
  numDestChannels <= Z.of_nat (length destSamples) ->
  for_each idx (pointChannel destSamples numDestChannels bo ds) (tmp, m)
  = Returns (pointAll destSamples numDestChannels bo (scratchData (growScratch ds m))
                      idx tmp,
             if existsb (fun j => negb (takesCaller destSamples numDestChannels j)) idx
             then growScratch ds m else m).
Proof.
  intros Hlen. revert tmp m. induction idx as [|i idx IH]; intros tmp m; simpl;
    [reflexivity|].
  rewrite pointChannel_exact by exact Hlen. simpl. rewrite IH.
  unfold pointAll. simpl.
  destruct (takesCaller destSamples numDestChannels i); simpl; [reflexivity|].
  rewrite growScratch_twice.
  destruct (existsb _ idx); reflexivity.
Qed.

Lemma pointAll_length (destSamples : list (option ptr)) (numDestChannels bo : Z)
      (dummy : option ptr) (idx : list nat) (tmp : list (option ptr)) :
  length (pointAll destSamples numDestChannels bo dummy idx tmp) = length tmp.
Proof.
  revert tmp. induction idx as [|i idx IH]; intros tmp; [reflexivity|].
  unfold pointAll in *. simpl. rewrite IH. apply length_insert.
Qed.

Lemma pointAll_other (destSamples : list (option ptr)) (numDestChannels bo : Z)
      (dummy : option ptr) (idx : list nat) (tmp : list (option ptr)) (j : nat) :
  ~ In j idx ->
  pointAll destSamples numDestChannels bo dummy idx tmp !! j = tmp !! j.
Proof.
  revert tmp. induction idx as [|i idx IH]; intros tmp Hj; [reflexivity|].
  unfold pointAll in *. simpl. rewrite IH by (intros Hin; apply Hj; right; exact Hin).
  apply list_lookup_insert_ne. intros ->. apply Hj. left. reflexivity.
Qed.

Lemma pointAll_lookup (destSamples : list (option ptr)) (numDestChannels bo : Z)
      (dummy : option ptr) (idx : list nat) (tmp : list (option ptr)) (j : nat) :
  In j idx -> (j < length tmp)%nat ->
  pointAll destSamples numDestChannels bo dummy idx tmp !! j
  = Some (expectedSlot destSamples numDestChannels bo dummy j).
Proof.
  revert tmp. induction idx as [|i idx IH]; intros tmp Hin Hlt; [contradiction|].
  destruct (in_dec Nat.eq_dec j idx) as [Hj|Hj].
  - unfold pointAll in *. simpl. apply IH; [exact Hj|].
    rewrite length_insert. exact Hlt.
  - destruct Hin as [->|Hin]; [|contradiction].
    change (pointAll destSamples numDestChannels bo dummy (j :: idx) tmp)
      with (pointAll destSamples numDestChannels bo dummy idx
              (<[j := expectedSlot destSamples numDestChannels bo dummy j]> tmp)).
    rewrite pointAll_other by exact Hj.
    apply list_lookup_insert_eq. exact Hlt.
Qed.

Lemma pointChannels_exact (r : ARAAudioSourceReader) (destSamples : list (option ptr))
      (numDestChannels off n : Z) (m : mem) :
  numDestChannels <= Z.of_nat (length destSamples) ->
  pointChannels r destSamples numDestChannels off n m
  = Returns (pointAll destSamples numDestChannels (byteCount r off)
                      (scratchData (growScratch (byteCount r n) m))
                      (seq 0 (length (tmpPtrs r))) (tmpPtrs r),
             if anyDummy destSamples numDestChannels (length (tmpPtrs r))
             then growScratch (byteCount r n) m else m).
Proof. intros Hl. unfold pointChannels. apply pointChannel_loop_exact, Hl. Qed.

Lemma expectedSlot_caller (destSamples : list (option ptr)) (numDestChannels bo : Z)
      (dummy : option ptr) (j : nat) :
  takesCaller destSamples numDestChannels j = true ->
  exists p, destSamples !! j = Some (Some p)
            /\ expectedSlot destSamples numDestChannels bo dummy j
               = Some (ptr_add p bo).
Proof.
  unfold takesCaller, expectedSlot.
  destruct (Z.of_nat j <? numDestChannels); [|discriminate]. simpl.
  destruct (destSamples !! j) as [[p|]|]; try discriminate. eauto.
Qed.

Lemma expectedSlot_dummy (destSamples : list (option ptr)) (numDestChannels bo : Z)
      (dummy : option ptr) (j : nat) :
  takesCaller destSamples numDestChannels j = false ->
  expectedSlot destSamples numDestChannels bo dummy j = dummy.
Proof.
  unfold takesCaller, expectedSlot.
  destruct (Z.of_nat j <? numDestChannels); [|reflexivity]. simpl.
  destruct (destSamples !! j) as [[p|]|]; try discriminate; reflexivity.
Qed.

(** X2: the pointers a read that reaches the accessor hands to it, one per
    channel of the reader.  For a channel the caller supplies with a
    non-null buffer, that buffer moved on by the byte offset; for every
    other channel, the storage of the scratch buffer, which is grown to the
    byte count of the read if it is smaller, is never shrunk and keeps its
    old contents.  That storage exists, and every pointer is non-null, when
    the byte count is positive or the scratch buffer has been in use before;
    in a read of no samples while the scratch buffer has never been used,
    the channels the caller does not supply get a null pointer.  The
    caller's memory is as it was when the accessor is called, and the read
    returns what the accessor reports. *)
Theorem accessor_gets_a_pointer_per_channel
        (r : ARAAudioSourceReader) (host : HostAudioReader)
        (destSamples : list (option ptr))
        (numDestChannels startOffsetInDestBuffer startSampleInFile numSamples : Z)
        (m : mem) :
  ReadWriteLock.writerActive (lock r) = false ->
  araHostReader r = Some host ->
  numDestChannels <= Z.of_nat (length destSamples) ->
  exists tmp m1,
    length tmp = length (tmpPtrs r)
    /\ (forall j, (j < length (tmpPtrs r))%nat ->
                  (forall p, takesCaller destSamples numDestChannels j = true ->
                             destSamples !! j = Some (Some p) ->
                             tmp !! j
                             = Some (Some (ptr_add p (byteCount r startOffsetInDestBuffer))))
                  /\ (takesCaller destSamples numDestChannels j = false ->
                      tmp !! j
                      = Some (if 0 <? Z.max (scratchSize m) (byteCount r numSamples)
                              then Some ((Scratch, 0) : ptr) else None)))
    /\ (0 < scratchSize m \/ 0 < byteCount r numSamples ->
        forall j, (j < length (tmpPtrs r))%nat -> exists q, tmp !! j = Some (Some q))
    /\ scratchSize m1
       = (if anyDummy destSamples numDestChannels (length (tmpPtrs r))
          then Z.max (scratchSize m) (byteCount r numSamples) else scratchSize m)
    /\ (forall b k, b <> Scratch \/ k < scratchSize m -> bytes m1 b k = bytes m b k)
    /\ readSamples r destSamples numDestChannels startOffsetInDestBuffer
                   startSampleInFile numSamples m
       = Returns ((readAudioSamples host startSampleInFile numSamples tmp (bytes m1)).1,
                  setTmpPtrs r tmp,
                  Mem (readAudioSamples host startSampleInFile numSamples tmp
                                        (bytes m1)).2 (scratchSize m1)).
Proof.
  intros Hw Hh Hl.
  pose proof (pointChannels_exact r destSamples numDestChannels
                startOffsetInDestBuffer numSamples m Hl) as Hp.
  assert (Hd : scratchData (growScratch (byteCount r numSamples) m)
               = if 0 <? Z.max (scratchSize m) (byteCount r numSamples)
                 then Some (Scratch, 0) else None).
  { unfold scratchData. rewrite growScratch_size. reflexivity. }
  assert (Hslot : forall j, (j < length (tmpPtrs r))%nat ->
             pointAll destSamples numDestChannels (byteCount r startOffsetInDestBuffer)
                      (scratchData (growScratch (byteCount r numSamples) m))
                      (seq 0 (length (tmpPtrs r))) (tmpPtrs r) !! j
             = Some (expectedSlot destSamples numDestChannels
                       (byteCount r startOffsetInDestBuffer)
                       (scratchData (growScratch (byteCount r numSamples) m)) j)).
  { intros j Hj. apply pointAll_lookup; [|exact Hj]. apply in_seq. lia. }
  exists (pointAll destSamples numDestChannels (byteCount r startOffsetInDestBuffer)
                   (scratchData (growScratch (byteCount r numSamples) m))
                   (seq 0 (length (tmpPtrs r))) (tmpPtrs r)),
         (if anyDummy destSamples numDestChannels (length (tmpPtrs r))
          then growScratch (byteCount r numSamples) m else m).
  split; [|split; [|split; [|split; [|split]]]].
  - apply pointAll_length.
  - intros j Hj. rewrite (Hslot j Hj). split.
    + intros p Ht Hq.
      destruct (expectedSlot_caller destSamples numDestChannels
                  (byteCount r startOffsetInDestBuffer)
                  (scratchData (growScratch (byteCount r numSamples) m)) j Ht)
        as (p' & Hq' & ->).
      congruence.
    + intros Ht. rewrite expectedSlot_dummy by exact Ht. rewrite Hd. reflexivity.
  - intros Hpos j Hj. rewrite (Hslot j Hj).
    destruct (takesCaller destSamples numDestChannels j) eqn:Ht.
    + destruct (expectedSlot_caller destSamples numDestChannels
                  (byteCount r startOffsetInDestBuffer)
                  (scratchData (growScratch (byteCount r numSamples) m)) j Ht)
        as (p' & _ & ->).
      eauto.
    + rewrite expectedSlot_dummy by exact Ht. rewrite Hd.
      destruct (Z.ltb_spec 0 (Z.max (scratchSize m) (byteCount r numSamples)));
        [eauto|lia].
  - destruct (anyDummy _ _ _); [apply growScratch_size|reflexivity].
  - intros b k Hk.
    destruct (anyDummy _ _ _); [apply growScratch_bytes, Hk|reflexivity].
  - exact (SourceReaderFacts.success_path r host _ _ _ _ _ _ _ Hw Hh Hp).
Qed.

Lemma accessor_gets_a_pointer_per_channel_witness :
  (exists tmp m1,
      tmp = [Some (Caller 0, 4); Some (Scratch, 0)]
      /\ scratchSize m1 = 8
      /\ readSamples (rdr (sampleWorld true stampHost)) sampleDest 3 1 0 2 sampleMem
         = Returns ((readAudioSamples stampHost 0 2 tmp (bytes m1)).1,
                    setTmpPtrs (rdr (sampleWorld true stampHost)) tmp,
                    Mem (readAudioSamples stampHost 0 2 tmp (bytes m1)).2
                        (scratchSize m1)))
  /\ (exists tmp m1,
         tmp = [Some (Caller 0, 0); None]
         /\ scratchSize m1 = 0
         /\ readSamples (rdr (sampleWorld true stampHost)) sampleDest 3 0 0 0 sampleMem
            = Returns ((readAudioSamples stampHost 0 0 tmp (bytes m1)).1,
                       setTmpPtrs (rdr (sampleWorld true stampHost)) tmp,
                       Mem (readAudioSamples stampHost 0 0 tmp (bytes m1)).2
                           (scratchSize m1))).
Proof.
  assert (Hlist : forall (tmp : list (option ptr)) (a b : option ptr),
             length tmp = 2%nat -> tmp !! 0%nat = Some a -> tmp !! 1%nat = Some b ->
             tmp = [a; b]).
  { intros [|x [|y [|z tmp]]] a b Hlen H0 H1; try discriminate.
    simpl in H0, H1. congruence. }
  split.
  - destruct (accessor_gets_a_pointer_per_channel
                (rdr (sampleWorld true stampHost)) stampHost sampleDest 3 1 0 2 sampleMem)
      as (tmp & m1 & Hlen & Hslots & _ & Hsize & _ & Hread).
    + reflexivity.
    + reflexivity.
    + vm_compute. discriminate.
    + exists tmp, m1. split; [|split; [exact Hsize|exact Hread]].
      apply Hlist.
      * exact Hlen.
      * apply (proj1 (Hslots 0%nat ltac:(vm_compute; lia)) (Caller 0, 0)); reflexivity.
      * apply (proj2 (Hslots 1%nat ltac:(vm_compute; lia))). reflexivity.
  - destruct (accessor_gets_a_pointer_per_channel
                (rdr (sampleWorld true stampHost)) stampHost sampleDest 3 0 0 0 sampleMem)
      as (tmp & m1 & Hlen & Hslots & _ & Hsize & _ & Hread).
    + reflexivity.
    + reflexivity.
    + vm_compute. discriminate.
    + exists tmp, m1. split; [|split; [exact Hsize|exact Hread]].
      apply Hlist.
      * exact Hlen.
      * apply (proj1 (Hslots 0%nat ltac:(vm_compute; lia)) (Caller 0, 0)); reflexivity.
      * apply (proj2 (Hslots 1%nat ltac:(vm_compute; lia))). reflexivity.
Defined.

(** Reads that reach the accessor, one after the other. *)

Lemma read_through_accessor (r : ARAAudioSourceReader) (host : HostAudioReader)
      (destSamples : list (option ptr)) (numDestChannels off pos n : Z) (m : mem) :
  ReadWriteLock.writerActive (lock r) = false ->
  araHostReader r = Some host ->
  numDestChannels <= Z.of_nat (length destSamples) ->
  exists ok tmp m',
    readSamples r destSamples numDestChannels off pos n m
    = Returns (ok, setTmpPtrs r tmp, m')
    /\ length tmp = length (tmpPtrs r).
Proof.
  intros Hw Hh Hl.
  pose proof (pointChannels_exact r destSamples numDestChannels off n m Hl) as Hp.
  eexists _, _, _. split.
  - apply (SourceReaderFacts.success_path r host _ _ _ _ _ _ _ Hw Hh Hp).
  - simpl. apply pointAll_length.
Qed.

(** X3: reads that reach the accessor can follow one another without end:
    each gives the read lock back, so after any number of them the lock, the
    accessor, the reference to the source and the host's objects are as
    before the first. *)
Theorem reads_through_accessor_compose
        (kSignalUnchanged : Z) (host : HostAudioReader) (cs : list readerCall)
        (w : World) (m : mem) :
  ReadWriteLock.writerActive (lock (rdr w)) = false ->
  araHostReader (rdr w) = Some host ->
  Forall isRead cs -> Forall longEnough cs ->
  exists w' m',
    runCalls kSignalUnchanged cs (w, m) = Returns (w', m')
    /\ lock (rdr w') = lock (rdr w)
    /\ araHostReader (rdr w') = Some host
    /\ audioSourceBeingRead (rdr w') = audioSourceBeingRead (rdr w)
    /\ length (tmpPtrs (rdr w')) = length (tmpPtrs (rdr w))
    /\ heap w' = heap w.
Proof.
  revert w m. induction cs as [|c cs IH]; intros w m Hw Hh Hr Hl.
  - exists w, m. simpl. repeat split; assumption.
  - inversion Hr as [|c' cs' Hrc Hrs]; subst. inversion Hl as [|c' cs' Hlc Hls]; subst.
    destruct c as [dest nch off pos n| | |]; try contradiction. simpl in Hlc.
    destruct (read_through_accessor (rdr w) host dest nch off pos n m Hw Hh Hlc)
      as (ok & tmp & m1 & Hread & Hlen).
    destruct (IH (setRdr w (setTmpPtrs (rdr w) tmp)) m1) as (w' & m' & Hrun & Hrest);
      [exact Hw|exact Hh|exact Hrs|exact Hls|].
    exists w', m'. simpl. rewrite Hread. simpl. split; [exact Hrun|].
    simpl in Hrest. destruct Hrest as (? & ? & ? & ? & ?).
    repeat split; congruence.
Qed.

Lemma reads_through_accessor_compose_witness :
  exists w' m',
    runCalls 1 sampleReads (sampleWorld true stampHost, sampleMem) = Returns (w', m')
    /\ lock (rdr w') = lock (rdr (sampleWorld true stampHost))
    /\ araHostReader (rdr w') = Some stampHost
    /\ audioSourceBeingRead (rdr w')
       = audioSourceBeingRead (rdr (sampleWorld true stampHost))
    /\ length (tmpPtrs (rdr w')) = length (tmpPtrs (rdr (sampleWorld true stampHost)))
    /\ heap w' = heap (sampleWorld true stampHost).
Proof.
  apply reads_through_accessor_compose.
  - reflexivity.
  - reflexivity.
  - repeat constructor.
  - constructor; [by_evaluation|]. constructor; [by_evaluation|]. constructor.
Defined.

(** *** The life cycle, step by step *)

(** X4: the constructor over a live source copies the format from the
    source (the channel count as an unsigned number), has one pointer slot
    per channel, registers the reader as a listener and leaves the other
    host objects alone; it has an accessor, the source's, exactly when the
    source has sample access enabled.  Over a null pointer it is
    undefined. *)
Theorem constructor_postcondition
        (h : nat -> option ARAAudioSource) (self a : nat) (use64BitSamples : bool)
        (s : ARAAudioSource) :
  h a = Some s ->
  (exists w,
      construct h self (Some a) use64BitSamples = Returns w
      /\ bitsPerSample (rdr w) = (if use64BitSamples then 64 else 32)
      /\ sampleRate (rdr w) = getSampleRate s
      /\ numChannels (rdr w) = to_uint32 (getChannelCount s)
      /\ lengthInSamples (rdr w) = getSampleCount s
      /\ Z.of_nat (length (tmpPtrs (rdr w))) = numChannels (rdr w)
      /\ araHostReader (rdr w)
         = (if isSampleAccessEnabled s then Some (hostAccess s) else None)
      /\ lock (rdr w) = ReadWriteLock.unlocked
      /\ audioSourceBeingRead (rdr w) = Some a
      /\ heap w a = Some (addListener self s)
      /\ forall b, b <> a -> heap w b = h b)
  /\ construct h self None use64BitSamples = Undefined.
Proof.
  intros Hs. split; [|reflexivity].
  assert (Hother : forall b, b <> a -> store h a (Some (addListener self s)) b = h b).
  { intros b Hb. unfold store. destruct (decide (b = a)); [contradiction|reflexivity]. }
  assert (Hnn : 0 <= to_uint32 (getChannelCount s))
    by (unfold to_uint32; apply Z.mod_pos_bound; lia).
  unfold construct, deref. rewrite Hs. simpl.
  destruct (isSampleAccessEnabled s) eqn:He.
  - unfold recreate, deref. simpl. rewrite SourceReaderFacts.store_same. simpl.
    eexists. split; [reflexivity|]. simpl. rewrite SourceReaderFacts.store_same.
    rewrite length_replicate.
    repeat split; try reflexivity; try lia; exact Hother.
  - eexists. split; [reflexivity|]. simpl. rewrite SourceReaderFacts.store_same.
    rewrite length_replicate.
    repeat split; try reflexivity; try lia; exact Hother.
Qed.

Lemma constructor_postcondition_witness :
  (exists w,
      construct (sampleHeap true stampHost) 1%nat (Some 7%nat) true = Returns w
      /\ bitsPerSample (rdr w) = (if true then 64 else 32)
      /\ sampleRate (rdr w) = getSampleRate (sampleSource true stampHost)
      /\ numChannels (rdr w) = to_uint32 (getChannelCount (sampleSource true stampHost))
      /\ lengthInSamples (rdr w) = getSampleCount (sampleSource true stampHost)
      /\ Z.of_nat (length (tmpPtrs (rdr w))) = numChannels (rdr w)
      /\ araHostReader (rdr w)
         = (if isSampleAccessEnabled (sampleSource true stampHost)
            then Some (hostAccess (sampleSource true stampHost)) else None)
      /\ lock (rdr w) = ReadWriteLock.unlocked
      /\ audioSourceBeingRead (rdr w) = Some 7%nat
      /\ heap w 7%nat = Some (addListener 1%nat (sampleSource true stampHost))
      /\ forall b, b <> 7%nat -> heap w b = sampleHeap true stampHost b)
  /\ construct (sampleHeap true stampHost) 1%nat None true = Undefined.
Proof. apply constructor_postcondition. reflexivity. Defined.

(** X5: the two halves of an enable or disable transition.  The first half
    takes the writer lock and, when access is being disabled, destroys the
    accessor at once; until the second half every read returns false with
    silence and leaves the reader as it is; the second half creates the
    source's accessor when access is being enabled and gives the lock
    back. *)
Theorem reads_during_transition
        (enable : bool) (w : World) (a : nat) (s : ARAAudioSource) :
  lock (rdr w) = ReadWriteLock.unlocked ->
  audioSourceBeingRead (rdr w) = Some a ->
  heap w a = Some s ->
  exists w1 w2,
    willEnableAudioSourceSamplesAccess enable w = Returns w1
    /\ ReadWriteLock.writerActive (lock (rdr w1)) = true
    /\ (enable = false -> araHostReader (rdr w1) = None)
    /\ (forall destSamples numDestChannels off pos n m,
           fits (rdr w) off -> fits (rdr w) n ->
           numDestChannels <= Z.of_nat (length destSamples) ->
           exists m',
             readSamples (rdr w1) destSamples numDestChannels off pos n m
             = Returns (false, rdr w1, m')
             /\ zero_filled (bitsPerSample (rdr w) / 8) destSamples numDestChannels
                            off n m m')
    /\ didEnableAudioSourceSamplesAccess enable w1 = Returns w2
    /\ lock (rdr w2) = ReadWriteLock.unlocked
    /\ araHostReader (rdr w2) = (if enable then Some (hostAccess s) else None)
    /\ heap w2 = heap w.
Proof.
  intros Hl Ha Hs.
  destruct enable;
    unfold willEnableAudioSourceSamplesAccess, enterWrite; rewrite Hl; simpl;
    eexists _, _;
    (split; [reflexivity|]); (split; [reflexivity|]);
    (split; [intros Hf; first [discriminate Hf | reflexivity]|]);
    (split;
     [intros dest nch off pos n m Ho Hn Hlen;
      match goal with
      | |- exists m', readSamples ?r _ _ _ _ _ _ = _ /\ _ =>
          destruct (contended_path r dest nch off pos n m) as (m' & Hr & Hz);
          [exact Ho|exact Hn|exact Hlen|reflexivity|];
          exists m'; split; [exact Hr|exact Hz]
      end|]);
    unfold didEnableAudioSourceSamplesAccess, recreate, deref; simpl;
    rewrite ?Ha; simpl; rewrite ?Hs; simpl; repeat split.
Qed.

Lemma reads_during_transition_witness :
  exists w1 w2,
    willEnableAudioSourceSamplesAccess false (sampleWorld true stampHost) = Returns w1
    /\ ReadWriteLock.writerActive (lock (rdr w1)) = true
    /\ (false = false -> araHostReader (rdr w1) = None)
    /\ (forall destSamples numDestChannels off pos n m,
           fits (rdr (sampleWorld true stampHost)) off ->
           fits (rdr (sampleWorld true stampHost)) n ->
           numDestChannels <= Z.of_nat (length destSamples) ->
           exists m',
             readSamples (rdr w1) destSamples numDestChannels off pos n m
             = Returns (false, rdr w1, m')
             /\ zero_filled (bitsPerSample (rdr (sampleWorld true stampHost)) / 8)
                            destSamples numDestChannels off n m m')
    /\ didEnableAudioSourceSamplesAccess false w1 = Returns w2
    /\ lock (rdr w2) = ReadWriteLock.unlocked
    /\ araHostReader (rdr w2)
       = (if false then Some (hostAccess (addListener 1%nat (sampleSource true stampHost)))
          else None)
    /\ heap w2 = heap (sampleWorld true stampHost).
Proof.
  apply (reads_during_transition false (sampleWorld true stampHost) 7%nat
           (addListener 1%nat (sampleSource true stampHost))); reflexivity.
Defined.

(** X6: from any state the reader can be in while its source is alive
    (also after a content update has taken the accessor away), the host's
    enable transition ends with the source's accessor in place, the one a
    reader constructed afresh at that moment would get; its disable
    transition ends with none. *)
Theorem enable_restores_accessor
        (kSignalUnchanged : Z) (a : nat) (w : World) (s : ARAAudioSource) :
  reachable kSignalUnchanged anyOp a w ->
  heap w a = Some s ->
  (exists w',
      hostStep kSignalUnchanged a (EnableSampleAccess true) w = Returns w'
      /\ araHostReader (rdr w') = Some (hostAccess s)
      /\ heap w' a = Some (setSampleAccessEnabled s true)
      /\ forall self use64BitSamples wf,
          construct (heap w') self (Some a) use64BitSamples = Returns wf ->
          araHostReader (rdr wf) = araHostReader (rdr w'))
  /\ (exists w',
         hostStep kSignalUnchanged a (EnableSampleAccess false) w = Returns w'
         /\ araHostReader (rdr w') = None
         /\ heap w' a = Some (setSampleAccessEnabled s false)).
Proof.
  intros Hr Hs.
  assert (Hset : settled false a w)
    by (eapply SourceReaderFacts.reachable_settled; [discriminate|exact Hr]).
  destruct Hset as [Hlock Hw]. rewrite Hs in Hw. destruct Hw as (Hsrc & Hlis & _ & _).
  assert (Hn : isListening a w = true)
    by (unfold isListening; rewrite Hs; apply bool_decide_eq_true; exact Hlis).
  assert (Hn' : forall e w1, heap w1 = heap w -> this w1 = this w ->
                             isListening a (setFlag a e w1) = true).
  { intros e w1 E1 E2. unfold isListening, setFlag. rewrite E1, Hs. simpl.
    rewrite SourceReaderFacts.store_same. simpl. rewrite E2.
    apply bool_decide_eq_true. exact Hlis. }
  split.
  - unfold hostStep. rewrite Hs. unfold notify. rewrite Hn.
    unfold willEnableAudioSourceSamplesAccess, enterWrite. rewrite Hlock. simpl.
    rewrite Hn' by reflexivity.
    unfold didEnableAudioSourceSamplesAccess, recreate, setFlag, deref. simpl.
    rewrite Hs. simpl. rewrite Hsrc. simpl. rewrite SourceReaderFacts.store_same. simpl.
    eexists. split; [reflexivity|]. simpl. rewrite SourceReaderFacts.store_same.
    split; [reflexivity|]. split; [reflexivity|].
    intros self u wf. unfold construct, deref. simpl.
    rewrite SourceReaderFacts.store_same. simpl.
    unfold recreate, deref. simpl. rewrite SourceReaderFacts.store_same. simpl.
    intros [= <-]. reflexivity.
  - unfold hostStep. rewrite Hs. unfold notify. rewrite Hn.
    unfold willEnableAudioSourceSamplesAccess, enterWrite. rewrite Hlock. simpl.
    rewrite Hn' by reflexivity.
    unfold didEnableAudioSourceSamplesAccess, setFlag. simpl. rewrite Hs. simpl.
    eexists. split; [reflexivity|]. simpl. rewrite SourceReaderFacts.store_same.
    split; reflexivity.
Qed.

Lemma enable_restores_accessor_witness :
  (exists w',
      hostStep 1 7%nat (EnableSampleAccess true) updatedWorld = Returns w'
      /\ araHostReader (rdr w')
         = Some (hostAccess (addListener 1%nat (sampleSource true stampHost)))
      /\ heap w' 7%nat
         = Some (setSampleAccessEnabled (addListener 1%nat (sampleSource true stampHost))
                                        true)
      /\ forall self use64BitSamples wf,
          construct (heap w') self (Some 7%nat) use64BitSamples = Returns wf ->
          araHostReader (rdr wf) = araHostReader (rdr w'))
  /\ (exists w',
         hostStep 1 7%nat (EnableSampleAccess false) updatedWorld = Returns w'
         /\ araHostReader (rdr w') = None
         /\ heap w' 7%nat
            = Some (setSampleAccessEnabled
                      (addListener 1%nat (sampleSource true stampHost)) false)).
Proof.
  apply enable_restores_accessor.
  - apply (reach_step 1 anyOp 7%nat (sampleWorld true stampHost) updatedWorld
             (UpdateContent 0));
      [apply SourceReaderFacts.sampleWorld_reachable|exact I|reflexivity].
  - reflexivity.
Defined.

(** X7: the destructor, the lock being free.  Over a live source it removes
    the reader from the source's listeners and destroys the accessor; once
    the source has announced its destruction it leaves the host's objects
    alone (the reference is null and is not followed). *)
Theorem destructor_lets_go (w : World) :
  lock (rdr w) = ReadWriteLock.unlocked ->
  (forall a s,
      audioSourceBeingRead (rdr w) = Some a -> heap w a = Some s ->
      exists w',
        destruct_reader w = Returns w'
        /\ notListening a w'
        /\ araHostReader (rdr w') = None
        /\ lock (rdr w') = ReadWriteLock.unlocked)
  /\ (audioSourceBeingRead (rdr w) = None ->
      exists w',
        destruct_reader w = Returns w'
        /\ heap w' = heap w
        /\ araHostReader (rdr w') = None
        /\ lock (rdr w') = ReadWriteLock.unlocked).
Proof.
  intros Hl. split.
  - intros a s Ha Hs. unfold destruct_reader, deref. rewrite Ha, Hs. simpl.
    unfold enterWrite. simpl. rewrite Hl. simpl.
    eexists. split; [reflexivity|]. split; [|split; reflexivity].
    intros s'. unfold notListening. simpl. rewrite SourceReaderFacts.store_same.
    intros [= <-]. unfold removeListener. simpl. rewrite list_elem_of_filter. tauto.
  - intros Ha. unfold destruct_reader. rewrite Ha. simpl.
    unfold enterWrite. rewrite Hl. simpl.
    eexists. repeat split.
Qed.

Lemma destructor_lets_go_witness :
  (forall a s,
      audioSourceBeingRead (rdr (sampleWorld true stampHost)) = Some a ->
      heap (sampleWorld true stampHost) a = Some s ->
      exists w',
        destruct_reader (sampleWorld true stampHost) = Returns w'
        /\ notListening a w'
        /\ araHostReader (rdr w') = None
        /\ lock (rdr w') = ReadWriteLock.unlocked)
  /\ (audioSourceBeingRead (rdr (sampleWorld true stampHost)) = None ->
      exists w',
        destruct_reader (sampleWorld true stampHost) = Returns w'
        /\ heap w' = heap (sampleWorld true stampHost)
        /\ araHostReader (rdr w') = None
        /\ lock (rdr w') = ReadWriteLock.unlocked).
Proof. apply destructor_lets_go. reflexivity. Defined.

End SourceReaderMore.

(** ** ARAPlaybackRegionReader *)

Module RegionReaderMore.
Import RegionReader RegionReaderSpec RegionReaderMoreSpec.

Section Construction.
Context {R : Type} `{ARAPlaybackRenderer R}.

Lemma visit_all (ps : list ARAPlaybackRegion) (r : ARAPlaybackRegionReader R) :
  playbackRenderer (foldl visitRegion r ps) = addAll (playbackRenderer r) ps
  /\ listening (foldl visitRegion r ps) = rev (map regionId ps) ++ listening r
  /\ calls (foldl visitRegion r ps)
     = calls r ++ flat_map (fun p => [RendererAddPlaybackRegion (regionId p);
                                      RegionAddListener (regionId p)]) ps
  /\ lock (foldl visitRegion r ps) = lock r
  /\ bitsPerSample (foldl visitRegion r ps) = bitsPerSample r.
Proof.
  revert r. induction ps as [|p ps IH]; intros r; simpl.
  - rewrite app_nil_r. auto.
  - destruct (IH (visitRegion r p)) as (Hr & Hl & Hc & Hk & Hb).
    rewrite Hr, Hl, Hc, Hk, Hb. unfold visitRegion. simpl.
    rewrite <- !app_assoc. auto.
Qed.

Lemma construct_parts (renderer : R) (regions : list ARAPlaybackRegion) :
  playbackRenderer (construct renderer regions)
  = prepareToPlay (sampleRate (construct renderer regions)) 16384
                  (addAll renderer regions)
  /\ listening (construct renderer regions) = rev (map regionId regions)
  /\ calls (construct renderer regions)
     = flat_map (fun p => [RendererAddPlaybackRegion (regionId p);
                           RegionAddListener (regionId p)]) regions
       ++ [RendererPrepareToPlay]
  /\ lock (construct renderer regions) = ReadWriteLock.unlocked
  /\ bitsPerSample (construct renderer regions) = 32.
Proof.
  unfold construct.
  set (r0 := {| bitsPerSample := 32 |}).
  destruct (visit_all regions r0) as (Hr & Hl & Hc & Hk & Hb).
  destruct (PrimFloat.eqb (sampleRate (foldl visitRegion r0 regions)) 0); simpl;
    rewrite Hr, Hl, Hc, Hk, Hb; simpl; rewrite app_nil_r; auto.
Qed.

(** X8: the constructor adds every region to the renderer, in the order
    supplied, registers with each of them, and only then prepares the
    renderer, for the rate it has chosen and blocks of 16384 samples; it
    reads 32-bit samples and its lock is free. *)
Theorem constructor_registers_regions (renderer : R) (regions : list ARAPlaybackRegion) :
  playbackRenderer (construct renderer regions)
  = prepareToPlay (sampleRate (construct renderer regions)) 16384
                  (addAll renderer regions)
  /\ listening (construct renderer regions) = rev (map regionId regions)
  /\ calls (construct renderer regions)
     = flat_map (fun p => [RendererAddPlaybackRegion (regionId p);
                           RegionAddListener (regionId p)]) regions
       ++ [RendererPrepareToPlay]
  /\ lock (construct renderer regions) = ReadWriteLock.unlocked
  /\ bitsPerSample (construct renderer regions) = 32.
Proof.
  unfold construct.
  set (r0 := {| bitsPerSample := 32 |}).
  destruct (visit_all regions r0) as (Hr & Hl & Hc & Hk & Hb).
  destruct (PrimFloat.eqb (sampleRate (foldl visitRegion r0 regions)) 0); simpl;
    rewrite Hr, Hl, Hc, Hk, Hb; simpl; rewrite app_nil_r; auto.
Qed.

Lemma visit_rate_kept (ps : list ARAPlaybackRegion) (r : ARAPlaybackRegionReader R) :
  PrimFloat.eqb (sampleRate r) 0%float = false ->
  sampleRate (foldl visitRegion r ps) = sampleRate r.
Proof.
  revert r. induction ps as [|p ps IH]; intros r Hr; simpl; [reflexivity|].
  rewrite IH; unfold visitRegion; simpl; rewrite Hr; auto.
Qed.

Lemma visit_first_rate (ps : list ARAPlaybackRegion) (r : ARAPlaybackRegionReader R) :
  PrimFloat.eqb (sampleRate r) 0%float = true ->
  match List.find yieldsRate ps with
  | Some p => sampleRate (foldl visitRegion r ps) = sourceSampleRate p
  | None => PrimFloat.eqb (sampleRate (foldl visitRegion r ps)) 0%float = true
  end.
Proof.
  revert r. induction ps as [|p ps IH]; intros r Hr; simpl; [exact Hr|].
  destruct (yieldsRate p) eqn:Hy.
  - rewrite visit_rate_kept; unfold visitRegion; simpl; rewrite Hr; [reflexivity|].
    unfold yieldsRate in Hy. apply negb_true_iff in Hy. exact Hy.
  - apply IH. unfold visitRegion. simpl. rewrite Hr.
    unfold yieldsRate in Hy. apply negb_false_iff in Hy. exact Hy.
Qed.

Lemma visit_channels (ps : list ARAPlaybackRegion) (r : ARAPlaybackRegionReader R) :
  numChannels (foldl visitRegion r ps)
  = foldl Z.max (numChannels r) (map (fun p => to_uint32 (sourceChannelCount p)) ps).
Proof.
  revert r. induction ps as [|p ps IH]; intros r; simpl; [reflexivity|].
  rewrite IH. unfold visitRegion. simpl. rewrite RegionReaderFacts.jmax_max. reflexivity.
Qed.

Lemma visit_length_floor (ps : list ARAPlaybackRegion) (r : ARAPlaybackRegionReader R) :
  lengthInSamples r <= lengthInSamples (foldl visitRegion r ps).
Proof.
  revert r. induction ps as [|p ps IH]; intros r; simpl; [lia|].
  etransitivity; [|apply IH]. unfold visitRegion. simpl.
  rewrite RegionReaderFacts.jmax_max. lia.
Qed.

Lemma foldl_max_floor (a : Z) (l : list Z) : a <= foldl Z.max a l.
Proof.
  revert a. induction l as [|x l IH]; intros a; simpl; [lia|].
  etransitivity; [|apply IH]. lia.
Qed.

(** X9: whatever the regions, also none at all: the rate of the first
    region whose source has a non-zero rate wins, regions before it and
    rates after it counting for nothing, and 44100 stands in when there is
    none; the channel count is the largest channel count read as unsigned,
    and at least 1; the length is never negative. *)
Theorem format_of_any_regions (renderer : R) (regions : list ARAPlaybackRegion) :
  sampleRate (construct renderer regions) = firstRate regions
  /\ numChannels (construct renderer regions)
     = foldl Z.max 1 (map (fun p => to_uint32 (sourceChannelCount p)) regions)
  /\ 1 <= numChannels (construct renderer regions)
  /\ 0 <= lengthInSamples (construct renderer regions).
Proof.
  unfold construct, firstRate.
  set (r0 := {| bitsPerSample := 32 |}).
  pose proof (visit_first_rate regions r0 eq_refl) as Hrate.
  pose proof (visit_channels regions r0) as Hch.
  pose proof (visit_length_floor regions r0) as Hlen.
  change (numChannels r0) with 1 in Hch. change (lengthInSamples r0) with 0 in Hlen.
  destruct (List.find yieldsRate regions) as [p|] eqn:Hf.
  - apply find_some in Hf. destruct Hf as [_ Hy].
    unfold yieldsRate in Hy. apply negb_true_iff in Hy.
    rewrite Hrate, Hy. simpl. rewrite Hrate, Hch.
    repeat split; [apply foldl_max_floor|exact Hlen].
  - rewrite Hrate. simpl. rewrite Hch.
    repeat split; [apply foldl_max_floor|exact Hlen].
Qed.

End Construction.

Section Reads.
Context {R : Type} `{ARAPlaybackRenderer R}.

(** The contended path. *)

Lemma clearChannels_spec (destSamples : list (option ptr)) (numSamples : Z)
      (idx : list nat) (m : mem) :
  0 <= numSamples ->
  (forall i, In i idx -> exists p, destSamples !! i = Some (Some p)) ->
  exists m',
    for_each idx (clearChannel destSamples numSamples) m = Returns m'
    /\ scratchSize m' = scratchSize m
    /\ forall b k, bytes m' b k =
                   if clearedFromStart destSamples numSamples idx b k
                   then Byte.x00 else bytes m b k.
Proof.
  intros Hn. revert m. induction idx as [|i idx IH]; intros m Hin.
  - exists m. simpl. auto.
  - destruct (Hin i (or_introl eq_refl)) as [p Hp].
    destruct (IH (Mem (zero_bytes (bytes m) p (4 * numSamples)) (scratchSize m)))
      as (m' & Hm' & Hs' & Hb').
    { intros j Hj. apply Hin. right. exact Hj. }
    assert (Hstep : clearChannel destSamples numSamples i m
                    = Returns (Mem (zero_bytes (bytes m) p (4 * numSamples))
                                   (scratchSize m))).
    { unfold clearChannel. rewrite Hp. unfold zeromem.
      destruct (Z.ltb_spec (4 * numSamples) 0); [lia|reflexivity]. }
    exists m'. cbn [for_each]. rewrite Hstep.
    split; [exact Hm'|]. split; [exact Hs'|]. simpl in Hb'.
    intros b k. rewrite Hb'. unfold clearedFromStart. simpl. rewrite Hp.
    unfold zero_bytes.
    destruct (in_span p (4 * numSamples) b k); simpl;
      destruct (existsb _ idx); reflexivity.
Qed.

Lemma clearChannels_null (destSamples : list (option ptr)) (numSamples : Z)
      (idx : list nat) (m : mem) :
  0 < numSamples ->
  (forall i, In i idx -> (i < length destSamples)%nat) ->
  (exists i, In i idx /\ destSamples !! i = Some None) ->
  for_each idx (clearChannel destSamples numSamples) m = Undefined.
Proof.
  intros Hn. revert m. induction idx as [|i idx IH]; intros m Hlt (j & Hj & Hnull).
  - contradiction.
  - cbn [for_each].
    destruct (lookup_lt_is_Some_2 destSamples i (Hlt i (or_introl eq_refl)))
      as [[p|] Hq].
    + assert (Hstep : clearChannel destSamples numSamples i m
                      = Returns (Mem (zero_bytes (bytes m) p (4 * numSamples))
                                     (scratchSize m))).
      { unfold clearChannel. rewrite Hq. unfold zeromem.
        destruct (Z.ltb_spec (4 * numSamples) 0); [lia|reflexivity]. }
      rewrite Hstep.
      apply (IH (Mem (zero_bytes (bytes m) p (4 * numSamples)) (scratchSize m)));
        [intros x Hx; apply Hlt; right; exact Hx|].
      destruct Hj as [->|Hj]; [congruence|]. exists j. auto.
    + assert (Hstep : clearChannel destSamples numSamples i m = Undefined).
      { unfold clearChannel. rewrite Hq.
        destruct (Z.ltb_spec 0 numSamples); [reflexivity|lia]. }
      rewrite Hstep. reflexivity.
Qed.

(** X10: a read of playback regions that finds the lock held by a writer
    returns false and leaves the reader as it was.  It clears the first
    [numSamples] frames of every destination channel, counted from the start
    of the buffer whatever the destination offset, and nothing else; a null
    channel, which the audio source reader skips, is written through here:
    with a positive count the call is undefined. *)
Theorem contended_region_read
        (turns : nat) (r : ARAPlaybackRegionReader R) (destSamples : list (option ptr))
        (numDestChannels startOffsetInDestBuffer startSampleInFile numSamples : Z)
        (m : mem) :
  ReadWriteLock.writerActive (lock r) = true ->
  numDestChannels <= Z.of_nat (length destSamples) ->
  (0 <= numSamples ->
   (forall i : nat, Z.of_nat i < numDestChannels ->
                    exists p, destSamples !! i = Some (Some p)) ->
   exists m',
     readSamples turns r destSamples numDestChannels startOffsetInDestBuffer
                 startSampleInFile numSamples m = Returns (false, r, m')
     /\ scratchSize m' = scratchSize m
     /\ SourceReaderSpec.zero_filled 4 destSamples numDestChannels 0 numSamples m m')
  /\ (0 < numSamples ->
      (exists i : nat, Z.of_nat i < numDestChannels /\ destSamples !! i = Some None) ->
      readSamples turns r destSamples numDestChannels startOffsetInDestBuffer
                  startSampleInFile numSamples m = Undefined).
Proof.
  intros Hw Hlen.
  assert (Hr : readSamples turns r destSamples numDestChannels startOffsetInDestBuffer
                           startSampleInFile numSamples m
               = match for_each (indices numDestChannels)
                                (clearChannel destSamples numSamples) m with
                 | Returns m' => Returns (false, r, m')
                 | Undefined => Undefined
                 | Hangs => Hangs
                 end).
  { unfold readSamples, ReadWriteLock.tryEnterRead. rewrite Hw. reflexivity. }
  split.
  - intros Hn Hnn.
    destruct (clearChannels_spec destSamples numSamples (indices numDestChannels) m Hn)
      as (m' & Hm' & Hs' & Hb').
    { intros i Hi. apply Hnn. apply SourceReaderFacts.In_indices. exact Hi. }
    exists m'. rewrite Hr, Hm'. split; [reflexivity|]. split; [exact Hs'|].
    split.
    + intros i p j Hi Hp Hj. rewrite Hb'.
      replace (clearedFromStart _ _ _ _ _) with true; [reflexivity|].
      symmetry. apply existsb_exists. exists i.
      split; [apply SourceReaderFacts.In_indices; exact Hi|].
      rewrite Hp. apply in_span_true. split; [reflexivity|]. lia.
    + intros b k Hout. rewrite Hb'.
      destruct (clearedFromStart _ _ _ _ _) eqn:E; [|reflexivity].
      apply existsb_exists in E. destruct E as (i & Hi & Hc).
      apply SourceReaderFacts.In_indices in Hi.
      destruct (destSamples !! i) as [[p|]|] eqn:Hp; try discriminate.
      specialize (Hout i p Hi Hp).
      apply in_span_true in Hc.
      assert (in_span (ptr_add p (4 * 0)) (4 * numSamples) b k = true)
        by (apply in_span_true; simpl; split; [tauto|lia]).
      congruence.
  - intros Hn (i & Hi & Hnull). rewrite Hr.
    rewrite clearChannels_null; [reflexivity|exact Hn| |].
    + intros j Hj. apply SourceReaderFacts.In_indices in Hj. lia.
    + exists i. split; [apply SourceReaderFacts.In_indices; exact Hi|exact Hnull].
Qed.

(** The blocks of the rendering loop. *)

Lemma blockSizes_formula (maxBlock n : Z) :
  0 <= n ->
  blockSizes maxBlock n
  = replicate (Z.to_nat (n / maxBlock)) maxBlock
    ++ (if n mod maxBlock =? 0 then [] else [n mod maxBlock]).
Proof.
  intros Hn. unfold blockSizes. destruct (Z.leb_spec n 0); [|reflexivity].
  assert (n = 0) by lia. subst. rewrite Zdiv_0_l, Zmod_0_l. reflexivity.
Qed.

Lemma blockSizes_step (maxBlock n : Z) :
  0 < maxBlock -> 0 < n ->
  blockSizes maxBlock n
  = Z.min n maxBlock :: blockSizes maxBlock (n - Z.min n maxBlock).
Proof.
  intros HM Hn. rewrite (blockSizes_formula maxBlock n) by lia.
  destruct (Z.lt_ge_cases n maxBlock) as [Hlt|Hge].
  - rewrite Z.min_l by lia. rewrite Z.sub_diag.
    rewrite Z.div_small, Z.mod_small by lia.
    destruct (Z.eqb_spec n 0); [lia|]. reflexivity.
  - rewrite Z.min_r by lia.
    rewrite (blockSizes_formula maxBlock (n - maxBlock)) by lia.
    replace (n - maxBlock) with (n + (-1) * maxBlock) by lia.
    rewrite Z.div_add, Z.mod_add by lia.
    assert (1 <= n / maxBlock) by (apply Z.div_le_lower_bound; lia).
    replace (Z.to_nat (n / maxBlock)) with (S (Z.to_nat (n / maxBlock + -1))) by lia.
    reflexivity.
Qed.

Lemma blockSizes_bounds (maxBlock : Z) (fuel : nat) (n : Z) :
  0 < maxBlock -> (Z.to_nat n <= fuel)%nat ->
  Forall (fun k => 0 < k <= maxBlock) (blockSizes maxBlock n)
  /\ sumZ (blockSizes maxBlock n) = Z.max 0 n.
Proof.
  intros HM. revert n. induction fuel as [|fuel IH]; intros n Hf.
  - assert (n <= 0) by lia. unfold blockSizes.
    destruct (Z.leb_spec n 0); [|lia]. split; [constructor|simpl; lia].
  - destruct (Z.le_gt_cases n 0).
    + unfold blockSizes. destruct (Z.leb_spec n 0); [|lia].
      split; [constructor|simpl; lia].
    + rewrite blockSizes_step by lia.
      destruct (IH (n - Z.min n maxBlock)) as [Hb Hs]; [lia|].
      split; [constructor; [lia|exact Hb]|].
      unfold sumZ in *. simpl. rewrite Hs. lia.
Qed.

Lemma renderLoop_layout (turns : nat) (destSamples : list (option ptr))
      (numDestChannels off pos n : Z) (rs : R) (bs : bytes_t) :
  keepsBlockSize -> 0 < getMaxSamplesPerBlock rs ->
  (length (blockSizes (getMaxSamplesPerBlock rs) n) <= turns)%nat ->
  renderLoop turns destSamples numDestChannels off pos n rs bs
  = Returns (foldl (renderBlock destSamples numDestChannels) (rs, bs)
                   (layout off pos (blockSizes (getMaxSamplesPerBlock rs) n))).
Proof.
  intros Hkeep. revert off pos n rs bs.
  induction turns as [|t IH]; intros off pos n rs bs HM Hf;
    (destruct (Z.le_gt_cases n 0) as [Hn|Hn];
     [rewrite RegionReaderFacts.renderLoop_done by exact Hn;
      unfold blockSizes; destruct (Z.leb_spec n 0); [reflexivity|lia]|]).
  - rewrite (blockSizes_step (getMaxSamplesPerBlock rs) n) in Hf by lia.
    simpl in Hf. lia.
  - rewrite RegionReaderFacts.renderLoop_turn by exact Hn.
    rewrite RegionReaderFacts.jmin_min.
    rewrite (blockSizes_step (getMaxSamplesPerBlock rs) n) in Hf |- * by lia.
    set (k := Z.min n (getMaxSamplesPerBlock rs)) in *.
    cbn [layout foldl]. rewrite IH.
    + unfold renderBlock at 2. cbn [fst snd]. rewrite Hkeep. reflexivity.
    + rewrite Hkeep. exact HM.
    + rewrite Hkeep. simpl in Hf. lia.
Qed.

(** X11: a read that takes the lock cuts the span into blocks of the
    renderer's maximum block size, the last one holding the rest, and calls
    [processBlock] once per block, in order, each block starting in the
    destination and in the file where the one before ended, and returns true
    after as many turns as there are blocks; the sizes are positive, none
    exceeds the maximum, and they add up to the samples asked for (to none
    when the count is not positive). *)
Theorem read_renders_block_layout
        (turns : nat) (r : ARAPlaybackRegionReader R) (destSamples : list (option ptr))
        (numDestChannels startOffsetInDestBuffer startSampleInFile numSamples : Z)
        (m : mem) :
  ReadWriteLock.writerActive (lock r) = false ->
  keepsBlockSize ->
  0 < getMaxSamplesPerBlock (playbackRenderer r) ->
  (length (blockSizes (getMaxSamplesPerBlock (playbackRenderer r)) numSamples)
   <= turns)%nat ->
  readSamples turns r destSamples numDestChannels startOffsetInDestBuffer
              startSampleInFile numSamples m
  = Returns
      (true,
       setRenderer r
         (foldl (renderBlock destSamples numDestChannels) (playbackRenderer r, bytes m)
                (layout startOffsetInDestBuffer startSampleInFile
                        (blockSizes (getMaxSamplesPerBlock (playbackRenderer r))
                                    numSamples))).1,
       Mem (foldl (renderBlock destSamples numDestChannels) (playbackRenderer r, bytes m)
                  (layout startOffsetInDestBuffer startSampleInFile
                          (blockSizes (getMaxSamplesPerBlock (playbackRenderer r))
                                      numSamples))).2
           (scratchSize m))
  /\ Forall (fun k => 0 < k <= getMaxSamplesPerBlock (playbackRenderer r))
            (blockSizes (getMaxSamplesPerBlock (playbackRenderer r)) numSamples)
  /\ sumZ (blockSizes (getMaxSamplesPerBlock (playbackRenderer r)) numSamples)
     = Z.max 0 numSamples.
Proof.
  intros Hw Hkeep HM Ht. split.
  - rewrite RegionReaderFacts.readSamples_unlocked by exact Hw.
    rewrite renderLoop_layout by assumption. reflexivity.
  - apply (blockSizes_bounds _ (Z.to_nat numSamples)); [exact HM|lia].
Qed.



End Reads.

Lemma contended_region_read_witness :
  (0 <= 1 ->
   (forall i : nat, Z.of_nat i < 2 -> exists p, stereoDest !! i = Some (Some p)) ->
   exists m',
     readSamples 1 heldReader stereoDest 2 1 0 1 ffMem = Returns (false, heldReader, m')
     /\ scratchSize m' = scratchSize ffMem
     /\ SourceReaderSpec.zero_filled 4 stereoDest 2 0 1 ffMem m')
  /\ (0 < 1 ->
      (exists i : nat, Z.of_nat i < 2 /\ stereoDest !! i = Some None) ->
      readSamples 1 heldReader stereoDest 2 1 0 1 ffMem = Undefined).
Proof.
  apply (contended_region_read 1 heldReader stereoDest 2 1 0 1 ffMem).
  - reflexivity.
  - by_evaluation.
Defined.

Lemma read_renders_block_layout_witness :
  readSamples 3 sampleReader stereoDest 2 1 0 40000 ffMem
  = Returns
      (true,
       setRenderer sampleReader
         (foldl (renderBlock stereoDest 2) (playbackRenderer sampleReader, bytes ffMem)
                (layout 1 0 (blockSizes (getMaxSamplesPerBlock
                                           (playbackRenderer sampleReader)) 40000))).1,
       Mem (foldl (renderBlock stereoDest 2) (playbackRenderer sampleReader, bytes ffMem)
                  (layout 1 0 (blockSizes (getMaxSamplesPerBlock
                                             (playbackRenderer sampleReader)) 40000))).2
           (scratchSize ffMem))
  /\ Forall (fun k => 0 < k <= getMaxSamplesPerBlock (playbackRenderer sampleReader))
            (blockSizes (getMaxSamplesPerBlock (playbackRenderer sampleReader)) 40000)
  /\ sumZ (blockSizes (getMaxSamplesPerBlock (playbackRenderer sampleReader)) 40000)
     = Z.max 0 40000.
Proof.
  apply read_renders_block_layout.
  - reflexivity.
  - exact RegionReaderFacts.stamp_keepsBlockSize.
  - vm_compute. reflexivity.
  - vm_compute. lia.
Defined.


Section Regions.
Context {R : Type} `{ARAPlaybackRenderer R}.

(** X13: the handler for a region about to be destroyed.  For a region the
    renderer does not hold it does nothing, and does not wait for the lock.
    For one it holds, the lock being free, it takes the writer lock, removes
    the reader from the region's listeners, has the renderer release its
    resources, removes the region from the renderer, and gives the lock
    back; the format is left as it was computed by the constructor. *)
Theorem region_destroyed_handler (p : nat) (r : ARAPlaybackRegionReader R) :
  (p ∉ getPlaybackRegions (playbackRenderer r) ->
   willDestroyPlaybackRegion p r = Returns r)
  /\ (p ∈ getPlaybackRegions (playbackRenderer r) ->
      lock r = ReadWriteLock.unlocked ->
      exists r',
        willDestroyPlaybackRegion p r = Returns r'
        /\ calls r' = calls r ++ [LockEnterWrite; RegionRemoveListener p;
                                  RendererReleaseResources;
                                  RendererRemovePlaybackRegion p; LockExitWrite]
        /\ playbackRenderer r'
           = removePlaybackRegion p (releaseResources (playbackRenderer r))
        /\ (p ∉ listening r')
        /\ (forall x, x <> p -> (x ∈ listening r' <-> x ∈ listening r))
        /\ lock r' = ReadWriteLock.unlocked
        /\ sampleRate r' = sampleRate r /\ numChannels r' = numChannels r
        /\ lengthInSamples r' = lengthInSamples r).
Proof.
  unfold willDestroyPlaybackRegion. split.
  - intros Hp. rewrite bool_decide_eq_false_2 by exact Hp. reflexivity.
  - intros Hp Hl. rewrite bool_decide_eq_true_2 by exact Hp.
    unfold enterWrite. rewrite Hl. simpl.
    eexists. split; [reflexivity|]. simpl.
    split; [rewrite <- !app_assoc; reflexivity|]. split; [reflexivity|].
    split; [rewrite list_elem_of_filter; tauto|].
    split; [intros x Hx; rewrite list_elem_of_filter; tauto|].
    repeat split.
Qed.

Lemma remove_listeners (ps : list nat) (b : ARAPlaybackRegionReader R) :
  (forall x, x ∈ listening (foldl (fun acc p => regionRemoveListener p acc) b ps)
             <-> x ∈ listening b /\ x ∉ ps)
  /\ calls (foldl (fun acc p => regionRemoveListener p acc) b ps)
     = calls b ++ map RegionRemoveListener ps
  /\ lock (foldl (fun acc p => regionRemoveListener p acc) b ps) = lock b
  /\ playbackRenderer (foldl (fun acc p => regionRemoveListener p acc) b ps)
     = playbackRenderer b.
Proof.
  revert b. induction ps as [|p ps IH]; intros b; simpl.
  - rewrite app_nil_r. split; [|auto].
    intros x. split; [intros Hx; split; [exact Hx|apply not_elem_of_nil]|tauto].
  - destruct (IH (regionRemoveListener p b)) as (Hm & Hc & Hl & Hr).
    rewrite Hc, Hl, Hr. simpl. rewrite <- app_assoc.
    split; [|auto].
    intros x. rewrite Hm. simpl. rewrite list_elem_of_filter, elem_of_cons. tauto.
Qed.

(** X14: the destructor, the lock being free and the reader listening to
    exactly the regions its renderer holds: under the writer lock it removes
    the reader from the listeners of each of the renderer's regions, in the
    renderer's order, and is left listening to none. *)
Theorem destructor_deregisters (r : ARAPlaybackRegionReader R) :
  lock r = ReadWriteLock.unlocked ->
  regionsAgree r ->
  exists r',
    ReaderEnd.destroyRegionReader r = Returns r'
    /\ listening r' = []
    /\ calls r' = calls r ++ [LockEnterWrite]
                  ++ map RegionRemoveListener (getPlaybackRegions (playbackRenderer r))
                  ++ [LockExitWrite]
    /\ lock r' = ReadWriteLock.unlocked.
Proof.
  intros Hl Hagree. unfold ReaderEnd.destroyRegionReader, enterWrite.
  rewrite Hl. simpl.
  set (b := record LockEnterWrite _).
  destruct (remove_listeners (getPlaybackRegions (playbackRenderer r)) b)
    as (Hm & Hc & Hk & Hr).
  eexists. split; [reflexivity|]. simpl. rewrite Hc. simpl.
  split; [|split; [rewrite <- !app_assoc; reflexivity|]].
  2:{ unfold ReadWriteLock.exitWrite. rewrite Hk. reflexivity. }
  assert (Hnil : forall l : list nat, (forall x, x ∉ l) -> l = []).
  { intros [|y l] Hn; [reflexivity|]. exfalso. apply (Hn y). left. }
  apply Hnil. intros x Hx. apply Hm in Hx. destruct Hx as [Hx Hn].
  apply Hn. apply Hagree. exact Hx.
Qed.

Lemma addAll_regions `{!KeepsRegions R} (ps : list ARAPlaybackRegion) (rs : R) (x : nat) :
  x ∈ getPlaybackRegions (addAll rs ps)
  <-> In x (map regionId ps) \/ x ∈ getPlaybackRegions rs.
Proof.
  revert rs. induction ps as [|p ps IH]; intros rs; simpl; [tauto|].
  unfold addAll in *. simpl. rewrite IH, regions_add. intuition auto.
Qed.

Lemma construct_agrees `{!KeepsRegions R} (renderer : R) (regions : list ARAPlaybackRegion) :
  getPlaybackRegions renderer = [] ->
  regionsAgree (construct renderer regions).
Proof.
  intros He x. destruct (construct_parts renderer regions) as (Hr & Hl & _).
  rewrite Hr, Hl, regions_prepare, addAll_regions, He.
  rewrite list_elem_of_In, <- in_rev, elem_of_nil. tauto.
Qed.

Lemma renderLoop_regions `{!KeepsRegions R} (turns : nat) (destSamples : list (option ptr))
      (numDestChannels off pos n : Z) (rs : R) (bs : bytes_t) (out : R * bytes_t) :
  renderLoop turns destSamples numDestChannels off pos n rs bs = Returns out ->
  getPlaybackRegions out.1 = getPlaybackRegions rs.
Proof.
  revert off pos n rs bs. induction turns as [|t IH]; intros off pos n rs bs; simpl.
  - destruct (n <=? 0); [|discriminate]. intros [= <-]. reflexivity.
  - destruct (n <=? 0); [intros [= <-]; reflexivity|].
    intros Hr. apply IH in Hr. rewrite Hr. apply regions_process.
Qed.

Lemma readSamples_agrees `{!KeepsRegions R} (turns : nat) (r : ARAPlaybackRegionReader R)
      (destSamples : list (option ptr)) (numDestChannels off pos n : Z) (m : mem)
      (res : bool * ARAPlaybackRegionReader R * mem) :
  regionsAgree r ->
  readSamples turns r destSamples numDestChannels off pos n m = Returns res ->
  regionsAgree res.1.2.
Proof.
  intros Ha. unfold readSamples.
  destruct (negb (ReadWriteLock.tryEnterRead (lock r)).1).
  - destruct (for_each _ _ _); simpl; try discriminate. intros [= <-]. exact Ha.
  - destruct (renderLoop _ _ _ _ _ _ _ _) as [out| |] eqn:E; simpl; try discriminate.
    intros [= <-]. simpl. apply renderLoop_regions in E. simpl in E.
    intros x. simpl. rewrite E. apply Ha.
Qed.

Lemma record_agrees (c : call) (b : ARAPlaybackRegionReader R) :
  regionsAgree b -> regionsAgree (record c b).
Proof. intros Ha x. apply Ha. Qed.

Lemma removal_agrees `{!KeepsRegions R} (p : nat) (b b1 : ARAPlaybackRegionReader R) :
  regionsAgree b -> enterWrite b = Returns b1 ->
  regionsAgree (exitWrite (rendererRemove p (rendererRelease (regionRemoveListener p b1)))).
Proof.
  intros Ha. unfold enterWrite.
  destruct (ReadWriteLock.enterWrite (lock b)); simpl; try discriminate.
  intros [= <-] x. simpl.
  rewrite regions_remove, regions_release, list_elem_of_filter, (Ha x). tauto.
Qed.

Lemma addition_agrees `{!KeepsRegions R} (p : nat) (b b1 : ARAPlaybackRegionReader R) :
  regionsAgree b -> enterWrite b = Returns b1 ->
  regionsAgree (exitWrite (rendererAdd p (rendererRelease (regionAddListener p b1)))).
Proof.
  intros Ha. unfold enterWrite.
  destruct (ReadWriteLock.enterWrite (lock b)); simpl; try discriminate.
  intros [= <-] x. simpl.
  rewrite regions_add, regions_release, elem_of_cons, (Ha x). tauto.
Qed.

Lemma willDestroyPlaybackRegion_agrees `{!KeepsRegions R} (p : nat)
      (b b' : ARAPlaybackRegionReader R) :
  regionsAgree b -> willDestroyPlaybackRegion p b = Returns b' -> regionsAgree b'.
Proof.
  intros Ha. unfold willDestroyPlaybackRegion.
  destruct (bool_decide _); [|intros [= <-]; exact Ha].
  destruct (enterWrite b) as [b1| |] eqn:E; simpl; try discriminate.
  intros [= <-]. eapply removal_agrees; eauto.
Qed.

Lemma readSamples_record (turns : nat) (c : call) (b : ARAPlaybackRegionReader R)
      (destSamples : list (option ptr)) (numDestChannels off pos n : Z) (m : mem) :
  readSamples turns (record c b) destSamples numDestChannels off pos n m
  = match readSamples turns b destSamples numDestChannels off pos n m with
    | Returns res => Returns (res.1.1, record c res.1.2, res.2)
    | Undefined => Undefined
    | Hangs => Hangs
    end.
Proof.
  unfold readSamples. simpl.
  destruct (negb (ReadWriteLock.tryEnterRead (lock b)).1).
  - destruct (for_each _ _ _); reflexivity.
  - destruct (renderLoop _ _ _ _ _ _ _ _); reflexivity.
Qed.

End Regions.

Lemma stamp_keepsRegions : KeepsRegions StampRenderer.
Proof.
  split; simpl; try reflexivity.
  - intros p rs x. rewrite elem_of_app, list_elem_of_singleton. tauto.
  - intros p rs x. rewrite list_elem_of_filter. tauto.
Qed.

Lemma destructor_deregisters_witness :
  exists r',
    ReaderEnd.destroyRegionReader sampleReader = Returns r'
    /\ listening r' = []
    /\ calls r' = calls sampleReader ++ [LockEnterWrite]
                  ++ map RegionRemoveListener
                         (getPlaybackRegions (playbackRenderer sampleReader))
                  ++ [LockExitWrite]
    /\ lock r' = ReadWriteLock.unlocked.
Proof.
  apply destructor_deregisters.
  - reflexivity.
  - apply (construct_agrees (KeepsRegions0 := stamp_keepsRegions)). reflexivity.
Defined.

End RegionReaderMore.

(** ** ARARegionSequenceReader *)

Module SequenceReaderMore.
Import SequenceReader SequenceReaderSpec SequenceReaderMoreSpec.
Import RegionReaderMoreSpec.

Section Sequences.
Context {R : Type} `{RegionReader.ARAPlaybackRenderer R}.

(** X15: invariant I3 of the data model, for a renderer that keeps its set
    of regions as asked and holds none when it is handed over: after the
    constructor, and then after every notification and every read, the
    reader listens to exactly the regions its renderer holds. *)
Theorem listeners_match_renderer `{!KeepsRegions R}
        (renderer : R) (r : ARARegionSequenceReader R) :
  RegionReader.getPlaybackRegions renderer = [] ->
  reached renderer r ->
  regionsAgree (base r).
Proof.
  intros He Hr. induction Hr as [seqs ptr r Hc|r r' e Hr IH Hd].
  - unfold construct in Hc. destruct (deref seqs ptr) as [s| |]; try discriminate.
    simpl in Hc. injection Hc as <-. simpl.
    apply RegionReaderMore.record_agrees, RegionReaderMore.construct_agrees, He.
  - destruct e as [p|seqs region|seqs region|seqs|turns dest nch off pos n m];
      simpl in Hd.
    + destruct (RegionReader.willDestroyPlaybackRegion p (base r)) as [b| |] eqn:E;
        try discriminate.
      injection Hd as <-. simpl.
      eapply RegionReaderMore.willDestroyPlaybackRegion_agrees; eauto.
    + unfold didAddPlaybackRegionToRegionSequence in Hd.
      destruct (deref seqs (sequence r)) as [s| |]; try discriminate. simpl in Hd.
      destruct (contains _ _); [|injection Hd as <-; exact IH].
      destruct (RegionReader.enterWrite (base r)) as [b1| |] eqn:E; try discriminate.
      simpl in Hd. injection Hd as <-. simpl.
      eapply RegionReaderMore.addition_agrees; eauto.
    + unfold willRemovePlaybackRegionFromRegionSequence in Hd.
      destruct (deref seqs (sequence r)) as [s| |]; try discriminate. simpl in Hd.
      destruct (contains _ _); [|injection Hd as <-; exact IH].
      destruct (RegionReader.enterWrite (base r)) as [b1| |] eqn:E; try discriminate.
      simpl in Hd. injection Hd as <-. simpl.
      eapply RegionReaderMore.removal_agrees; eauto.
    + unfold willDestroyRegionSequence in Hd.
      destruct (deref seqs (sequence r)) as [s| |]; try discriminate. simpl in Hd.
      injection Hd as <-. simpl. apply RegionReaderMore.record_agrees, IH.
    + destruct (RegionReader.readSamples turns (base r) dest nch off pos n m)
        as [res| |] eqn:E; try discriminate.
      injection Hd as <-. simpl.
      eapply RegionReaderMore.readSamples_agrees; eauto.
Qed.

Lemma added_parts (seqs : nat -> option ARARegionSequence)
      (playbackRegion : RegionReader.ARAPlaybackRegion)
      (r : ARARegionSequenceReader R) (s : ARARegionSequence) :
  deref seqs (sequence r) = Returns s ->
  contains (getPlaybackRegions s) playbackRegion = true ->
  RegionReader.lock (base r) = ReadWriteLock.unlocked ->
  exists r1,
    didAddPlaybackRegionToRegionSequence seqs playbackRegion r = Returns r1
    /\ RegionReader.listening (base r1)
       = RegionReader.regionId playbackRegion :: RegionReader.listening (base r)
    /\ RegionReader.playbackRenderer (base r1)
       = RegionReader.addPlaybackRegion (RegionReader.regionId playbackRegion)
           (RegionReader.releaseResources (RegionReader.playbackRenderer (base r)))
    /\ RegionReader.lock (base r1) = ReadWriteLock.unlocked
    /\ sequence r1 = sequence r.
Proof.
  intros Hs Hc Hl. unfold didAddPlaybackRegionToRegionSequence.
  rewrite Hs. simpl. rewrite Hc.
  unfold RegionReader.enterWrite. rewrite Hl. simpl.
  eexists. split; [reflexivity|]. simpl. repeat split.
Qed.

Lemma removed_parts (seqs : nat -> option ARARegionSequence)
      (playbackRegion : RegionReader.ARAPlaybackRegion)
      (r : ARARegionSequenceReader R) (s : ARARegionSequence) :
  deref seqs (sequence r) = Returns s ->
  contains (getPlaybackRegions s) playbackRegion = true ->
  RegionReader.lock (base r) = ReadWriteLock.unlocked ->
  exists r2,
    willRemovePlaybackRegionFromRegionSequence seqs playbackRegion r = Returns r2
    /\ RegionReader.calls (base r2)
       = RegionReader.calls (base r)
         ++ [RegionReader.LockEnterWrite;
             RegionReader.RegionRemoveListener (RegionReader.regionId playbackRegion);
             RegionReader.RendererReleaseResources;
             RegionReader.RendererRemovePlaybackRegion (RegionReader.regionId playbackRegion);
             RegionReader.LockExitWrite]
    /\ RegionReader.listening (base r2)
       = filter (fun x => x <> RegionReader.regionId playbackRegion)
                (RegionReader.listening (base r))
    /\ RegionReader.playbackRenderer (base r2)
       = RegionReader.removePlaybackRegion (RegionReader.regionId playbackRegion)
           (RegionReader.releaseResources (RegionReader.playbackRenderer (base r)))
    /\ RegionReader.lock (base r2) = ReadWriteLock.unlocked
    /\ sequence r2 = sequence r.
Proof.
  intros Hs Hc Hl. unfold willRemovePlaybackRegionFromRegionSequence.
  rewrite Hs. simpl. rewrite Hc.
  unfold RegionReader.enterWrite. rewrite Hl. simpl.
  eexists. split; [reflexivity|]. simpl.
  split; [rewrite <- !app_assoc; reflexivity|]. repeat split.
Qed.

(** X16: a region added to the sequence and then removed from it.  Both
    handlers run under the writer lock and give it back; the removal undoes
    the registration of the addition, so a reader that was not listening to
    the region is left listening to what it listened to before, and the
    renderer, having released its resources twice, holds the regions it held
    apart from that one. *)
Theorem add_then_remove
        (seqs : nat -> option ARARegionSequence)
        (playbackRegion : RegionReader.ARAPlaybackRegion)
        (r : ARARegionSequenceReader R) (s : ARARegionSequence) :
  deref seqs (sequence r) = Returns s ->
  contains (getPlaybackRegions s) playbackRegion = true ->
  RegionReader.lock (base r) = ReadWriteLock.unlocked ->
  exists r1 r2,
    didAddPlaybackRegionToRegionSequence seqs playbackRegion r = Returns r1
    /\ willRemovePlaybackRegionFromRegionSequence seqs playbackRegion r1 = Returns r2
    /\ newCalls r1 r2
       = [RegionReader.LockEnterWrite;
          RegionReader.RegionRemoveListener (RegionReader.regionId playbackRegion);
          RegionReader.RendererReleaseResources;
          RegionReader.RendererRemovePlaybackRegion (RegionReader.regionId playbackRegion);
          RegionReader.LockExitWrite]
    /\ RegionReader.listening (base r2)
       = filter (fun x => x <> RegionReader.regionId playbackRegion)
                (RegionReader.listening (base r))
    /\ (RegionReader.regionId playbackRegion ∉ RegionReader.listening (base r) ->
        RegionReader.listening (base r2) = RegionReader.listening (base r))
    /\ RegionReader.playbackRenderer (base r2)
       = RegionReader.removePlaybackRegion (RegionReader.regionId playbackRegion)
           (RegionReader.releaseResources
              (RegionReader.addPlaybackRegion (RegionReader.regionId playbackRegion)
                 (RegionReader.releaseResources (RegionReader.playbackRenderer (base r)))))
    /\ (KeepsRegions R ->
        forall x, x ∈ RegionReader.getPlaybackRegions (RegionReader.playbackRenderer (base r2))
                  <-> x <> RegionReader.regionId playbackRegion
                      /\ x ∈ RegionReader.getPlaybackRegions
                             (RegionReader.playbackRenderer (base r)))
    /\ RegionReader.lock (base r2) = ReadWriteLock.unlocked
    /\ sequence r2 = sequence r.
Proof.
  intros Hs Hc Hl.
  destruct (added_parts seqs playbackRegion r s Hs Hc Hl)
    as (r1 & Hadd & Hl1 & Hr1 & Hk1 & Hs1).
  destruct (removed_parts seqs playbackRegion r1 s) as (r2 & Hrem & Hc2 & Hl2 & Hr2 & Hk2 & Hs2);
    [rewrite Hs1; exact Hs|exact Hc|exact Hk1|].
  exists r1, r2. split; [exact Hadd|]. split; [exact Hrem|].
  assert (Hf : filter (fun x => x <> RegionReader.regionId playbackRegion)
                      (RegionReader.regionId playbackRegion
                         :: RegionReader.listening (base r))
               = filter (fun x => x <> RegionReader.regionId playbackRegion)
                        (RegionReader.listening (base r))).
  { apply filter_cons_False. intros Hn. apply Hn. reflexivity. }
  split; [unfold newCalls; rewrite Hc2; apply drop_app_length|].
  split; [rewrite Hl2, Hl1; exact Hf|].
  split.
  { intros Hn. rewrite Hl2, Hl1, Hf. clear Hf Hl1 Hl2.
    induction (RegionReader.listening (base r)) as [|y l IHl]; [reflexivity|].
    rewrite filter_cons_True.
    - f_equal. apply IHl. intros Hy. apply Hn. right. exact Hy.
    - intros ->. apply Hn. left. }
  split; [rewrite Hr2, Hr1; reflexivity|].
  split; [|split; [exact Hk2|congruence]].
  intros Hk x. rewrite Hr2, Hr1.
  rewrite regions_remove, regions_release, regions_add, regions_release.
  intuition congruence.
Qed.

(** X17: the sequence being destroyed.  The handler clears the reference
    to the sequence and leaves the format, the renderer, the lock and the
    listeners alone, so that every read gives the result and the memory it
    would have given before.  From then on a membership notification would
    follow a null pointer, while the destructor, the lock being free, does
    not follow it, whatever has become of the host's sequences. *)
Theorem sequence_destroyed
        (seqs : nat -> option ARARegionSequence)
        (r : ARARegionSequenceReader R) (s : ARARegionSequence) :
  deref seqs (sequence r) = Returns s ->
  exists r1,
    willDestroyRegionSequence seqs r = Returns r1
    /\ sequence r1 = None
    /\ RegionReader.playbackRenderer (base r1) = RegionReader.playbackRenderer (base r)
    /\ RegionReader.lock (base r1) = RegionReader.lock (base r)
    /\ RegionReader.listening (base r1) = RegionReader.listening (base r)
    /\ (RegionReader.sampleRate (base r1), RegionReader.numChannels (base r1),
        RegionReader.lengthInSamples (base r1))
       = (RegionReader.sampleRate (base r), RegionReader.numChannels (base r),
          RegionReader.lengthInSamples (base r))
    /\ (forall turns destSamples numDestChannels off pos n m,
           match RegionReader.readSamples turns (base r) destSamples numDestChannels
                                          off pos n m with
           | Returns res =>
               exists b',
                 RegionReader.readSamples turns (base r1) destSamples numDestChannels
                                          off pos n m
                 = Returns (res.1.1, b', res.2)
           | Undefined =>
               RegionReader.readSamples turns (base r1) destSamples numDestChannels
                                        off pos n m = Undefined
           | Hangs =>
               RegionReader.readSamples turns (base r1) destSamples numDestChannels
                                        off pos n m = Hangs
           end)
    /\ (forall seqs' region,
           didAddPlaybackRegionToRegionSequence seqs' region r1 = Undefined
           /\ willRemovePlaybackRegionFromRegionSequence seqs' region r1 = Undefined)
    /\ (forall seqs',
           RegionReader.lock (base r) = ReadWriteLock.unlocked ->
           exists r2, ReaderEnd.destroySequenceReader seqs' r1 = Returns r2).
Proof.
  intros Hs. unfold willDestroyRegionSequence. rewrite Hs. simpl.
  eexists. split; [reflexivity|]. simpl.
  repeat (split; [reflexivity|]).
  split.
  { intros turns dest nch off pos n m. rewrite RegionReaderMore.readSamples_record.
    destruct (RegionReader.readSamples turns (base r) dest nch off pos n m); eauto. }
  split; [intros seqs' region; split; reflexivity|].
  intros seqs' Hl. unfold ReaderEnd.destroySequenceReader. simpl.
  unfold ReaderEnd.destroyRegionReader, RegionReader.enterWrite. simpl.
  rewrite Hl. simpl. eexists. reflexivity.
Qed.

End Sequences.

Lemma listeners_match_renderer_witness :
  regionsAgree (base grownSequenceReader)
  /\ RegionReader.listening (base grownSequenceReader) = [6; 5]%nat.
Proof.
  split; [|vm_compute; reflexivity].
  apply (listeners_match_renderer (KeepsRegions0 := RegionReaderMore.stamp_keepsRegions)
           RegionReaderSpec.freshStamp).
  - reflexivity.
  - apply (reached_deliver _ sampleSequenceReader grownSequenceReader
             (RegionAdded grownSequence RegionReaderSpec.regionB)).
    + apply (reached_construct _ (sequenceOf [RegionReaderSpec.regionA]) (Some 3%nat)).
      vm_compute. reflexivity.
    + vm_compute. reflexivity.
Defined.

Lemma add_then_remove_witness :
  exists r1 r2,
    didAddPlaybackRegionToRegionSequence grownSequence RegionReaderSpec.regionB
                                         sampleSequenceReader = Returns r1
    /\ willRemovePlaybackRegionFromRegionSequence grownSequence RegionReaderSpec.regionB r1
       = Returns r2
    /\ newCalls r1 r2
       = [RegionReader.LockEnterWrite;
          RegionReader.RegionRemoveListener
            (RegionReader.regionId RegionReaderSpec.regionB);
          RegionReader.RendererReleaseResources;
          RegionReader.RendererRemovePlaybackRegion
            (RegionReader.regionId RegionReaderSpec.regionB);
          RegionReader.LockExitWrite]
    /\ RegionReader.listening (base r2)
       = filter (fun x => x <> RegionReader.regionId RegionReaderSpec.regionB)
                (RegionReader.listening (base sampleSequenceReader))
    /\ (RegionReader.regionId RegionReaderSpec.regionB
          ∉ RegionReader.listening (base sampleSequenceReader) ->
        RegionReader.listening (base r2)
        = RegionReader.listening (base sampleSequenceReader))
    /\ RegionReader.playbackRenderer (base r2)
       = RegionReader.removePlaybackRegion
           (RegionReader.regionId RegionReaderSpec.regionB)
           (RegionReader.releaseResources
              (RegionReader.addPlaybackRegion
                 (RegionReader.regionId RegionReaderSpec.regionB)
                 (RegionReader.releaseResources
                    (RegionReader.playbackRenderer (base sampleSequenceReader)))))
    /\ (KeepsRegions RegionReaderSpec.StampRenderer ->
        forall x,
          x ∈ RegionReader.getPlaybackRegions (RegionReader.playbackRenderer (base r2))
          <-> x <> RegionReader.regionId RegionReaderSpec.regionB
              /\ x ∈ RegionReader.getPlaybackRegions
                     (RegionReader.playbackRenderer (base sampleSequenceReader)))
    /\ RegionReader.lock (base r2) = ReadWriteLock.unlocked
    /\ sequence r2 = sequence sampleSequenceReader.
Proof.
  apply (add_then_remove grownSequence RegionReaderSpec.regionB sampleSequenceReader
           {| getPlaybackRegions :=
                [RegionReaderSpec.regionA; RegionReaderSpec.regionB] |});
    reflexivity.
Defined.

Lemma sequence_destroyed_witness :
  exists r1,
    willDestroyRegionSequence grownSequence grownSequenceReader = Returns r1
    /\ sequence r1 = None
    /\ (forall seqs' region,
           didAddPlaybackRegionToRegionSequence seqs' region r1 = Undefined
           /\ willRemovePlaybackRegionFromRegionSequence seqs' region r1 = Undefined)
    /\ (forall seqs',
           RegionReader.lock (base grownSequenceReader) = ReadWriteLock.unlocked ->
           exists r2, ReaderEnd.destroySequenceReader seqs' r1 = Returns r2).
Proof.
  destruct (sequence_destroyed grownSequence grownSequenceReader
              {| getPlaybackRegions :=
                   [RegionReaderSpec.regionA; RegionReaderSpec.regionB] |})
    as (r1 & H1 & H2 & _ & _ & _ & _ & _ & H3 & H4).
  - reflexivity.
  - exists r1. auto.
Defined.

End SequenceReaderMore.

(** ** DocumentView and AudioPlayHead *)

Module ViewsFacts.
Import ViewsSpec.

Lemma visit_views (showOnly : bool) (hidden selected regionSequences views : list nat) :
  foldl (DocumentView.visitSequence showOnly hidden selected) views regionSequences
  = views ++ List.filter (shown showOnly hidden selected) regionSequences.
Proof.
  revert views. induction regionSequences as [|x l IH]; intros views; simpl.
  - rewrite app_nil_r. reflexivity.
  - rewrite IH. unfold DocumentView.visitSequence, shown.
    destruct (negb showOnly && negb (DocumentView.contains hidden x));
      destruct (DocumentView.contains selected x); simpl;
      rewrite <- ?app_assoc; reflexivity.
Qed.

(** X18: the views [rebuildRegionSequenceViews] ends up with are those of
    the document's region sequences that are to be shown, in the document's
    order and as often as they occur there: a sequence is shown when it is
    selected, hidden or not, and otherwise when all sequences are shown and
    it is not hidden. *)
Theorem rebuilt_views_are_the_shown_sequences
        (showOnlySelectedRegionSequence : bool)
        (hidden selected regionSequences : list nat) :
  DocumentView.rebuildRegionSequenceViews showOnlySelectedRegionSequence hidden selected
                                          regionSequences
  = List.filter (shown showOnlySelectedRegionSequence hidden selected) regionSequences
  /\ forall x,
      In x (DocumentView.rebuildRegionSequenceViews showOnlySelectedRegionSequence
              hidden selected regionSequences)
      <-> In x regionSequences
          /\ ((showOnlySelectedRegionSequence = false /\ ~ In x hidden)
              \/ In x selected).
Proof.
  unfold DocumentView.rebuildRegionSequenceViews. rewrite visit_views. simpl.
  split; [reflexivity|].
  intros x. rewrite filter_In. unfold shown, DocumentView.contains.
  rewrite orb_true_iff, andb_true_iff, !negb_true_iff.
  rewrite bool_decide_eq_true, bool_decide_eq_false, !list_elem_of_In.
  tauto.
Qed.

Lemma frameRateValue_inj (f g : AudioPlayHead.FrameRateType) :
  AudioPlayHead.frameRateValue f = AudioPlayHead.frameRateValue g -> f = g.
Proof. destruct f, g; simpl; intros Hv; first [reflexivity | discriminate Hv]. Qed.

(** X19: what [operator==] on position infos compares.  It leaves out the
    time in seconds, the continuous time in samples and the flag that says
    whether that one is valid: whatever these are on either side, the answer
    is the same.  Two infos it finds equal have the same time in samples, the
    same frame rate (no two enumerators share a value), the same time
    signature and the same playing, recording and looping flags, and
    [operator!=] says false of them. *)
Theorem equals_compares (a b : AudioPlayHead.CurrentPositionInfo) :
  (forall (seconds seconds' : float) (continuous continuous' : Z) (valid valid' : bool),
      AudioPlayHead.equals (withUncompared a seconds continuous valid)
                           (withUncompared b seconds' continuous' valid')
      = AudioPlayHead.equals a b)
  /\ (AudioPlayHead.equals a b = true ->
      AudioPlayHead.timeInSamples a = AudioPlayHead.timeInSamples b
      /\ AudioPlayHead.frameRate a = AudioPlayHead.frameRate b
      /\ AudioPlayHead.timeSigNumerator a = AudioPlayHead.timeSigNumerator b
      /\ AudioPlayHead.timeSigDenominator a = AudioPlayHead.timeSigDenominator b
      /\ AudioPlayHead.isPlaying a = AudioPlayHead.isPlaying b
      /\ AudioPlayHead.isRecording a = AudioPlayHead.isRecording b
      /\ AudioPlayHead.isLooping a = AudioPlayHead.isLooping b
      /\ AudioPlayHead.differs a b = false).
Proof.
  split; [intros; reflexivity|].
  intros He. unfold AudioPlayHead.differs. rewrite He.
  unfold AudioPlayHead.equals in He.
  repeat (apply andb_true_iff in He; destruct He as [He ?]).
  repeat match goal with
         | H : (_ =? _) = true |- _ => apply Z.eqb_eq in H
         | H : Bool.eqb _ _ = true |- _ => apply Bool.eqb_prop in H
         end.
  repeat split; auto using frameRateValue_inj.
Qed.

Lemma equals_compares_witness :
  AudioPlayHead.equals (withUncompared stoppedAtStart 1 48000 true) stoppedAtStart = true
  /\ AudioPlayHead.frameRate (withUncompared stoppedAtStart 1 48000 true)
     = AudioPlayHead.frameRate stoppedAtStart
  /\ AudioPlayHead.differs (withUncompared stoppedAtStart 1 48000 true) stoppedAtStart
     = false.
Proof.
  split; [reflexivity|].
  destruct (proj2 (equals_compares (withUncompared stoppedAtStart 1 48000 true)
                                   stoppedAtStart) eq_refl)
    as (_ & Hf & _ & _ & _ & _ & _ & Hd).
  split; [exact Hf|exact Hd].
Defined.

End ViewsFacts.
